(** * Grammar Sniper: a shallow embedding of the extension's scripts

    The development follows the layout of the repository:
    - [JS]           the fragment of JavaScript values and string operations
                     the scripts rely on (UTF-16 code units, [trim],
                     [substring], [indexOf], property access, truthiness);
    - [Utils]        [debounce] and the places that install it;
    - [Config]       modules/config.js ([updateApiKey], [loadApiKey]);
    - [Api]          modules/api.js (the three calls to the hosted model);
    - [TextNodes], [GrammarCheck]
                     modules/grammarCheck.js (text-node lookup, the cache);
    - [Content]      the content script's message listener and the popup.

    The definitions come first, then the vocabulary of the statements
    ([...Props]), then the theorems ([...Facts]).

    Asynchronous code is written in an exception-and-trace monad; the
    callback-driven [loadApiKey] is a step relation over its pending timers
    and storage callbacks. *)

From Stdlib Require Import ZArith NArith List String Ascii Lia Bool DecimalString.
From stdpp Require Import base option list gmap.

Local Open Scope Z_scope.
Set Warnings "-register-all".

(* ================================================================== *)
(** * The JavaScript fragment                                          *)
(* ================================================================== *)

Module JS.

(** A JavaScript string is a sequence of UTF-16 code units. *)
Abbreviation jsstring := (list N).

(** An ASCII literal of the scripts, as code units. *)
Definition lit (s : string) : jsstring :=
  List.map N_of_ascii (list_ascii_of_string s).

Definition len (s : jsstring) : Z := Z.of_nat (length s).

(** [\s] of a regular expression and the characters [trim] removes:
    ECMAScript WhiteSpace and LineTerminator. *)
Definition is_space (c : N) : bool :=
  ((9 <=? c) && (c <=? 13) || (c =? 32) || (c =? 160) || (c =? 5760)
   || (8192 <=? c) && (c <=? 8202) || (c =? 8232) || (c =? 8233)
   || (c =? 8239) || (c =? 8287) || (c =? 12288) || (c =? 65279))%N.

(** [\d]. *)
Definition is_digit (c : N) : bool := ((48 <=? c) && (c <=? 57))%N.

(** [[A-Z]] under the [i] flag: without the [u] flag a code unit above 127
    never canonicalises to an ASCII one, so these are the ASCII letters. *)
Definition is_letter (c : N) : bool :=
  ((65 <=? c) && (c <=? 90) || (97 <=? c) && (c <=? 122))%N.

(** Canonicalisation of the [i] flag on ASCII. *)
Definition upper (c : N) : N :=
  if ((97 <=? c) && (c <=? 122))%N then (c - 32)%N else c.

(** [.] of a regular expression stops at these. *)
Definition is_line_terminator (c : N) : bool :=
  ((c =? 10) || (c =? 13) || (c =? 8232) || (c =? 8233))%N.

Fixpoint trim_start (s : jsstring) : jsstring :=
  match s with
  | c :: r => if is_space c then trim_start r else s
  | [] => []
  end.

Definition trim_end (s : jsstring) : jsstring := rev (trim_start (rev s)).

(** [String.prototype.trim]. *)
Definition trim (s : jsstring) : jsstring := trim_end (trim_start s).

Definition is_empty (s : jsstring) : bool :=
  match s with [] => true | _ => false end.

Definition eqb_str (a b : jsstring) : bool := bool_decide (a = b).

(** [s.startsWith(p)] on code units; [Some rest] when it does. *)
Fixpoint strip_prefix (p s : jsstring) : option jsstring :=
  match p, s with
  | [], _ => Some s
  | a :: p', b :: s' => if (a =? b)%N then strip_prefix p' s' else None
  | _ :: _, [] => None
  end.

(** The same with the [i] flag. *)
Fixpoint strip_prefix_ci (p s : jsstring) : option jsstring :=
  match p, s with
  | [], _ => Some s
  | a :: p', b :: s' =>
      if (upper a =? upper b)%N then strip_prefix_ci p' s' else None
  | _ :: _, [] => None
  end.

(** [s.indexOf(needle)]: the least index at which [needle] occurs,
    [-1] when there is none. *)
Fixpoint indexOf_from (needle s : jsstring) (i : Z) : Z :=
  match strip_prefix needle s with
  | Some _ => i
  | None =>
      match s with
      | [] => -1
      | _ :: r => indexOf_from needle r (i + 1)
      end
  end.

Definition indexOf (s needle : jsstring) : Z := indexOf_from needle s 0.

(** [s.split('\n')]. *)
Fixpoint split_lines (s : jsstring) : list jsstring :=
  match s with
  | [] => [[]]
  | c :: r =>
      if (c =? 10)%N then [] :: split_lines r
      else match split_lines r with
           | l :: ls => (c :: l) :: ls
           | [] => [[c]]
           end
  end.

(** ** Numbers

    The numbers of the model are the integers and [NaN]; every number the
    scripts compute from a string's length or from a clamped index is one.
    Fractions and infinities are left out. *)
Inductive num := NaN | Int (z : Z).

Definition num_min (a b : num) : num :=
  match a, b with Int x, Int y => Int (Z.min x y) | _, _ => NaN end.

Definition num_max (a b : num) : num :=
  match a, b with Int x, Int y => Int (Z.max x y) | _, _ => NaN end.

Definition num_add (a b : num) : num :=
  match a, b with Int x, Int y => Int (x + y) | _, _ => NaN end.

(** [a < b] and [a <= b]: false as soon as one side is [NaN]. *)
Definition num_lt (a b : num) : bool :=
  match a, b with Int x, Int y => x <? y | _, _ => false end.

Definition num_le (a b : num) : bool :=
  match a, b with Int x, Int y => x <=? y | _, _ => false end.

(** [s.substring(a, b)]: [NaN] counts as 0, both ends are clamped to the
    string, and they are swapped when out of order. *)
Definition to_index (n : num) (s : jsstring) : Z :=
  match n with NaN => 0 | Int z => Z.min (Z.max z 0) (len s) end.

Definition substring (s : jsstring) (a b : num) : jsstring :=
  let i := to_index a s in
  let j := to_index b s in
  let lo := Z.min i j in
  let hi := Z.max i j in
  take (Z.to_nat (hi - lo)) (drop (Z.to_nat lo) s).

(** Decimal numeral of a natural number, as [String(n)] prints it. *)
Definition decimal (n : N) : jsstring :=
  lit (NilEmpty.string_of_uint (N.to_uint n)).

(** ** Values

    What [JSON.parse] and [response.json()] can produce, and [undefined].
    The fields of an object are its own properties, first binding first. *)
Inductive value :=
| Undefined
| Null
| Bool (b : bool)
| Num (n : num)
| Str (s : jsstring)
| Arr (items : list value)
| Obj (fields : list (jsstring * value)).

Inductive error :=
| TypeError
| SyntaxError
| NetworkError
| Error (message : jsstring).

Inductive outcome (A : Type) :=
| Ok (a : A)
| Throw (e : error).
Arguments Ok {A} a.
Arguments Throw {A} e.

Fixpoint lookup_field (k : jsstring) (fields : list (jsstring * value)) : value :=
  match fields with
  | [] => Undefined
  | (k', v) :: rest => if eqb_str k k' then v else lookup_field k rest
  end.

(** [obj.k = v] on an object. *)
Fixpoint set_field (k : jsstring) (v : value) (fields : list (jsstring * value))
  : list (jsstring * value) :=
  match fields with
  | [] => [(k, v)]
  | (k', v') :: rest =>
      if eqb_str k k' then (k, v) :: rest else (k', v') :: set_field k v rest
  end.

Inductive key := Name (s : string) | Index (i : nat).

(** [v.name] and [v[i]]. Reading a property of [undefined] or [null] throws;
    a missing property reads as [undefined]. Of the inherited properties
    only [length] is modelled: it is the only one the scripts read as data. *)
Definition get (v : value) (k : key) : outcome value :=
  match v with
  | Undefined | Null => Throw TypeError
  | Bool _ | Num _ => Ok Undefined
  | Str s =>
      match k with
      | Name n => if String.eqb n "length" then Ok (Num (Int (len s))) else Ok Undefined
      | Index i => match s !! i with Some c => Ok (Str [c]) | None => Ok Undefined end
      end
  | Arr items =>
      match k with
      | Name n => if String.eqb n "length" then Ok (Num (Int (Z.of_nat (length items)))) else Ok Undefined
      | Index i => Ok (default Undefined (items !! i))
      end
  | Obj fields =>
      match k with
      | Name n => Ok (lookup_field (lit n) fields)
      | Index i => Ok (lookup_field (decimal (N.of_nat i)) fields)
      end
  end.

(** [ToBoolean]. *)
Definition truthy (v : value) : bool :=
  match v with
  | Undefined | Null => false
  | Bool b => b
  | Num NaN => false
  | Num (Int z) => negb (z =? 0)
  | Str s => negb (is_empty s)
  | Arr _ | Obj _ => true
  end.

(** [v === n] for a number literal [n]. *)
Definition strict_eq_int (v : value) (n : Z) : bool :=
  match v with Num (Int z) => z =? n | _ => false end.

(** Calling a string method on [v]: anything but a string has no such
    method (or no properties at all), and the call throws. *)
Definition as_string (v : value) : outcome jsstring :=
  match v with Str s => Ok s | _ => Throw TypeError end.

End JS.

(* ================================================================== *)
(** * modules/grammarCheck.js: text nodes                              *)
(* ================================================================== *)

Module TextNodes.
Import JS.

(** An element as the tree walker ([NodeFilter.SHOW_TEXT]) presents it: its
    text nodes in document order, each given by its [nodeValue]. A node is
    identified by its place in that order, which is what [!==] compares. *)
Abbreviation element := (list jsstring).

(** [!node.nodeValue || node.nodeValue.trim() === ''] *)
Definition skipped (nodeValue : jsstring) : bool :=
  is_empty nodeValue || is_empty (trim nodeValue).

(** What [findTextNodeAtPosition] returns when it is not [null]. [node] is
    [None] for JavaScript's [null]. *)
Record found := Found { node : option nat; offset : Z }.

(** The [while] loop of [findTextNodeAtPosition]: the walker is at the node
    of index [idx]; the result is [foundNode], [foundOffset] (when the loop
    ended in [break]) and the final [currentLength]. *)
Fixpoint find_loop (rest : element) (idx : nat) (currentLength position : Z)
  : option (nat * Z) * Z :=
  match rest with
  | [] => (None, currentLength)
  | v :: rest' =>
      if skipped v then find_loop rest' (S idx) currentLength position
      else
        let nodeLength := len v in
        if (currentLength <=? position) && (position <? currentLength + nodeLength)
        then (Some (idx, position - currentLength), currentLength)
        else find_loop rest' (S idx) (currentLength + nodeLength) position
  end.

Definition findTextNodeAtPosition (el : option element) (position : Z)
  : option found :=
  match el with
  | None => None
  | Some nodes =>
      if position <? 0 then None
      else
        match find_loop nodes 0 0 position with
        | (Some (i, off), _) => Some (Found (Some i) off)
        | (None, currentLength) =>
            (* the loop ended because [nextNode()] returned [null] *)
            if 0 <? currentLength then Some (Found None 0) else None
        end
  end.

(** The [while] loop of [getTextNodePosition]. *)
Fixpoint position_loop (rest : element) (idx target : nat) (currentLength : Z) : Z :=
  match rest with
  | [] => currentLength
  | v :: rest' =>
      if Nat.eqb idx target then currentLength
      else if skipped v then position_loop rest' (S idx) target currentLength
      else position_loop rest' (S idx) target (currentLength + len v)
  end.

Definition getTextNodePosition (el : option element) (textNode : option nat) : Z :=
  match el, textNode with
  | Some nodes, Some target => position_loop nodes 0 target 0
  | _, _ => 0
  end.

(** Total length of the text nodes both functions count. *)
Definition counted_length (nodes : element) : Z :=
  fold_right (fun v acc => if skipped v then acc else len v + acc) 0 nodes.

End TextNodes.

(* ================================================================== *)
(** * Effects: console, network, timers, exceptions                    *)
(* ================================================================== *)

Module Eff.
Import JS.

Inductive level := Info | Warn | Err.

(** The argument of [fetch]. [body] is the payload that [JSON.stringify]
    serialises; [timeout_ms] is the delay of [AbortSignal.timeout]. *)
Record request := Request {
  url : jsstring;
  method : string;
  headers : list (string * string);
  body : value;
  timeout_ms : Z
}.

(** What a call leaves behind, in order: console lines (by their leading
    text), requests sent, and waits on [setTimeout]. *)
Inductive event :=
| Console (l : level) (label : string)
| Fetch (r : request)
| Wait (ms : Z).

(** An [async] function body: the events it produced and how it ended.
    [Throw] is a synchronous [throw] as well as a rejected [await]. *)
Definition M (A : Type) : Type := list event * outcome A.

Definition ret {A} (a : A) : M A := ([], Ok a).
Definition throw {A} (e : error) : M A := ([], Throw e).
Definition emit (e : event) : M unit := ([e], Ok tt).
Definition lift {A} (o : outcome A) : M A := ([], o).

Definition bind {A B} (m : M A) (f : A -> M B) : M B :=
  match m with
  | (t, Ok a) => let (t', r) := f a in (t ++ t', r)
  | (t, Throw e) => (t, Throw e)
  end.

(** [try { m } catch (error) { h error }] *)
Definition try_catch {A} (m : M A) (h : error -> M A) : M A :=
  match m with
  | (t, Ok a) => (t, Ok a)
  | (t, Throw e) => let (t', r) := h e in (t ++ t', r)
  end.

Definition trace {A} (m : M A) : list event := fst m.
Definition result {A} (m : M A) : outcome A := snd m.

Definition requests (t : list event) : list request :=
  omap (fun e => match e with Fetch r => Some r | _ => None end) t.

Definition console_log (label : string) : M unit := emit (Console Info label).
Definition console_warn (label : string) : M unit := emit (Console Warn label).
Definition console_error (label : string) : M unit := emit (Console Err label).

(** [items.map(f)] where [f] may throw. *)
Fixpoint map_outcome {A B} (f : A -> outcome B) (l : list A) : outcome (list B) :=
  match l with
  | [] => Ok []
  | a :: r =>
      match f a with
      | Throw e => Throw e
      | Ok b => match map_outcome f r with
                | Throw e => Throw e
                | Ok bs => Ok (b :: bs)
                end
      end
  end.

End Eff.

Declare Scope eff_scope.
Delimit Scope eff_scope with eff.
Notation "x <- m ;; k" := (Eff.bind m (fun x => k))
  (at level 100, m at next level, right associativity) : eff_scope.
Notation "m ;;; k" := (Eff.bind m (fun _ => k))
  (at level 100, right associativity) : eff_scope.

(* ================================================================== *)
(** * modules/api.js                                                   *)
(* ================================================================== *)

Module Api.
Import JS Eff.
Local Open Scope eff_scope.

(** A [Response]: [text_body] and [json_body] are what [response.text()]
    and [response.json()] settle with. *)
Record response := Response {
  ok : bool;
  status : N;
  text_body : outcome jsstring;
  json_body : outcome value
}.

(** What surrounds a call: the page's globals, the network and the host's
    conversions. The key accessors are indexed by the poll that reads them,
    since the key may be set while [getApiKeyWithRetry] waits.
    - [config_getApiKey]: [window.GrammarSniperConfig.getApiKey], when the
      config object and the function exist;
    - [global_api_key]: the global [GEMINI_API_KEY], when it is declared;
    - [config_getApiUrl]: what [window.GrammarSniperConfig.getApiUrl()]
      returns, when it exists;
    - [fetch_result]: how [fetch] settles for a request;
    - [JSON_parse]: [JSON.parse];
    - [ToNumber_other]: [ToNumber] on strings, arrays and objects. *)
Record env := Env {
  config_getApiKey : option (nat -> jsstring);
  global_api_key : option (nat -> jsstring);
  config_getApiUrl : option jsstring;
  fetch_result : request -> outcome response;
  JSON_parse : jsstring -> outcome value;
  ToNumber_other : value -> num
}.

Definition to_number (e : env) (v : value) : num :=
  match v with
  | Undefined => NaN
  | Null => Int 0
  | Bool b => Int (if b then 1 else 0)
  | Num n => n
  | Str _ | Arr _ | Obj _ => ToNumber_other e v
  end.

Definition fetch (e : env) (r : request) : M response :=
  emit (Fetch r) ;;; lift (fetch_result e r).

(** ** getApiKeyWithRetry *)

(** One round of the [while] loop, [todo] rounds before [attempts] reaches
    [maxRetries]. *)
Fixpoint key_loop (e : env) (maxRetries : nat) (retryDelay : Z)
    (todo attempts : nat) : M jsstring :=
  match todo with
  | O => ret []
  | S todo' =>
      let from_config :=
        match config_getApiKey e with
        | Some getApiKey => getApiKey attempts
        | None => []
        end in
      if negb (is_empty from_config) then ret from_config
      else
        let from_global :=
          match global_api_key e with
          | Some k => k attempts
          | None => []
          end in
        if negb (is_empty from_global) then ret from_global
        else
          (if (attempts <? maxRetries - 1)%nat then emit (Wait retryDelay) else ret tt) ;;;
          key_loop e maxRetries retryDelay todo' (S attempts)
  end.

Definition getApiKeyWithRetry (e : env) (maxRetries : nat) (retryDelay : Z)
  : M jsstring :=
  key_loop e maxRetries retryDelay maxRetries 0.

(** The default arguments [maxRetries = 3, retryDelay = 1000]. *)
Definition getApiKeyWithRetry_default (e : env) : M jsstring :=
  getApiKeyWithRetry e 3 1000.

(** ** Request construction *)

Definition dq : jsstring := [34%N].

Definition suggestions_prompt_head : jsstring :=
  concat
   [lit "Review and correct any grammar, spelling, or style issues in the following text. Then provide 3 alternative ways to express the same content more clearly and professionally.

Original text: ";
    dq].

Definition suggestions_prompt_tail : jsstring :=
  concat
   [dq;
    lit "

Format your response EXACTLY as follows - a numbered list of 4 items without quotes, markdown, or any explanations:
1. [grammatically corrected version]
2. [professional alternative 1]
3. [clear alternative 2]
4. [impactful alternative 3]

IMPORTANT:
- Do NOT include quotes, explanations, or labels in your response
- Do NOT include trailing periods like ";
    dq;
    lit "They proceeded down the street.";
    dq;
    lit "
- Do NOT include any formatting or markdown
- Just provide the plain text alternatives
- Each suggestion should be grammatically complete
- Never explain what you changed or why"].

Definition sentiment_prompt_head : jsstring :=
  concat
   [lit "Analyze the sentiment/tone of the following text and categorize it as exactly one of these options: Confident, Friendly, Formal, Casual, Optimistic, Neutral, Tentative, Concerned, Joyful, or Forceful. Also provide a matching emoji.

Text: ";
    dq].

Definition sentiment_prompt_tail : jsstring :=
  concat
   [dq;
    lit "

Format your response exactly like this example:
Sentiment: Confident
Emoji: ";
    [240%N];
    [376%N];
    [8217%N];
    [170%N];
    lit "

Only return those two lines, nothing else."].

Definition details_prompt_head : jsstring :=
  concat
   [lit "Act as a professional grammar checker. Analyze the following text for grammar, spelling, style, and word choice errors. Pay special attention to character positions.

Text to analyze: ";
    dq].

Definition details_prompt_tail : jsstring :=
  concat
   [dq;
    lit "

Format your response using this exact JSON structure, with no additional text:
{
  ";
    dq;
    lit "words_with_mistakes";
    dq;
    lit ": [
    {
      ";
    dq;
    lit "text";
    dq;
    lit ": ";
    dq;
    lit "incorrect text";
    dq;
    lit ",
      ";
    dq;
    lit "suggestion";
    dq;
    lit ": ";
    dq;
    lit "corrected text";
    dq;
    lit ",
      ";
    dq;
    lit "mistake_type";
    dq;
    lit ": ";
    dq;
    lit "grammar|spelling|style|word choice";
    dq;
    lit ",
      ";
    dq;
    lit "start_index";
    dq;
    lit ": 0,
      ";
    dq;
    lit "end_index";
    dq;
    lit ": 0
    }
  ]
}

IMPORTANT RULES for start_index and end_index:
1. Count characters from 0, including spaces and punctuation
2. start_index should be the exact position where the incorrect word/phrase begins
3. end_index should be the position after the last character of the incorrect word/phrase
4. Double-check that text[start_index:end_index] exactly matches the incorrect text
5. Verify indices by ensuring end_index - start_index equals the length of the incorrect text

Example: For ";
    dq;
    lit "They was walking";
    dq;
    lit ", if ";
    dq;
    lit "was";
    dq;
    lit " is incorrect:
- start_index would be 5 (position of 'w' in ";
    dq;
    lit "was";
    dq;
    lit ")
- end_index would be 8 (position after 's' in ";
    dq;
    lit "was";
    dq;
    lit ")

Return an empty words_with_mistakes array if no issues are found.
Give 3-5 errors maximum to avoid overwhelming the user."].

Definition suggestions_prompt (text : jsstring) : jsstring :=
  suggestions_prompt_head ++ text ++ suggestions_prompt_tail.

Definition sentiment_prompt (text : jsstring) : jsstring :=
  sentiment_prompt_head ++ text ++ sentiment_prompt_tail.

Definition details_prompt (text : jsstring) : jsstring :=
  details_prompt_head ++ text ++ details_prompt_tail.

(** [{ contents: [ { parts: [ { text: prompt } ] } ] }] *)
Definition make_payload (prompt : jsstring) : value :=
  Obj [(lit "contents",
        Arr [Obj [(lit "parts",
                   Arr [Obj [(lit "text", Str prompt)]])]])].

Definition default_endpoint : jsstring :=
  lit "https://generativelanguage.googleapis.com/v1beta/models/gemini-1.5-flash-latest:generateContent?key=".

Definition api_url (e : env) (apiKey : jsstring) : jsstring :=
  match config_getApiUrl e with
  | Some u => u
  | None => default_endpoint ++ apiKey
  end.

Definition post_request (e : env) (apiKey prompt : jsstring) (timeout : Z) : request :=
  {| url := api_url e apiKey;
     method := "POST";
     headers := [("Content-Type"%string, "application/json"%string)];
     body := make_payload prompt;
     timeout_ms := timeout |}.

Definition post (e : env) (apiKey prompt : jsstring) (timeout : Z) : M response :=
  fetch e (post_request e apiKey prompt timeout).

(** [data.candidates[0].content.parts[0].text], after the guard
    [!data.candidates || data.candidates.length === 0] that throws
    [missing]. *)
Definition first_candidate_text (data : value) (missing : string) : M value :=
  candidates <- lift (get data (Name "candidates")) ;;
  (if negb (truthy candidates) then throw (Error (lit missing))
   else
     n <- lift (get candidates (Name "length")) ;;
     if strict_eq_int n 0 then throw (Error (lit missing)) else ret tt) ;;;
  c0 <- lift (get candidates (Index 0)) ;;
  content <- lift (get c0 (Name "content")) ;;
  parts <- lift (get content (Name "parts")) ;;
  p0 <- lift (get parts (Index 0)) ;;
  lift (get p0 (Name "text")).

(** ** getGrammarSuggestions: cleaning the numbered list *)

Fixpoint skip_digits (s : jsstring) : jsstring :=
  match s with
  | c :: r => if is_digit c then skip_digits r else s
  | [] => []
  end.

(** [/^\d+\.\s/]: what follows the match, when there is one. *)
Definition numbered (line : jsstring) : option jsstring :=
  match line with
  | c :: _ =>
      if is_digit c then
        match skip_digits line with
        | d :: w :: rest => if (d =? 46)%N && is_space w then Some rest else None
        | _ => None
        end
      else None
  | [] => None
  end.

Definition strip_number (line : jsstring) : jsstring :=
  default line (numbered line).

(** [/\*\*/g] replaced by nothing. *)
Fixpoint remove_bold (s : jsstring) : jsstring :=
  match s with
  | a :: r =>
      match r with
      | b :: r' => if (a =? 42)%N && (b =? 42)%N then remove_bold r' else a :: remove_bold r
      | [] => [a]
      end
  | [] => []
  end.

(** The rest of [s] from the first occurrence of [c] on. *)
Fixpoint drop_until (c : N) (s : jsstring) : jsstring :=
  match s with
  | x :: r => if (x =? c)%N then s else drop_until c r
  | [] => []
  end.

Definition skip_non_colon (s : jsstring) : jsstring := drop_until 58 s.

(** The three alternatives of
    [/^(?:Grammatically corrected version:|Alternative version \d+:|[^:]+:)\s*/i],
    each giving what follows it. *)
Definition label_corrected (s : jsstring) : option jsstring :=
  strip_prefix_ci (lit "Grammatically corrected version:") s.

Definition label_alternative (s : jsstring) : option jsstring :=
  match strip_prefix_ci (lit "Alternative version ") s with
  | Some (c :: r) =>
      if is_digit c then
        match skip_digits r with
        | x :: rest => if (x =? 58)%N then Some rest else None
        | [] => None
        end
      else None
  | _ => None
  end.

Definition label_any (s : jsstring) : option jsstring :=
  match s with
  | c :: r =>
      if (c =? 58)%N then None
      else match skip_non_colon r with
           | _ :: rest => Some rest
           | [] => None
           end
  | [] => None
  end.

Definition strip_label (s : jsstring) : jsstring :=
  match label_corrected s with
  | Some rest => trim_start rest
  | None =>
      match label_alternative s with
      | Some rest => trim_start rest
      | None =>
          match label_any s with
          | Some rest => trim_start rest
          | None => s
          end
      end
  end.

Definition skip_to_close (s : jsstring) : jsstring := drop_until 41 s.

(** [/\s*\([^)]+\)/] at the head of [s]: how many code units it matches. *)
Definition paren_match (s : jsstring) : option nat :=
  match trim_start s with
  | c :: r =>
      if (c =? 40)%N then
        match r with
        | x :: _ =>
            if (x =? 41)%N then None
            else match skip_to_close r with
                 | _ :: rest => Some (length s - length rest)%nat
                 | [] => None
                 end
        | [] => None
        end
      else None
  | [] => None
  end.

(** The [g] replacement: [skip] code units of a match are still to drop. *)
Fixpoint remove_parens_from (skip : nat) (s : jsstring) : jsstring :=
  match s with
  | [] => []
  | c :: r =>
      match skip with
      | S k => remove_parens_from k r
      | O =>
          match paren_match s with
          | Some (S k) => remove_parens_from k r
          | _ => c :: remove_parens_from 0 r
          end
      end
  end.

Definition remove_parens (s : jsstring) : jsstring := remove_parens_from 0 s.

(** [/[\[\]]/g] replaced by nothing. *)
Definition remove_brackets (s : jsstring) : jsstring :=
  List.filter (fun c => negb ((c =? 91) || (c =? 93))%N) s.

Definition no_period (s : jsstring) : bool :=
  forallb (fun c => negb (c =? 46)%N) s.

Definition word_then_no_period (w : string) (s : jsstring) : bool :=
  match strip_prefix_ci (lit w) s with
  | Some r => no_period r
  | None => false
  end.

(** What follows the period in the expression that cuts a trailing
    explanation (flag [i]): white space, then a letter, [This], [Here] or
    [The], then anything but a period up to the end of the line. *)
Definition explanation_tail (t : jsstring) : bool :=
  match t with
  | w :: _ =>
      is_space w &&
      (let t' := trim_start t in
       match t' with
       | c :: r => is_letter c && no_period r
       | [] => false
       end
       || word_then_no_period "This" t'
       || word_then_no_period "Here" t'
       || word_then_no_period "The" t')
  | [] => false
  end.

(** The first match of the expression above, period included, becomes ['.']. *)
Fixpoint cut_explanation (s : jsstring) : jsstring :=
  match s with
  | c :: r => if (c =? 46)%N && explanation_tail r then [46%N] else c :: cut_explanation r
  | [] => []
  end.

Definition is_quote (c : N) : bool := ((c =? 34) || (c =? 39))%N.

(** A quote (double or single) at the start and one at the end, removed. *)
Definition strip_quotes (s : jsstring) : jsstring :=
  let s1 := match s with
            | c :: r => if is_quote c then r else s
            | [] => []
            end in
  match rev s1 with
  | c :: r => if is_quote c then rev r else s1
  | [] => []
  end.

(** [/\s+/g] replaced by one space. *)
Fixpoint collapse_spaces (in_run : bool) (s : jsstring) : jsstring :=
  match s with
  | [] => []
  | c :: r =>
      if is_space c then
        if in_run then collapse_spaces true r else 32%N :: collapse_spaces true r
      else c :: collapse_spaces false r
  end.

Definition is_terminal (c : N) : bool := ((c =? 46) || (c =? 33) || (c =? 63))%N.

(** [/[.!?]$/.test(line)] *)
Definition ends_with_terminal (s : jsstring) : bool :=
  match rev s with
  | c :: _ => is_terminal c
  | [] => false
  end.

Definition ensure_terminal (s : jsstring) : jsstring :=
  if ends_with_terminal s then s else s ++ [46%N].

(** The body of the [.map(line => ...)]. *)
Definition clean_line (line : jsstring) : jsstring :=
  let line := strip_number line in
  let line := remove_bold line in
  let line := strip_label line in
  let line := remove_parens line in
  let line := remove_brackets line in
  let line := cut_explanation line in
  let line := strip_quotes line in
  let line := collapse_spaces false (trim line) in
  ensure_terminal line.

Definition parse_suggestions (suggestionsText : jsstring) : list jsstring :=
  List.filter (fun line => 0 <? len line)
    (List.map clean_line
       (List.filter (fun line => bool_decide (is_Some (numbered line)))
          (split_lines suggestionsText))).

Definition no_key_message : jsstring :=
  lit "No API key set. Please set your API key in the extension settings.".

Definition http_error_message (status : N) (errorText : jsstring) : jsstring :=
  lit "HTTP error! status: " ++ decimal status ++ lit ", message: " ++ errorText.

Definition getGrammarSuggestions_body (e : env) (text : jsstring) : M (list jsstring) :=
  console_log "Getting grammar suggestions for text:" ;;;
  apiKey <- getApiKeyWithRetry_default e ;;
  if is_empty apiKey then
    console_warn "API key not set. Please set your Google API key in the extension popup." ;;;
    ret [no_key_message]
  else
    console_log "Sending API request" ;;;
    response <- post e apiKey (suggestions_prompt text) 30000 ;;
    console_log "Received API response with status:" ;;;
    (if negb (ok response) then
       errorText <- lift (text_body response) ;;
       throw (Error (http_error_message (status response) errorText))
     else ret tt) ;;;
    data <- lift (json_body response) ;;
    console_log "Parsed API response data:" ;;;
    suggestionsText <- first_candidate_text data "No candidates returned from API" ;;
    console_log "Raw suggestions text:" ;;;
    suggestionsText <- lift (as_string suggestionsText) ;;
    let suggestionLines := parse_suggestions suggestionsText in
    console_log "Parsed and cleaned suggestion lines:" ;;;
    ret suggestionLines.

Definition getGrammarSuggestions (e : env) (text : jsstring) : M (list jsstring) :=
  try_catch (getGrammarSuggestions_body e text)
    (fun error => console_error "Error getting grammar suggestions:" ;;; throw error).

(** ** analyzeSentiment *)

Record sentiment_result := SentimentResult {
  sentiment : jsstring;
  emoji : jsstring
}.

(** The default emoji as the script's source spells it: three code units. *)
Definition default_emoji : jsstring := [240%N; 376%N; 732%N].

Definition neutral : sentiment_result :=
  {| sentiment := lit "Neutral"; emoji := default_emoji |}.

Fixpoint take_line (s : jsstring) : jsstring :=
  match s with
  | c :: r => if is_line_terminator c then [] else c :: take_line r
  | [] => []
  end.

(** [s.match] on a label followed by a group of any characters but line
    terminators: the group of the first match. *)
Fixpoint capture_after (label s : jsstring) : option jsstring :=
  match strip_prefix label s with
  | Some rest => Some (take_line rest)
  | None =>
      match s with
      | [] => None
      | _ :: r => capture_after label r
      end
  end.

Definition analyzeSentiment_body (e : env) (text : jsstring) : M sentiment_result :=
  apiKey <- getApiKeyWithRetry_default e ;;
  if is_empty apiKey then
    console_warn "API key not set. Using default sentiment." ;;;
    ret neutral
  else
    response <- post e apiKey (sentiment_prompt text) 15000 ;;
    (if negb (ok response)
     then throw (Error (lit "HTTP error! status: " ++ decimal (status response)))
     else ret tt) ;;;
    data <- lift (json_body response) ;;
    result <- first_candidate_text data "No sentiment analysis returned" ;;
    result <- lift (as_string result) ;;
    let sentimentMatch := capture_after (lit "Sentiment: ") result in
    let emojiMatch := capture_after (lit "Emoji: ") result in
    ret {| sentiment := match sentimentMatch with
                        | Some m => trim m
                        | None => lit "Neutral"
                        end;
           emoji := match emojiMatch with
                    | Some m => trim m
                    | None => default_emoji
                    end |}.

Definition analyzeSentiment (e : env) (text : jsstring) : M sentiment_result :=
  try_catch (analyzeSentiment_body e text)
    (fun error => console_error "Error analyzing sentiment:" ;;; ret neutral).

(** ** checkGrammarWithDetails *)

(** [{ words_with_mistakes: [] }] *)
Definition no_mistakes : value := Obj [(lit "words_with_mistakes", Arr [])].

Definition drop_to_open (s : jsstring) : jsstring := drop_until 123 s.

Definition drop_to_close (s : jsstring) : jsstring := drop_until 125 s.

(** [responseText.match(/\{[\s\S]*\}/)]: the expression is greedy, so the
    match runs from the first opening brace to the last closing brace after
    it; there is none when no closing brace follows the first opening one. *)
Definition json_block (responseText : jsstring) : option jsstring :=
  match drop_to_open responseText with
  | open :: r =>
      match drop_to_close (rev r) with
      | [] => None
      | rev_body => Some (open :: rev rev_body)
      end
  | [] => None
  end.

(** The body of [words_with_mistakes.map(mistake => ...)]. Only an object
    survives it: on [null] the first property read throws, and on any other
    value [mistake.text] is [undefined], so [mistake.text.trim()] throws. *)
Definition fix_indices (e : env) (text : jsstring) (mistake : value) : outcome value :=
  match mistake with
  | Obj fields =>
      let start_index :=
        num_max (Int 0)
          (num_min (to_number e (lookup_field (lit "start_index") fields))
                   (Int (len text - 1))) in
      let fields := set_field (lit "start_index") (Num start_index) fields in
      let end_index :=
        num_max (num_add start_index (Int 1))
          (num_min (to_number e (lookup_field (lit "end_index") fields))
                   (Int (len text))) in
      let fields := set_field (lit "end_index") (Num end_index) fields in
      let extractedText := substring text start_index end_index in
      match lookup_field (lit "text") fields with
      | Str mistake_text =>
          if negb (eqb_str (trim extractedText) (trim mistake_text)) then
            let position := indexOf text mistake_text in
            if negb (position =? -1) then
              let fields := set_field (lit "start_index") (Num (Int position)) fields in
              let fields :=
                set_field (lit "end_index")
                  (Num (Int (position + len mistake_text))) fields in
              Ok (Obj fields)
            else Ok (Obj fields)
          else Ok (Obj fields)
      | _ => Throw TypeError
      end
  | _ => Throw TypeError
  end.

Definition checkGrammarWithDetails_body (e : env) (text : jsstring) : M value :=
  console_log "Checking grammar with detailed response for text:" ;;;
  apiKey <- getApiKeyWithRetry_default e ;;
  if is_empty apiKey then
    console_warn "API key not set. Skipping detailed grammar check." ;;;
    ret no_mistakes
  else
    console_log "Sending API request to:" ;;;
    response <- post e apiKey (details_prompt text) 30000 ;;
    console_log "Received API response with status:" ;;;
    (if negb (ok response) then
       errorText <- lift (text_body response) ;;
       throw (Error (http_error_message (status response) errorText))
     else ret tt) ;;;
    data <- lift (json_body response) ;;
    console_log "Parsed API response data:" ;;;
    responseText <- first_candidate_text data "No candidates returned from API" ;;
    responseText <- lift (as_string responseText) ;;
    match json_block responseText with
    | Some jsonMatch =>
        result <- lift (JSON_parse e jsonMatch) ;;
        words <- lift (get result (Name "words_with_mistakes")) ;;
        match result, words with
        | Obj fields, Arr mistakes =>
            fixed <- lift (map_outcome (fix_indices e text) mistakes) ;;
            ret (Obj (set_field (lit "words_with_mistakes") (Arr fixed) fields))
        | _, _ =>
            console_error "Invalid response structure:" ;;;
            ret no_mistakes
        end
    | None => throw (Error (lit "Could not extract JSON from response"))
    end.

Definition checkGrammarWithDetails (e : env) (text : jsstring) : M value :=
  try_catch (checkGrammarWithDetails_body e text)
    (fun error => console_error "Error checking grammar with details:" ;;; ret no_mistakes).

End Api.

(* ================================================================== *)
(** * modules/grammarCheck.js: checkGrammar and its cache              *)
(* ================================================================== *)

Module GrammarCheck.
Import JS Eff Api.

(** An entry of the list [checkGrammar] returns. *)
Record grammar_error := GrammarError {
  error : jsstring;
  suggestion : jsstring;
  type : value;
  startPos : num;
  endPos : num
}.

Record cache_entry := CacheEntry {
  errors : list grammar_error;
  timestamp : Z
}.

(** The module's state: the [Map] behind [grammarCheckCache], and how many
    times [Date.now()] has been read. *)
Record world := World {
  grammarCheckCache : gmap (list N) cache_entry;
  clock_reads : nat
}.

Definition CACHE_EXPIRY_MS : Z := 30 * 60 * 1000.

Definition initial : world := {| grammarCheckCache := ∅; clock_reads := 0 |}.

(** The body of [words_with_mistakes.map(mistake => ...)] in [checkGrammar]:
    [None] is the [null] that [.filter(Boolean)] drops. *)
Definition to_error (mistake : value) : option grammar_error :=
  match mistake with
  | Obj fields =>
      match lookup_field (lit "text") fields,
            lookup_field (lit "suggestion") fields,
            lookup_field (lit "start_index") fields,
            lookup_field (lit "end_index") fields with
      | Str text, Str sugg, Num start_index, Num end_index =>
          if num_lt start_index (Int 0) || num_le end_index start_index then None
          else
            let mistake_type := lookup_field (lit "mistake_type") fields in
            Some {| error := text;
                    suggestion := sugg;
                    type := if truthy mistake_type then mistake_type
                            else Str (lit "grammar");
                    startPos := start_index;
                    endPos := end_index |}
      | _, _, _, _ => None
      end
  | _ => None
  end.

(** [console.warn('Invalid mistake object:', mistake)], once for every
    mistake that the validation rejects, in the order of the mistakes. *)
Definition warnings (mistakes : list value) : list event :=
  flat_map
    (fun mistake =>
       match to_error mistake with
       | Some _ => []
       | None => [Console Warn "Invalid mistake object:"%string]
       end)
    mistakes.

Section Clock.
(** [clock n] is what the [n]-th reading of [Date.now()] returns. *)
Variable clock : nat -> Z.

Definition Date_now (w : world) : Z * world :=
  (clock (clock_reads w),
   {| grammarCheckCache := grammarCheckCache w; clock_reads := S (clock_reads w) |}).

(** A call that found nothing usable in the cache. *)
Definition check_fresh (e : env) (w : world) (text : jsstring)
  : list event * list grammar_error * world :=
  let t0 := [Console Info "Checking grammar for text:"%string] in
  match checkGrammarWithDetails e text with
  | (t, Throw _) =>
      (t0 ++ t ++ [Console Err "Error checking grammar:"%string], [], w)
  | (t, Ok detailedResult) =>
      match detailedResult with
      | Undefined | Null =>
          (t0 ++ t ++ [Console Warn "Invalid grammar check result structure"%string], [], w)
      | _ =>
          match get detailedResult (Name "words_with_mistakes") with
          | Ok (Arr mistakes) =>
              let errs := omap to_error mistakes in
              let (now, w) := Date_now w in
              (t0 ++ t ++ warnings mistakes, errs,
               {| grammarCheckCache :=
                    <[text := {| errors := errs; timestamp := now |}]> (grammarCheckCache w);
                  clock_reads := clock_reads w |})
          | _ =>
              (t0 ++ t ++ [Console Warn "Invalid grammar check result structure"%string], [], w)
          end
      end
  end.

Definition checkGrammar (e : env) (w : world) (text : jsstring)
  : list event * list grammar_error * world :=
  if is_empty text || (len (trim text) <? 10) then
    ([Console Info "Text is too short for grammar check"%string], [], w)
  else
    match grammarCheckCache w !! text with
    | Some cachedResult =>
        let (now, w) := Date_now w in
        if now - timestamp cachedResult <? CACHE_EXPIRY_MS then
          ([Console Info "Using cached grammar check result"%string],
           errors cachedResult, w)
        else check_fresh e w text
    | None => check_fresh e w text
    end.

(** The states the module can be in: it starts with an empty cache, and
    only [checkGrammar] touches it. *)
Inductive reachable : world -> Prop :=
| reachable_initial : reachable initial
| reachable_call (e : env) (w : world) (text : jsstring) :
    reachable w -> reachable (checkGrammar e w text).2.

End Clock.

End GrammarCheck.

(* ================================================================== *)
(** * The debounce utility and where it is installed                   *)
(* ================================================================== *)

Module Utils.

(** [debounce(fn, delay)]: the closure holds one timer. [timer] is the time
    at which the pending call of [fn] is due. *)
Record debounced := Debounced {
  delay : Z;
  timer : option Z
}.

Definition debounce (delay : Z) : debounced :=
  {| delay := delay; timer := None |}.

(** A call at time [now]: [clearTimeout(timer)], then a new [setTimeout]. *)
Definition call (d : debounced) (now : Z) : debounced :=
  {| delay := delay d; timer := Some (now + delay d) |}.

(** Whether [fn] runs at time [now]. *)
Definition fires (d : debounced) (now : Z) : bool :=
  match timer d with
  | Some due => due =? now
  | None => false
  end.

(** Every place where the scripts debounce a handler, with its delay in
    milliseconds: the four calls of [debounce] and the timer that
    [initDetailedGrammarCheck] clears and sets again in [setupDebounce]. *)
Definition handleInput : debounced := debounce 150.
Definition repositionLogo : debounced := debounce 50.
Definition handleWindowResize : debounced := debounce 100.
Definition debouncedCheck : debounced := debounce 1000.
Definition setupDebounce : debounced := debounce 1500.

Definition installed : list debounced :=
  [handleInput; repositionLogo; handleWindowResize; debouncedCheck; setupDebounce].

End Utils.

(* ================================================================== *)
(** * modules/config.js                                                *)
(* ================================================================== *)

Module Config.
Import JS.

Inductive promise := Pending | Resolved (b : bool) | Rejected.

#[global] Instance promise_eq_dec : EqDecision promise.
Proof. solve_decision. Defined.

(** How the browser answers one call of [tryLoadApiKey]:
    - [ChromeMissing]: [!chrome || !chrome.runtime || !chrome.storage];
    - [ContextInvalidated]: [chrome.runtime.id === undefined];
    - [ThrowsEarly]: an exception before the 5 s timer is set;
    - [GetThrows]: [chrome.storage.sync.get] throws, the timer being set;
    - [GetAccepted]: the read is under way, its callback will run later
      (or never). *)
Inductive chrome := ChromeMissing | ContextInvalidated | ThrowsEarly | GetThrows | GetAccepted.

(** What the callback of [chrome.storage.sync.get] finds:
    [chrome.runtime.lastError] set or not, and [result.googleApiKey]
    (empty when there is none). *)
Record get_result := GetResult {
  lastError : bool;
  googleApiKey : jsstring
}.

(** The variables of the module and of one [loadApiKey()] call, with what
    the call has handed to the event loop and not yet got back:
    - [attempts]: calls of [tryLoadApiKey] so far; the n-th call is
      attempt n;
    - [timeouts]: attempts whose 5 s timer is set and has not fired;
    - [callbacks]: attempts whose storage callback has not run;
    - [retries]: pending [setTimeout(tryLoadApiKey, 1000)]. *)
Record state := State {
  GEMINI_API_KEY : jsstring;
  GEMINI_API_URL : jsstring;
  retryCount : nat;
  settled : promise;
  attempts : nat;
  timeouts : list nat;
  callbacks : list nat;
  retries : nat
}.

Definition maxRetries : nat := 3.

Definition endpoint : jsstring :=
  lit "https://generativelanguage.googleapis.com/v1beta/models/gemini-1.5-flash-latest:generateContent?key=".

Definition set_key (st : state) (k : jsstring) : state :=
  {| GEMINI_API_KEY := k;
     GEMINI_API_URL := endpoint ++ k;
     retryCount := retryCount st;
     settled := settled st;
     attempts := attempts st;
     timeouts := timeouts st;
     callbacks := callbacks st;
     retries := retries st |}.

(** [updateApiKey(newKey)]: the [throw] on an empty key is caught inside
    the function, which then returns [false]. *)
Definition updateApiKey (newKey : jsstring) (st : state) : state * bool :=
  if is_empty newKey then (st, false) else (set_key st newKey, true).

(** [resolve(b)]: only the first call settles the promise. *)
Definition resolve (b : bool) (st : state) : state :=
  {| GEMINI_API_KEY := GEMINI_API_KEY st;
     GEMINI_API_URL := GEMINI_API_URL st;
     retryCount := retryCount st;
     settled := match settled st with Pending => Resolved b | p => p end;
     attempts := attempts st;
     timeouts := timeouts st;
     callbacks := callbacks st;
     retries := retries st |}.

(** [if (retryCount < maxRetries) { retryCount++; setTimeout(tryLoadApiKey,
    1000); return; } resolve(false);] *)
Definition retry_later (st : state) : state :=
  if (retryCount st <? maxRetries)%nat then
    {| GEMINI_API_KEY := GEMINI_API_KEY st;
       GEMINI_API_URL := GEMINI_API_URL st;
       retryCount := S (retryCount st);
       settled := settled st;
       attempts := attempts st;
       timeouts := timeouts st;
       callbacks := callbacks st;
       retries := S (retries st) |}
  else resolve false st.

(** One call of [tryLoadApiKey], up to the point where it returns to the
    event loop. *)
Definition tryLoadApiKey (c : chrome) (st : state) : state :=
  let id := S (attempts st) in
  let begun (armed waiting : bool) :=
    {| GEMINI_API_KEY := GEMINI_API_KEY st;
       GEMINI_API_URL := GEMINI_API_URL st;
       retryCount := retryCount st;
       settled := settled st;
       attempts := id;
       timeouts := if armed then id :: timeouts st else timeouts st;
       callbacks := if waiting then id :: callbacks st else callbacks st;
       retries := retries st |} in
  match c with
  | ChromeMissing | ContextInvalidated => resolve false (begun false false)
  | ThrowsEarly => retry_later (begun false false)
  | GetThrows => retry_later (begun true false)
  | GetAccepted => begun true true
  end.

Definition without (i : nat) (l : list nat) : list nat :=
  List.filter (fun j => negb (Nat.eqb i j)) l.

Definition member (i : nat) (l : list nat) : bool :=
  existsb (Nat.eqb i) l.

(** The callback passed to [chrome.storage.sync.get], for attempt [i]. *)
Definition on_callback (i : nat) (r : get_result) (st : state) : state :=
  let st :=
    {| GEMINI_API_KEY := GEMINI_API_KEY st;
       GEMINI_API_URL := GEMINI_API_URL st;
       retryCount := retryCount st;
       settled := settled st;
       attempts := attempts st;
       timeouts := without i (timeouts st);          (* clearTimeout(timeoutId) *)
       callbacks := without i (callbacks st);
       retries := retries st |} in
  if lastError r then retry_later st
  else if negb (is_empty (googleApiKey r)) then
    let (st, success) := updateApiKey (googleApiKey r) st in
    if success then
      let currentKey := GEMINI_API_KEY st in
      if negb (is_empty currentKey) && eqb_str currentKey (googleApiKey r)
      then resolve true st
      else retry_later st
    else retry_later st
  else resolve false st.

(** The 5 s timer of attempt [i] fires; [next] is how the browser answers
    the call of [tryLoadApiKey] it may make. *)
Definition on_timeout (i : nat) (next : chrome) (st : state) : state :=
  let st :=
    {| GEMINI_API_KEY := GEMINI_API_KEY st;
       GEMINI_API_URL := GEMINI_API_URL st;
       retryCount := retryCount st;
       settled := settled st;
       attempts := attempts st;
       timeouts := without i (timeouts st);
       callbacks := callbacks st;
       retries := retries st |} in
  if (retryCount st <? maxRetries)%nat then
    tryLoadApiKey next
      {| GEMINI_API_KEY := GEMINI_API_KEY st;
         GEMINI_API_URL := GEMINI_API_URL st;
         retryCount := S (retryCount st);
         settled := settled st;
         attempts := attempts st;
         timeouts := timeouts st;
         callbacks := callbacks st;
         retries := retries st |}
  else resolve false st.

(** A pending [setTimeout(tryLoadApiKey, 1000)] fires. *)
Definition on_retry (next : chrome) (st : state) : state :=
  tryLoadApiKey next
    {| GEMINI_API_KEY := GEMINI_API_KEY st;
       GEMINI_API_URL := GEMINI_API_URL st;
       retryCount := retryCount st;
       settled := settled st;
       attempts := attempts st;
       timeouts := timeouts st;
       callbacks := callbacks st;
       retries := pred (retries st) |}.

(** What the event loop can deliver. *)
Inductive event :=
| Timeout (i : nat) (next : chrome)
| Callback (i : nat) (r : get_result)
| Retry (next : chrome).

(** One turn of the event loop; [None] when the event is not pending. *)
Definition step (st : state) (ev : event) : option state :=
  match ev with
  | Timeout i next =>
      if member i (timeouts st) then Some (on_timeout i next st) else None
  | Callback i r =>
      if member i (callbacks st) then Some (on_callback i r st) else None
  | Retry next =>
      match retries st with
      | O => None
      | S _ => Some (on_retry next st)
      end
  end.

Fixpoint run (st : state) (evs : list event) : option state :=
  match evs with
  | [] => Some st
  | ev :: rest =>
      match step st ev with
      | Some st' => run st' rest
      | None => None
      end
  end.

(** [loadApiKey()]: the executor of the promise makes the first call of
    [tryLoadApiKey]. [key] and [url] are the module's variables then. *)
Definition loadApiKey (key url : jsstring) (first : chrome) : state :=
  tryLoadApiKey first
    {| GEMINI_API_KEY := key;
       GEMINI_API_URL := url;
       retryCount := 0;
       settled := Pending;
       attempts := 0;
       timeouts := [];
       callbacks := [];
       retries := 0 |}.

(** No timer of the call is pending. *)
Definition timers_idle (st : state) : bool :=
  match timeouts st with [] => true | _ => false end && Nat.eqb (retries st) 0.

(** A storage callback that found a key, set it and read it back. *)
Definition loads_key (ev : event) : bool :=
  match ev with
  | Callback _ r => negb (lastError r) && negb (is_empty (googleApiKey r))
  | _ => false
  end.

End Config.

(* ================================================================== *)
(** * The content script's message listener and the popup              *)
(* ================================================================== *)

Module Content.
Import JS.

(** The two storage areas: [chrome.storage.sync], shared by the
    extension's pages, and the page's [localStorage]. *)
Record browser := Browser {
  sync_storage : gmap (list N) (list N);
  localStorage : gmap (list N) (list N);
  api_key : jsstring
}.

Inductive message :=
| API_KEY_UPDATED (apiKey : jsstring) (activeModel : option jsstring)
| GRAMMAR_SETTINGS_UPDATED (detailedGrammarCheckEnabled : bool)
| Unknown.

(** [if (request.activeModel)] *)
Definition given (activeModel : option jsstring) : option jsstring :=
  match activeModel with
  | Some m => if is_empty m then None else Some m
  | None => None
  end.

(** The listener added to [chrome.runtime.onMessage]: its effect on the
    stores. [reinitializeWithNewKey] calls [updateApiKey] and re-runs the
    checks; it writes to neither store. *)
Definition on_message (request : message) (b : browser) : browser :=
  match request with
  | API_KEY_UPDATED apiKey activeModel =>
      let local :=
        match given activeModel with
        | Some m => <[lit "activeModel" := m]> (localStorage b)
        | None => localStorage b
        end in
      {| sync_storage := sync_storage b;
         localStorage := local;
         api_key := if is_empty apiKey then api_key b else apiKey |}
  | GRAMMAR_SETTINGS_UPDATED enabled =>
      {| sync_storage := sync_storage b;
         localStorage :=
           <[lit "detailedGrammarCheckEnabled" := lit (if enabled then "true" else "false")]>
             (localStorage b);
         api_key := api_key b |}
  | Unknown => b
  end.

(** [localStorage.getItem('activeModel') || 'gemini'] *)
Definition getActiveModel (b : browser) : jsstring :=
  match localStorage b !! lit "activeModel" with
  | Some m => if is_empty m then lit "gemini" else m
  | None => lit "gemini"
  end.

(** The popup's save button, for a non-empty trimmed key: it writes both
    settings to [chrome.storage.sync]; the message to the tabs follows. *)
Definition popup_save (apiKey activeModel : jsstring) (b : browser) : browser :=
  {| sync_storage :=
       <[lit "activeModel" := activeModel]>
         (<[lit "googleApiKey" := apiKey]> (sync_storage b));
     localStorage := localStorage b;
     api_key := api_key b |}.

End Content.

(* ================================================================== *)
(** * Vocabulary of the statements, and sample environments            *)
(* ================================================================== *)

Module ContentProps.
Import JS Content.

Definition fresh_browser : browser :=
  {| sync_storage := ∅; localStorage := ∅; api_key := [] |}.

End ContentProps.

Module ApiProps.
Import JS Eff Api.

(** An environment in which no key is set. *)
Definition offline : env :=
  {| config_getApiKey := Some (fun _ => []);
     global_api_key := Some (fun _ => []);
     config_getApiUrl := Some [];
     fetch_result := fun _ => Throw NetworkError;
     JSON_parse := fun _ => Throw SyntaxError;
     ToNumber_other := fun _ => NaN |}.

(** The requests of a call: none without a key, one otherwise. *)
Definition sent (e : env) (prompt : jsstring) (timeout : Z) : list request :=
  match result (getApiKeyWithRetry_default e) with
  | Ok k => if is_empty k then [] else [post_request e k prompt timeout]
  | Throw _ => []
  end.

(** The shape [{contents: [{parts: [{text: prompt}]}]}]. *)
Definition is_payload_of (prompt : jsstring) (r : request) : Prop :=
  method r = "POST"%string
  /\ body r =
     Obj [(lit "contents",
           Arr [Obj [(lit "parts",
                      Arr [Obj [(lit "text", Str prompt)]])]])].

(** An environment with a key, whose server answers 500. *)
Definition server_error : env :=
  {| config_getApiKey := Some (fun _ => lit "k");
     global_api_key := None;
     config_getApiUrl := None;
     fetch_result := fun _ =>
       Ok {| ok := false; status := 500%N;
             text_body := Ok (lit "boom"); json_body := Throw SyntaxError |};
     JSON_parse := fun _ => Throw SyntaxError;
     ToNumber_other := fun _ => NaN |}.

(** How a call ends, given how its [try] block ends: [handled d] when the
    [catch] block logs and returns [d], [rethrown] when it logs and throws
    the error again. *)
Definition handled {A} (body call : M A) (label : string) (d : A) : Prop :=
  match result body with
  | Ok a => call = (trace body, Ok a)
  | Throw _ => call = (trace body ++ [Console Err label], Ok d)
  end.

Definition rethrown {A} (body call : M A) (label : string) : Prop :=
  match result body with
  | Ok a => call = (trace body, Ok a)
  | Throw err => call = (trace body ++ [Console Err label], Throw err)
  end.

(** The lines of a reply that start with digits, a period and a white
    space character. *)
Definition numbered_lines (reply : jsstring) : list jsstring :=
  List.filter (fun line => bool_decide (is_Some (numbered line))) (split_lines reply).

(** The hosted model answers the prompt with the text [reply]: there is a
    key, the request succeeds with an [ok] response, and the response body
    is JSON whose first candidate holds [reply]. *)
Definition replies (e : env) (prompt : jsstring) (timeout : Z) (reply : jsstring) : Prop :=
  exists (k : jsstring) (r : response) (data : value),
    result (getApiKeyWithRetry_default e) = Ok k
    /\ k <> []
    /\ fetch_result e (post_request e k prompt timeout) = Ok r
    /\ ok r = true
    /\ json_body r = Ok data
    /\ result (first_candidate_text data "No candidates returned from API")
       = Ok (Str reply).

Definition is_bracket (c : N) : bool := ((c =? 91) || (c =? 93))%N.

Definition bracket_free (s : jsstring) : Prop :=
  Forall (fun c => is_bracket c = false) s.

Definition candidates_of (reply : jsstring) : value :=
  Obj [(lit "candidates",
        Arr [Obj [(lit "content",
                   Obj [(lit "parts", Arr [Obj [(lit "text", Str reply)]])])]])].

Definition answering (reply : jsstring) (parse : jsstring -> outcome value) : env :=
  {| config_getApiKey := Some (fun _ => lit "k");
     global_api_key := None;
     config_getApiUrl := None;
     fetch_result := fun _ =>
       Ok {| ok := true; status := 200%N;
             text_body := Ok []; json_body := Ok (candidates_of reply) |};
     JSON_parse := parse;
     ToNumber_other := fun _ => NaN |}.

Definition numbered_reply : jsstring :=
  lit "Here you go:
1. **Corrected:** They were walking (fixed verb).
2. [She is happy]
Thanks".

(** The indices of a returned mistake delimit a non-empty range of the
    text. *)
Definition in_bounds (text : jsstring) (mistake : value) : Prop :=
  exists (fields : list (jsstring * value)) (s e : Z),
    mistake = Obj fields
    /\ lookup_field (lit "start_index") fields = Num (Int s)
    /\ lookup_field (lit "end_index") fields = Num (Int e)
    /\ 0 <= s /\ s < e /\ e <= len text.

(** A reply naming an empty [text]. *)
Definition empty_text_reply : jsstring :=
  concat
    [lit "{"; dq; lit "words_with_mistakes"; dq; lit ":[{";
     dq; lit "text"; dq; lit ":"; dq; dq; lit ",";
     dq; lit "suggestion"; dq; lit ":"; dq; lit "a"; dq; lit ",";
     dq; lit "mistake_type"; dq; lit ":"; dq; lit "style"; dq; lit ",";
     dq; lit "start_index"; dq; lit ":0,";
     dq; lit "end_index"; dq; lit ":1}]}"].

Definition empty_text_mistake (start_index end_index : Z) : value :=
  Obj [(lit "text", Str []);
       (lit "suggestion", Str (lit "a"));
       (lit "mistake_type", Str (lit "style"));
       (lit "start_index", Num (Int start_index));
       (lit "end_index", Num (Int end_index))].

(** [JSON.parse] on that reply, and a syntax error elsewhere. *)
Definition parse_empty_text_reply (s : jsstring) : outcome value :=
  if eqb_str s empty_text_reply
  then Ok (Obj [(lit "words_with_mistakes", Arr [empty_text_mistake 0 1])])
  else Throw SyntaxError.

(** A reply whose mistake names a text that does not occur and gives no
    indices. *)
Definition no_indices_reply : jsstring :=
  concat
    [lit "{"; dq; lit "words_with_mistakes"; dq; lit ":[{";
     dq; lit "text"; dq; lit ":"; dq; lit "zz"; dq; lit ",";
     dq; lit "suggestion"; dq; lit ":"; dq; lit "a"; dq; lit "}]}"].

Definition parse_no_indices_reply (s : jsstring) : outcome value :=
  if eqb_str s no_indices_reply
  then Ok (Obj [(lit "words_with_mistakes",
                 Arr [Obj [(lit "text", Str (lit "zz"));
                           (lit "suggestion", Str (lit "a"))]])])
  else Throw SyntaxError.

(** The failures of a request that the policy names, and a network error:
    - [NetworkFailure]: [fetch] rejects;
    - [HttpError]: the response is not [ok];
    - [Unparseable]: [response.json()] rejects;
    - [MissingCandidates]: the parsed body has no [candidates], or an
      empty list of them. *)
Inductive failure :=
| NetworkFailure (err : error)
| HttpError (r : response)
| Unparseable (r : response) (err : error)
| MissingCandidates (r : response) (data : value).

(** [!data.candidates || data.candidates.length === 0] *)
Definition no_candidates (data : value) : Prop :=
  exists candidates : value,
    get data (Name "candidates") = Ok candidates
    /\ (truthy candidates = false
        \/ get candidates (Name "length") = Ok (Num (Int 0))).

(** The request [req] fails in the way [f]. *)
Definition fails (e : env) (req : request) (f : failure) : Prop :=
  match f with
  | NetworkFailure err => fetch_result e req = Throw err
  | HttpError r => fetch_result e req = Ok r /\ ok r = false
  | Unparseable r err =>
      fetch_result e req = Ok r /\ ok r = true /\ json_body r = Throw err
  | MissingCandidates r data =>
      fetch_result e req = Ok r /\ ok r = true /\ json_body r = Ok data
      /\ no_candidates data
  end.

(** The error that [getGrammarSuggestions] and [checkGrammarWithDetails]
    raise on a failure; on an HTTP error they read the body of the
    response first, which may fail in turn. *)
Definition raised (f : failure) : error :=
  match f with
  | NetworkFailure err => err
  | HttpError r =>
      match text_body r with
      | Ok errorText => Error (http_error_message (status r) errorText)
      | Throw err => err
      end
  | Unparseable _ err => err
  | MissingCandidates _ _ => Error (lit "No candidates returned from API")
  end.

(** What these two log between the request and the failure. *)
Definition logged_before (f : failure) : list event :=
  match f with
  | NetworkFailure _ => []
  | HttpError _ | Unparseable _ _ =>
      [Console Info "Received API response with status:"%string]
  | MissingCandidates _ _ =>
      [Console Info "Received API response with status:"%string;
       Console Info "Parsed API response data:"%string]
  end.

(** The reply is one that [checkGrammarWithDetails] cannot parse: it
    holds no block in braces, or [JSON.parse] rejects the block. *)
Definition unparseable_reply (e : env) (reply : jsstring) : Prop :=
  json_block reply = None
  \/ exists (block : jsstring) (err : error),
       json_block reply = Some block /\ JSON_parse e block = Throw err.

End ApiProps.

Module GrammarCheckProps.
Import JS Eff Api GrammarCheck.

Definition well_shaped (v : value) : Prop :=
  exists (fields : list (jsstring * value)) (mistakes : list value),
    v = Obj fields
    /\ lookup_field (lit "words_with_mistakes") fields = Arr mistakes.

Definition returns_well_shaped (m : M value) : Prop :=
  forall v, result m = Ok v -> well_shaped v.

(** [checkGrammar] accepts the text: it is not empty, and its trimmed
    length is at least 10. *)
Definition long_enough (text : jsstring) : Prop :=
  is_empty text || (len (trim text) <? 10) = false.

(** A clock that advances by one second between readings. *)
Definition ticking (n : nat) : Z := 1000 * Z.of_nat n.

Definition sample_text : jsstring := lit "They was walking".

(** A clock that advances by one hour between readings. *)
Definition hourly (n : nat) : Z := 3600000 * Z.of_nat n.

(** A reply to [sample_text] with two mistakes: the first complete, the
    second without a [suggestion]. *)
Definition two_mistakes_reply : jsstring :=
  concat
    [lit "{"; dq; lit "words_with_mistakes"; dq; lit ":[{";
     dq; lit "text"; dq; lit ":"; dq; lit "was"; dq; lit ",";
     dq; lit "suggestion"; dq; lit ":"; dq; lit "were"; dq; lit ",";
     dq; lit "mistake_type"; dq; lit ":"; dq; lit "grammar"; dq; lit ",";
     dq; lit "start_index"; dq; lit ":5,";
     dq; lit "end_index"; dq; lit ":8},{";
     dq; lit "text"; dq; lit ":"; dq; lit "walking"; dq; lit ",";
     dq; lit "start_index"; dq; lit ":9,";
     dq; lit "end_index"; dq; lit ":16}]}"].

Definition was_mistake : value :=
  Obj [(lit "text", Str (lit "was"));
       (lit "suggestion", Str (lit "were"));
       (lit "mistake_type", Str (lit "grammar"));
       (lit "start_index", Num (Int 5));
       (lit "end_index", Num (Int 8))].

Definition walking_mistake : value :=
  Obj [(lit "text", Str (lit "walking"));
       (lit "start_index", Num (Int 9));
       (lit "end_index", Num (Int 16))].

(** [JSON.parse] on that reply, and a syntax error elsewhere. *)
Definition parse_two_mistakes (s : jsstring) : outcome value :=
  if eqb_str s two_mistakes_reply
  then Ok (Obj [(lit "words_with_mistakes", Arr [was_mistake; walking_mistake])])
  else Throw SyntaxError.

(** An environment with a key whose hosted model gives that reply. *)
Definition checker : env := ApiProps.answering two_mistakes_reply parse_two_mistakes.

(** The error [checkGrammar] makes of the first mistake. *)
Definition was_error : grammar_error :=
  {| error := lit "was";
     suggestion := lit "were";
     type := Str (lit "grammar");
     startPos := Int 5;
     endPos := Int 8 |}.

(** What a call that goes to [checker] logs. *)
Definition checker_trace : list event :=
  [Console Info "Checking grammar for text:"%string;
   Console Info "Checking grammar with detailed response for text:"%string;
   Console Info "Sending API request to:"%string;
   Fetch (post_request checker (lit "k") (details_prompt sample_text) 30000);
   Console Info "Received API response with status:"%string;
   Console Info "Parsed API response data:"%string;
   Console Warn "Invalid mistake object:"%string].

End GrammarCheckProps.

Module ConfigProps.
Import JS Config.
Local Open Scope nat_scope.

(** What stays true of a call between two turns of the event loop: the
    calls of [tryLoadApiKey] made or scheduled are one more than the
    retries counted, the retries are at most [maxRetries], the promise is
    not rejected, and while it is pending a timer of the call is. *)
Record invariant (st : state) : Prop := Invariant {
  inv_calls : attempts st + retries st = retryCount st + 1;
  inv_retries : retryCount st <= maxRetries;
  inv_not_rejected : settled st <> Rejected;
  inv_live : settled st = Pending -> timers_idle st = false
}.

(** Bounds the number of events still to come. *)
Definition measure (st : state) : nat :=
  length (timeouts st) + length (callbacks st) + 3 * retries st
  + 4 * (maxRetries - retryCount st).

(** How a turn may change the promise: it stays as it was once settled,
    and from pending it goes to [true] exactly on a callback that loads
    the key, which is then the module's key. *)
Definition settles (st : state) (ev : event) (st' : state) : Prop :=
  (settled st <> Pending -> settled st' = settled st)
  /\ (settled st = Pending ->
      (settled st' = Resolved true <-> loads_key ev = true)
      /\ (loads_key ev = true ->
          exists i r, ev = Callback i r /\ GEMINI_API_KEY st' = googleApiKey r)).

(** In the run [evs] from [st0], a storage callback found a key while the
    promise was pending; [updateApiKey] set it and the check that reads it
    back succeeded. *)
Definition loaded_while_pending (st0 : state) (evs : list event) : Prop :=
  exists (pre : list event) (i : nat) (r : get_result) (post : list event)
         (st1 st2 : state),
    evs = pre ++ Callback i r :: post
    /\ run st0 pre = Some st1
    /\ settled st1 = Pending
    /\ lastError r = false
    /\ googleApiKey r <> []
    /\ step st1 (Callback i r) = Some st2
    /\ GEMINI_API_KEY st2 = googleApiKey r.

Definition is_timer (ev : event) : bool :=
  match ev with
  | Timeout _ _ | Retry _ => true
  | Callback _ _ => false
  end.

(** The first read times out, the second fails with a runtime error, the
    third finds a key. *)
Definition slow_then_found : list event :=
  [Timeout 1 GetAccepted;
   Callback 2 {| lastError := true; googleApiKey := [] |};
   Retry GetAccepted;
   Callback 3 {| lastError := false; googleApiKey := lit "AIza" |}].

End ConfigProps.

(* ================================================================== *)
(** * Further vocabulary: the API layer beyond the claims              *)
(* ================================================================== *)

Module ApiMoreProps.
Import JS Eff Api ApiProps.

(** What the poll number [n] of [getApiKeyWithRetry] reads: the key of the
    config object when it is not empty, else the global key. *)
Definition poll (e : env) (n : nat) : jsstring :=
  let from_config :=
    match config_getApiKey e with
    | Some getApiKey => getApiKey n
    | None => []
    end in
  if negb (is_empty from_config) then from_config
  else match global_api_key e with
       | Some k => k n
       | None => []
       end.

(** A mistake as the prompt asks for it: an object with integer indices
    and a non-empty [text]. *)
Definition well_formed_mistake (mistake : value) : Prop :=
  exists (fields : list (jsstring * value)) (a b : Z) (m : jsstring),
    mistake = Obj fields
    /\ lookup_field (lit "start_index") fields = Num (Int a)
    /\ lookup_field (lit "end_index") fields = Num (Int b)
    /\ lookup_field (lit "text") fields = Str m
    /\ m <> [].

(** A reply with one well-formed mistake whose indices are off: the word
    is at 5..8, the reply says 50..80. *)
Definition was_reply : jsstring :=
  concat
    [lit "{"; dq; lit "words_with_mistakes"; dq; lit ":[{";
     dq; lit "text"; dq; lit ":"; dq; lit "was"; dq; lit ",";
     dq; lit "suggestion"; dq; lit ":"; dq; lit "were"; dq; lit ",";
     dq; lit "start_index"; dq; lit ":50,";
     dq; lit "end_index"; dq; lit ":80}]}"].

Definition was_mistake (start_index end_index : Z) : value :=
  Obj [(lit "text", Str (lit "was"));
       (lit "suggestion", Str (lit "were"));
       (lit "start_index", Num (Int start_index));
       (lit "end_index", Num (Int end_index))].

Definition parse_was_reply (s : jsstring) : outcome value :=
  if eqb_str s was_reply
  then Ok (Obj [(lit "words_with_mistakes", Arr [was_mistake 50 80])])
  else Throw SyntaxError.

(** An environment whose key arrives with the third poll. *)
Definition late_key : env :=
  {| config_getApiKey := Some (fun n => if (n <? 2)%nat then [] else lit "k");
     global_api_key := None;
     config_getApiUrl := None;
     fetch_result := fun _ => Throw NetworkError;
     JSON_parse := fun _ => Throw SyntaxError;
     ToNumber_other := fun _ => NaN |}.

End ApiMoreProps.

(* ================================================================== *)
(** * modules/grammarCheck.js: checkGrammarDetailed                    *)
(* ================================================================== *)

Module Detailed.
Import JS Eff Api.
Local Open Scope eff_scope.

(** [checkGrammarDetailed(text)]. The key test reads
    [window.GrammarSniperConfig.getApiKey()] in the same turn of the event
    loop in which [getApiKeyWithRetry] makes its first poll, so it reads
    what poll 0 reads. *)
Definition checkGrammarDetailed (e : env) (text : jsstring) : M value :=
  if is_empty text || (len (trim text) <? 10) then
    console_log "Text is too short for detailed grammar check" ;;;
    ret no_mistakes
  else
    try_catch
      (console_log "Checking grammar with detailed format for text:" ;;;
       let hasApiKey :=
         match config_getApiKey e with
         | Some getApiKey => negb (is_empty (getApiKey 0%nat))
         | None => false
         end in
       if negb hasApiKey then
         console_log "No API key available, skipping detailed grammar check" ;;;
         ret no_mistakes
       else
         result <- checkGrammarWithDetails e text ;;
         words <- (if truthy result
                   then lift (get result (Name "words_with_mistakes"))
                   else ret Undefined) ;;
         match words with
         | Arr _ => ret result
         | _ =>
             console_error "Invalid result structure from detailed grammar check:" ;;;
             ret no_mistakes
         end)
      (fun _ =>
         console_error "Error checking grammar with detailed format:" ;;;
         ret no_mistakes).

End Detailed.

Module GrammarCheckMoreProps.
Import JS Eff Api GrammarCheck.

(** The waits on [setTimeout] in a trace. *)
Definition waits (t : list event) : list Z :=
  omap (fun e => match e with Wait ms => Some ms | _ => None end) t.

(** What the validation in [checkGrammar] lets through: neither
    [startPos < 0] nor [endPos <= startPos] holds. *)
Definition valid_error (err : grammar_error) : Prop :=
  num_lt (startPos err) (Int 0) = false
  /\ num_le (endPos err) (startPos err) = false.

(** An environment whose config object has no key while the global
    [GEMINI_API_KEY] is set. *)
Definition global_key_only : env :=
  {| config_getApiKey := Some (fun _ => []);
     global_api_key := Some (fun _ => lit "k");
     config_getApiUrl := None;
     fetch_result := fun _ => Throw NetworkError;
     JSON_parse := fun _ => Throw SyntaxError;
     ToNumber_other := fun _ => NaN |}.

End GrammarCheckMoreProps.

(* ================================================================== *)
(** * The content script: disabled domains                             *)
(* ================================================================== *)

Module Domains.
Import JS.

Definition disabledDomains : list jsstring :=
  List.map lit
    ["docs.google.com"; "sheets.google.com"; "drive.google.com";
     "mail.google.com"; "translate.google.com"; "github.com"; "gitlab.com";
     "bitbucket.org"; "atlassian.net"; "discord.com"; "slack.com";
     "outlook.live.com"; "outlook.office.com"; "outlook.office365.com"]%string.

(** [s.endsWith(suffix)] *)
Definition endsWith (s suffix : jsstring) : bool :=
  match strip_prefix (rev suffix) (rev s) with
  | Some _ => true
  | None => false
  end.

(** [isDisabledDomain()], for [window.location.hostname = currentHost]. *)
Definition isDisabledDomain (currentHost : jsstring) : bool :=
  existsb
    (fun domain =>
       eqb_str currentHost domain || endsWith currentHost (lit "." ++ domain))
    disabledDomains.

End Domains.

(* ================================================================== *)
(** * The debounce utility over time                                   *)
(* ================================================================== *)

Module Timeline.
Import Utils.

Section Args.
(** The arguments a debounced handler is called with. *)
Variable A : Type.

(** What the timer of the closure does by the time [now]: the call of
    [fn] it was set for, when it is due. *)
Definition fired (d : debounced) (args : option A) (now : Z) : list (Z * A) :=
  match timer d, args with
  | Some due, Some a => if due <=? now then [(due, a)] else []
  | _, _ => []
  end.

(** The calls of [fn], each with its time and arguments, that a sequence
    of calls of the debounced function leads to. A call is a time and the
    arguments passed; [setTimeout] is taken to run its callback at the
    time it was set for. [d] and [args] are the closure's timer and the
    arguments its callback holds. After the last call the timer runs
    out. *)
Fixpoint invocations (d : debounced) (args : option A) (calls : list (Z * A))
  : list (Z * A) :=
  match calls with
  | [] =>
      match timer d, args with
      | Some due, Some a => [(due, a)]
      | _, _ => []
      end
  | (now, a) :: rest =>
      fired d args now ++ invocations (call d now) (Some a) rest
  end.

(** Each call comes before the timer of the call before it is due. *)
Fixpoint burst (delay : Z) (calls : list (Z * A)) : Prop :=
  match calls with
  | (t, _) :: ((t', _) :: _) as rest => t <= t' < t + delay /\ burst delay rest
  | _ => True
  end.

End Args.

End Timeline.

(* ================================================================== *)
(** * config.js and api.js on one page                                 *)
(* ================================================================== *)

Module Page.
Import JS Eff Api Config.

(** What changes the variables of config.js once [loadApiKey()] has been
    called: a turn of the event loop for that call, or a call of
    [updateApiKey] from outside ([reinitializeWithNewKey] makes one for
    each [API_KEY_UPDATED] message). *)
Inductive action :=
| Turn (ev : Config.event)
| Update (newKey : jsstring).

Definition act (st : state) (a : action) : option state :=
  match a with
  | Turn ev => step st ev
  | Update newKey => Some (fst (updateApiKey newKey st))
  end.

Fixpoint acts (st : state) (l : list action) : option state :=
  match l with
  | [] => Some st
  | a :: rest =>
      match act st a with
      | Some st' => acts st' rest
      | None => None
      end
  end.

(** The key an action brings with it. *)
Definition offered (a : action) : option jsstring :=
  match a with
  | Turn (Callback _ r) => Some (googleApiKey r)
  | Update newKey => Some newKey
  | Turn _ => None
  end.

(** The content script starts with [loadApiKey()], the two variables
    being empty strings as config.js declares them. *)
Definition started (first : chrome) : state := loadApiKey [] [] first.

(** What api.js finds on a page where config.js holds [st]: the config
    object with its two accessors, and the global [GEMINI_API_KEY], which
    is the variable [getApiKey] reads. The variables do not change during
    the call. *)
Definition page (st : state) (net : request -> outcome response)
    (parse : jsstring -> outcome value) (tonum : value -> num) : env :=
  {| config_getApiKey := Some (fun _ => GEMINI_API_KEY st);
     global_api_key := Some (fun _ => GEMINI_API_KEY st);
     config_getApiUrl := Some (GEMINI_API_URL st);
     fetch_result := net;
     JSON_parse := parse;
     ToNumber_other := tonum |}.

(** The URL goes with the key. *)
Definition consistent (st : state) : Prop :=
  (GEMINI_API_KEY st = [] /\ GEMINI_API_URL st = [])
  \/ (GEMINI_API_KEY st <> []
      /\ GEMINI_API_URL st = endpoint ++ GEMINI_API_KEY st).

(** The storage answers the first read with a key. *)
Definition key_arrives : list action :=
  [Turn (Callback 1 {| lastError := false; googleApiKey := lit "AIza" |})].

End Page.

(* ================================================================== *)
(** * modules/dom.js: finding the text to replace                      *)
(* ================================================================== *)

Module Fuzzy.
Import JS.

(** [s.split(/\s+/)]: the pieces between the runs of white space, with an
    empty piece before a leading run and after a trailing one. [in_gap]
    tells that the code unit before was white space. *)
Fixpoint split_spaces_from (in_gap : bool) (s : jsstring) : list jsstring :=
  match s with
  | [] => [[]]
  | c :: r =>
      if is_space c then
        if in_gap then split_spaces_from true r
        else [] :: split_spaces_from true r
      else
        match split_spaces_from false r with
        | w :: ws => (c :: w) :: ws
        | [] => [[c]]
        end
  end.

Definition split_spaces (s : jsstring) : list jsstring :=
  split_spaces_from false s.

(** [words.join(' ')] *)
Definition join_space (words : list jsstring) : jsstring :=
  match words with
  | [] => []
  | w :: ws => w ++ concat (List.map (fun x => 32%N :: x) ws)
  end.

(** [s.indexOf(needle, from)] *)
Definition indexOf_at (s needle : jsstring) (from : Z) : Z :=
  let k := Z.min (Z.max from 0) (len s) in
  indexOf_from needle (drop (Z.to_nat k) s) k.

(** [{ found: true, startPos, endPos }]; [{ found: false }] is [None]. *)
Record range := Range { startPos : Z; endPos : Z }.

(** The loop [for (let i = words.length - 1; i >= 2; i--)]. *)
Fixpoint fuzzy_loop (text : jsstring) (words : list jsstring) (i : nat)
  : option range :=
  match i with
  | S (S _ as i') =>
      let partialPhrase := join_space (take i words) in
      let partialIndex := indexOf text partialPhrase in
      if 0 <=? partialIndex then
        let endPos := partialIndex + len partialPhrase in
        let endPos :=
          match words !! i with
          | Some nextWord =>
              if is_empty nextWord then endPos
              else
                let nextWordIndex := indexOf_at text nextWord endPos in
                if (0 <=? nextWordIndex) && (nextWordIndex - endPos <? 20)
                then nextWordIndex + len nextWord
                else endPos
          | None => endPos
          end in
        Some {| startPos := partialIndex; endPos := endPos |}
      else fuzzy_loop text words i'
  | _ => None
  end.

Definition findFuzzyMatch (text searchText : jsstring) : option range :=
  if is_empty text || is_empty searchText then None
  else
    let words := split_spaces searchText in
    if (1 <? length words)%nat then
      match fuzzy_loop text words (length words - 1) with
      | Some r => Some r
      | None =>
          let firstWord := nth 0 words [] in
          let firstWordIndex := indexOf text firstWord in
          if 0 <=? firstWordIndex then
            (* [text.substring(firstWordIndex + firstWord.length)] *)
            let remainingText :=
              substring text (Int (firstWordIndex + len firstWord)) (Int (len text)) in
            let contextLength := Z.min (len remainingText) 50 in
            Some {| startPos := firstWordIndex;
                    endPos := firstWordIndex + len firstWord + contextLength |}
          else None
      end
    else None.

End Fuzzy.

(* ================================================================== *)
(** * modules/dom.js: reading and replacing an element's text          *)
(* ================================================================== *)

Module Dom.
Import JS TextNodes.

(** [element.CodeMirror] and [element._modelData?.model], by what the
    scripts ask of them: the result of [getValue()] when it is a function,
    and whether the function that edits is one. The functions the scripts
    call without testing for them ([posFromIndex], [getPositionAt]) are
    taken to exist, and the editors' functions to return. *)
Record code_mirror := CodeMirrorInstance {
  cm_getValue : option jsstring;
  cm_replaceRange : bool
}.

Record monaco_model := MonacoModel {
  mm_getValue : option jsstring;
  mm_pushEditOperations : bool
}.

(** An element, by the properties the scripts read:
    - [contenteditable]: [getAttribute('contenteditable')], [None] for
      [null];
    - [closest_monaco]: [element.closest('.monaco-editor')] is an element;
    - [value]: [None] when the element has no such property
      ([undefined]); the elements the scripts handle have a string there;
    - [text_nodes]: the text nodes below the element, in document order;
      [textContent] is their concatenation;
    - [selectable]: assigning [selectionStart] does not throw. *)
Record element := Element {
  isConnected : bool;
  nodeName : jsstring;
  type : jsstring;
  isContentEditable : bool;
  contenteditable : option jsstring;
  classList : list jsstring;
  closest_monaco : bool;
  value : option jsstring;
  text_nodes : TextNodes.element;
  innerText : jsstring;
  selectable : bool;
  CodeMirror : option code_mirror;
  model : option monaco_model
}.

(** The globals of the page that the scripts look for:
    - [Quill]: when [window.Quill] is set, what [Quill.find(element)]
      gives, an instance being given by its [getText()];
    - [monaco]: [window.monaco] is set;
    - [CKEDITOR]: when [window.CKEDITOR] is set, [getData()] of the
      instance whose container is the element, if there is one;
    - [tinymce]: the same for [window.tinymce] and [getContent()]. *)
Record window := Window {
  Quill : option (option jsstring);
  monaco : bool;
  CKEDITOR : option (option jsstring);
  tinymce : option (option jsstring)
}.

Definition textContent (el : element) : jsstring := concat (text_nodes el).

(** [classList.contains(c)] *)
Definition has_class (c : string) (el : element) : bool :=
  existsb (eqb_str (lit c)) (classList el).

(** [toLowerCase] on the letters of a node name, which are ASCII. *)
Definition lower (c : N) : N :=
  if ((65 <=? c) && (c <=? 90))%N then (c + 32)%N else c.

Definition toLowerCase (s : jsstring) : jsstring := List.map lower s.

(** What a call does to the element and to the editors, in order.
    [RangeReplace] is a [Range] set from one text node and offset to
    another, its contents deleted and a text node inserted at its start;
    the text nodes are given by their place among [text_nodes]. *)
Inductive effect :=
| SetValue (s : jsstring)
| SetTextContent (s : jsstring)
| SetSelection (selectionStart selectionEnd : num)
| Focus
| Dispatch (event_type : string)
| QuillDeleteText (index length : num)
| QuillInsertText (index : num) (text : jsstring)
| CodeMirrorReplaceRange (text : jsstring) (from to : num)
| MonacoPushEdit (text : jsstring) (from to : num)
| RangeReplace (startNode : nat) (startOffset : Z) (endNode : nat) (endOffset : Z)
    (text : jsstring).

(** ** getInputContent *)

(** [{ text, startPos, endPos }]. An empty [text] stands for a missing one
    as well: the scripts only test it for truth. *)
Record sentence := Sentence {
  text : jsstring;
  startPos : num;
  endPos : num
}.

Definition no_content : sentence :=
  {| text := []; startPos := Int 0; endPos := Int 0 |}.

(** [if (!text && found) text = found] *)
Definition unless_text (text : jsstring) (found : option jsstring) : jsstring :=
  if is_empty text then
    match found with Some t => t | None => text end
  else text.

Definition getInputContent (w : window) (element : option element) : sentence :=
  match element with
  | None => no_content
  | Some el =>
      if negb (isConnected el) then no_content
      else
        let text :=
          match value el with
          | Some v => v
          | None => textContent el
          end in
        let text :=
          unless_text text
            (if has_class "CodeMirror" el
             then match CodeMirror el with
                  | Some cm => cm_getValue cm
                  | None => None
                  end
             else None) in
        let text :=
          unless_text text
            (if has_class "monaco-editor" el
             then match model el with
                  | Some m => mm_getValue m
                  | None => None
                  end
             else None) in
        let text :=
          unless_text text
            (match CKEDITOR w with Some found => found | None => None end) in
        let text :=
          unless_text text
            (match tinymce w with Some found => found | None => None end) in
        if is_empty text || is_empty (trim text) then no_content
        else {| text := trim text;
                startPos := Int 0;
                endPos := Int (len text) |}
  end.

(** ** replaceSentence *)

Definition num_sub (a b : num) : num :=
  match a, b with Int x, Int y => Int (x - y) | _, _ => NaN end.

(** [a || b] on strings, [a] possibly [undefined]. *)
Definition or_string (a : option jsstring) (b : jsstring) : jsstring :=
  match a with
  | Some s => if is_empty s then b else s
  | None => b
  end.

Definition isContentEditable_or_attribute (el : element) : bool :=
  isContentEditable el
  || match contenteditable el with
     | Some a => eqb_str a (lit "true") || is_empty a
     | None => false
     end.

Definition isTextInput (el : element) : bool :=
  eqb_str (toLowerCase (nodeName el)) (lit "input")
  && existsb (eqb_str (type el))
       [lit "text"; lit "search"; lit "email"; lit "url"].

Definition isTextArea (el : element) : bool :=
  eqb_str (toLowerCase (nodeName el)) (lit "textarea").

Definition isQuillEditor (el : element) : bool := has_class "ql-editor" el.

Definition isCodeMirror (el : element) : bool :=
  has_class "CodeMirror" el || has_class "cm-content" el.

Definition isMonacoEditor (el : element) : bool :=
  has_class "monaco-editor" el || closest_monaco el.

Definition has_Quill (w : window) : bool :=
  match Quill w with Some _ => true | None => false end.

Definition Quill_find (w : window) : option jsstring :=
  match Quill w with Some instance => instance | None => None end.

(** [element.value || element.textContent || element.innerText || ''] *)
Definition any_text (el : element) : jsstring :=
  or_string (value el) (or_string (Some (textContent el)) (innerText el)).

(** The text of the element by the kind of editor, with [isCustomEditor]. *)
Definition current_text (w : window) (el : element) : jsstring * bool :=
  if isTextInput el || isTextArea el then (or_string (value el) [], false)
  else if isContentEditable_or_attribute el then
    (or_string (Some (textContent el)) (innerText el), false)
  else if isQuillEditor el && has_Quill w then
    (match Quill_find w with
     | Some getText => or_string (Some getText) (textContent el)
     | None => textContent el
     end, true)
  else if isCodeMirror el then
    (match CodeMirror el with
     | Some {| cm_getValue := Some v |} => v
     | _ => textContent el
     end, true)
  else if isMonacoEditor el && monaco w then
    (match model el with
     | Some {| mm_getValue := Some v |} => v
     | _ => textContent el
     end, true)
  else (any_text el, false).

(** The positions to replace, once [endPos] is cut to the text: those
    given when [posInfo.text] is missing or is the text between them,
    else the first occurrence of [posInfo.text], else that of the
    suggestion, else the fuzzy match; [None] where the function returns
    [false]. *)
Definition locate (currentFullText suggestion : jsstring) (posInfo : sentence)
  : option (num * num) :=
  let textToReplace :=
    substring currentFullText (startPos posInfo) (endPos posInfo) in
  if negb (is_empty (text posInfo))
     && negb (eqb_str textToReplace (text posInfo)) then
    let exactIndex := indexOf currentFullText (text posInfo) in
    if 0 <=? exactIndex then
      Some (Int exactIndex, Int (exactIndex + len (text posInfo)))
    else if negb (is_empty suggestion) then
      let suggestionIndex := indexOf currentFullText suggestion in
      if 0 <=? suggestionIndex then
        Some (Int suggestionIndex, Int (suggestionIndex + len suggestion))
      else
        match Fuzzy.findFuzzyMatch currentFullText (text posInfo) with
        | Some fuzzyMatch =>
            Some (Int (Fuzzy.startPos fuzzyMatch), Int (Fuzzy.endPos fuzzyMatch))
        | None => None
        end
    else None
  else Some (startPos posInfo, endPos posInfo).

(** [beforeText + trimmedSuggestion + afterText] *)
Definition spliced (currentFullText : jsstring) (startPos endPos : num)
    (trimmedSuggestion : jsstring) : jsstring :=
  substring currentFullText (Int 0) startPos
  ++ trimmedSuggestion
  ++ substring currentFullText endPos (Int (len currentFullText)).

(** [findTextNodeAtPosition(element, position)] for a number: every
    comparison with [NaN] is false, so no node is found then. *)
Definition find_at (el : element) (position : num) : option found :=
  match position with
  | Int p => findTextNodeAtPosition (Some (text_nodes el)) p
  | NaN => if 0 <? counted_length (text_nodes el)
           then Some (Found None 0) else None
  end.

(** [textNode.nodeType]: [textNode] is the object that
    [findTextNodeAtPosition] returns, which has the properties [node] and
    [offset] only. *)
Definition nodeType (textNode : found) : JS.value := Undefined.

Definition TEXT_NODE : Z := 3.

(** [textNode && textNode.nodeType === Node.TEXT_NODE] *)
Definition is_text_node (textNode : option found) : bool :=
  match textNode with
  | Some f => strict_eq_int (nodeType f) TEXT_NODE
  | None => false
  end.

(** The specialised editors; [None] when the function goes on to the
    generic replacement. *)
Definition replace_in_editor (w : window) (el : element)
    (currentFullText : jsstring) (startPos endPos : num)
    (trimmedSuggestion : jsstring) : option (list effect * bool) :=
  let done :=
    if isQuillEditor el && has_Quill w then
      match Quill_find w with
      | Some _ =>
          Some [QuillDeleteText startPos (num_sub endPos startPos);
                QuillInsertText startPos trimmedSuggestion]
      | None => None
      end
    else if isCodeMirror el then
      match CodeMirror el with
      | Some cm =>
          if cm_replaceRange cm
          then Some [CodeMirrorReplaceRange trimmedSuggestion startPos endPos]
          else None
      | None => None
      end
    else if isMonacoEditor el && monaco w then
      match model el with
      | Some m =>
          if mm_pushEditOperations m
          then Some [MonacoPushEdit trimmedSuggestion startPos endPos]
          else None
      | None => None
      end
    else None in
  match done with
  | Some effects => Some (effects, true)
  | None =>
      if isContentEditable_or_attribute el then
        Some ([SetTextContent
                 (spliced currentFullText startPos endPos trimmedSuggestion)],
              true)
      else None
  end.

(** The generic replacement, up to the events. [None] when an exception
    reaches the outer [catch]. *)
Definition replace_generic (el : element) (currentFullText : jsstring)
    (startPos endPos : num) (trimmedSuggestion : jsstring)
  : option (list effect) :=
  let replaced := spliced currentFullText startPos endPos trimmedSuggestion in
  if isContentEditable el then
    let textNode := find_at el startPos in
    if is_text_node textNode then
      (* [getTextNodePosition] does not meet the object among the nodes and
         returns the counted length; reading [textNode.nodeValue.length]
         then throws, [nodeValue] being [undefined] *)
      let textNodeStartPos := Int (counted_length (text_nodes el)) in
      let relativeStart := num_sub startPos textNodeStartPos in
      if num_le (Int 0) relativeStart then None
      else Some [SetTextContent replaced]
    else Some [SetTextContent replaced]
  else if isTextInput el || isTextArea el then
    let caret := num_add startPos (Int (len trimmedSuggestion)) in
    Some (SetValue replaced
          :: (if selectable el then [SetSelection caret caret; Focus] else []))
  else
    match value el with
    | Some _ => Some [SetValue replaced]
    | None => Some [SetTextContent replaced]
    end.

Definition replaceSentence (w : window) (element : option element)
    (suggestion : jsstring) (sentenceInfo : option sentence)
  : list effect * bool :=
  match element, sentenceInfo with
  | None, _ => ([], false)
  | Some el, info =>
      if negb (isConnected el) then ([], false)
      else
        match info with
        | None => ([], false)
        | Some sentenceInfo =>
            if num_lt (startPos sentenceInfo) (Int 0)
               || num_lt (endPos sentenceInfo) (startPos sentenceInfo)
            then ([], false)
            else
              let (currentFullText, isCustomEditor) := current_text w el in
              if is_empty currentFullText then ([], false)
              else
                let posInfo :=
                  {| text := text sentenceInfo;
                     startPos := startPos sentenceInfo;
                     endPos :=
                       if num_lt (Int (len currentFullText)) (endPos sentenceInfo)
                       then Int (len currentFullText)
                       else endPos sentenceInfo |} in
                match locate currentFullText suggestion posInfo with
                | None => ([], false)
                | Some (startPos, endPos) =>
                    if num_lt startPos (Int 0)
                       || num_lt (Int (len currentFullText)) endPos
                       || num_le endPos startPos
                    then ([], false)
                    else
                      let trimmedSuggestion := trim suggestion in
                      match
                        (if isCustomEditor
                         then replace_in_editor w el currentFullText
                                startPos endPos trimmedSuggestion
                         else None)
                      with
                      | Some returned => returned
                      | None =>
                          match replace_generic el currentFullText
                                  startPos endPos trimmedSuggestion with
                          | Some effects =>
                              (effects ++ [Dispatch "input"; Dispatch "change"],
                               true)
                          | None => ([], false)
                          end
                      end
                end
        end
  end.

End Dom.

(* ================================================================== *)
(** * Vocabulary: reading and replacing an element's text              *)
(* ================================================================== *)

Module DomProps.
Import JS Dom.

(** The text [replaceSentence] works on, and whether it takes the element
    for one of the specialised editors. *)
Definition currentFullText (w : window) (el : element) : jsstring :=
  fst (current_text w el).

Definition isCustomEditor (w : window) (el : element) : bool :=
  snd (current_text w el).

(** The effects of a replacement that writes [new] into the element: the
    assignment to [value] or to [textContent], the caret for a form
    field that takes one, and the two events. *)
Definition writes (new : jsstring) (effects : list effect) : Prop :=
  exists (write : effect) (caret : list effect),
    effects = write :: caret ++ [Dispatch "input"; Dispatch "change"]
    /\ (write = SetValue new \/ write = SetTextContent new)
    /\ (caret = []
        \/ exists position : num, caret = [SetSelection position position; Focus]).

(** A text area as the page gives it. *)
Definition textarea (v : jsstring) : element :=
  {| isConnected := true;
     nodeName := lit "TEXTAREA";
     type := lit "textarea";
     isContentEditable := false;
     contenteditable := None;
     classList := [];
     closest_monaco := false;
     value := Some v;
     text_nodes := [];
     innerText := [];
     selectable := true;
     CodeMirror := None;
     model := None |}.

(** A page without editor libraries. *)
Definition plain_page : window :=
  {| Quill := None; monaco := false; CKEDITOR := None; tinymce := None |}.

(** A contenteditable button: unlike a [div], it has a [value], the
    empty string. *)
Definition editable_button (label : jsstring) : element :=
  {| isConnected := true;
     nodeName := lit "BUTTON";
     type := lit "submit";
     isContentEditable := true;
     contenteditable := Some (lit "true");
     classList := [];
     closest_monaco := false;
     value := Some [];
     text_nodes := [label];
     innerText := label;
     selectable := false;
     CodeMirror := None;
     model := None |}.

End DomProps.

(* ================================================================== *)
(** * modules/grammarCheck.js: highlights and applying a suggestion    *)
(* ================================================================== *)

Module Highlighting.
Import JS TextNodes.

(** A highlight, by its [dataset]. The two positions are what [parseInt]
    reads from the strings the numbers were stored as: the number itself
    for an integer, [NaN] for [NaN]. They are [dataset.startPos] and
    [dataset.endPos] on the highlights of [applyGrammarHighlighting],
    [dataset.startIndex] and [dataset.endIndex] on the detailed ones. *)
Record highlight := Highlight {
  dataset_error : jsstring;
  dataset_suggestion : jsstring;
  dataset_start : num;
  dataset_end : num
}.

(** What lies over the element: it has no parent; or its parent holds no
    container for it; or the container with its highlights. *)
Inductive overlay :=
| NoParent
| NoContainer
| Container (highlights : list highlight).

Definition isNaN (n : num) : bool :=
  match n with NaN => true | Int _ => false end.

(** The test under which a highlight is removed. *)
Definition overlaps (h : highlight) (startPos endPos : num) : bool :=
  let highlightStart := dataset_start h in
  let highlightEnd := dataset_end h in
  negb (isNaN highlightStart) && negb (isNaN highlightEnd)
  && ((num_le highlightStart endPos && num_le startPos highlightEnd)
      || (num_le startPos highlightEnd && num_le highlightStart endPos)).

Definition clearGrammarHighlightsForRange (o : overlay) (startPos endPos : num)
  : overlay :=
  match o with
  | Container highlights =>
      Container (List.filter (fun h => negb (overlaps h startPos endPos)) highlights)
  | _ => o
  end.

Definition clearDetailedGrammarHighlightsForRange (o : overlay)
    (startIndex endIndex : num) : overlay :=
  match o with
  | Container highlights =>
      Container (List.filter (fun h => negb (overlaps h startIndex endIndex)) highlights)
  | _ => o
  end.

(** ** applyGrammarHighlighting *)

(** The body of [errors.forEach]: the highlight it appends, if any.
    [positioned] tells whether positioning the highlight returns; where it
    throws the error is skipped. *)
Definition highlight_of (positioned : GrammarCheck.grammar_error -> bool)
    (text : jsstring) (error : GrammarCheck.grammar_error) : option highlight :=
  let startPos := GrammarCheck.startPos error in
  let endPos := GrammarCheck.endPos error in
  if num_lt startPos (Int 0) || num_lt (Int (len text)) endPos
     || num_le endPos startPos then None
  else
    let errorText := substring text startPos endPos in
    if is_empty errorText then None
    else if positioned error then
      Some {| dataset_error := errorText;
              dataset_suggestion := GrammarCheck.suggestion error;
              dataset_start := startPos;
              dataset_end := endPos |}
    else None.

Definition applyGrammarHighlighting
    (positioned : GrammarCheck.grammar_error -> bool)
    (element : option Dom.element) (o : overlay)
    (errors : list GrammarCheck.grammar_error) : overlay :=
  match element, errors with
  | None, _ | _, [] => o
  | Some el, _ =>
      if negb (Dom.isConnected el) then o
      else
        match o with
        | NoParent => o
        | NoContainer | Container _ =>
            (* the container is created, or emptied *)
            let text := Dom.or_string (Dom.value el) (Dom.textContent el) in
            if is_empty text then Container []
            else Container (omap (highlight_of positioned text) errors)
        end
  end.

(** ** showGrammarSuggestionPopup: what the Apply button passes on *)

(** [parseInt(s) || 0] *)
Definition or_zero (n : num) : num :=
  match n with
  | NaN => Int 0
  | Int z => Int z
  end.

Definition popup_startPos (h : highlight) : num := or_zero (dataset_start h).
Definition popup_endPos (h : highlight) : num := or_zero (dataset_end h).

(** ** applySuggestion and applyDetailedSuggestion *)

(** What a call leaves: its effects on the element, the overlay, the delay
    of the timer that checks the element again, and what it returns. *)
Record applied := Applied {
  effects : list Dom.effect;
  overlay_after : overlay;
  timer : option Z;
  returned : bool
}.

Definition nothing (o : overlay) : applied :=
  {| effects := []; overlay_after := o; timer := None; returned := false |}.

(** The caret, where assigning it does not throw. *)
Definition caret (el : Dom.element) (position : num) : list Dom.effect :=
  if Dom.selectable el
  then [Dom.SetSelection position position; Dom.Focus]
  else [].

(** [suggestion] is a string and the positions are numbers, so the tests
    of their types succeed. *)
Definition applySuggestion (element : option Dom.element) (o : overlay)
    (suggestion : jsstring) (startPos endPos : num) : applied :=
  match element with
  | None => nothing o
  | Some el =>
      if negb (Dom.isConnected el) then nothing o
      else
        let fullText :=
          if Dom.isContentEditable el
          then Dom.or_string (Some (Dom.textContent el)) (Dom.innerText el)
          else Dom.or_string (Dom.value el) [] in
        if is_empty fullText then nothing o
        else if num_lt startPos (Int 0) || num_lt (Int (len fullText)) endPos
                || num_le endPos startPos then nothing o
        else if Dom.isContentEditable el then
          let textNode := Dom.find_at el startPos in
          if Dom.is_text_node textNode then
            (* [textNode.nodeValue] is [undefined]: reading its [length]
               throws, and the [catch] returns [false] *)
            nothing o
          else
            let text := Dom.textContent el in
            let safeStart := num_max (Int 0) (num_min startPos (Int (len text))) in
            let safeEnd := num_max safeStart (num_min endPos (Int (len text))) in
            {| effects :=
                 [Dom.SetTextContent
                    (substring text (Int 0) safeStart ++ suggestion
                     ++ substring text safeEnd (Int (len text)))];
               overlay_after := clearGrammarHighlightsForRange o startPos endPos;
               timer := Some 100;
               returned := true |}
        else
          {| effects :=
               Dom.SetValue
                 (substring fullText (Int 0) startPos ++ suggestion
                  ++ substring fullText endPos (Int (len fullText)))
               :: caret el (num_add startPos (Int (len suggestion)))
               ++ [Dom.Dispatch "input"];
             overlay_after := clearGrammarHighlightsForRange o startPos endPos;
             timer := Some 100;
             returned := true |}
  end.

Definition applyDetailedSuggestion (element : option Dom.element) (o : overlay)
    (suggestion : jsstring) (startIndex endIndex : num) : applied :=
  match element with
  | None => nothing o
  | Some el =>
      if negb (Dom.isConnected el) then nothing o
      else if is_empty suggestion then nothing o
      else if num_lt startIndex (Int 0) || num_le endIndex startIndex
      then nothing o
      else if eqb_str (Dom.nodeName el) (lit "INPUT")
              || eqb_str (Dom.nodeName el) (lit "TEXTAREA") then
        let text := Dom.or_string (Dom.value el) [] in
        let endIndex :=
          if num_lt (Int (len text)) endIndex
          then num_min endIndex (Int (len text))
          else endIndex in
        {| effects :=
             Dom.SetValue
               (substring text (Int 0) startIndex ++ suggestion
                ++ substring text endIndex (Int (len text)))
             :: caret el (num_add startIndex (Int (len suggestion)))
             ++ [Dom.Dispatch "input"];
           overlay_after :=
             clearDetailedGrammarHighlightsForRange o startIndex endIndex;
           timer := Some 100;
           returned := true |}
      else if Dom.isContentEditable el then
        match Dom.find_at el startIndex, Dom.find_at el endIndex with
        | Some startNodeInfo, Some endNodeInfo =>
            match node startNodeInfo, node endNodeInfo with
            | Some startNode, Some endNode =>
                {| effects :=
                     [Dom.RangeReplace startNode (offset startNodeInfo)
                        endNode (offset endNodeInfo) suggestion];
                   overlay_after :=
                     clearDetailedGrammarHighlightsForRange o startIndex endIndex;
                   timer := Some 100;
                   returned := true |}
            | _, _ =>
                (* [range.setStart] or [range.setEnd] is given [null] and
                   throws; nothing has been changed yet *)
                nothing o
            end
        | _, _ => nothing o
        end
      else
        let text := Dom.textContent el in
        {| effects :=
             [Dom.SetTextContent
                (substring text (Int 0) startIndex ++ suggestion
                 ++ substring text endIndex (Int (len text)))];
           overlay_after :=
             clearDetailedGrammarHighlightsForRange o startIndex endIndex;
           timer := Some 100;
           returned := true |}
  end.

End Highlighting.

(* ================================================================== *)
(** * Vocabulary: highlights                                           *)
(* ================================================================== *)

Module HighlightingProps.
Import JS Highlighting.

(** The error's positions are integers. *)
Definition whole (error : GrammarCheck.grammar_error) : Prop :=
  (exists s : Z, GrammarCheck.startPos error = Int s)
  /\ (exists e : Z, GrammarCheck.endPos error = Int e).

(** The text that highlighting and applying both work on: the value of
    an element whose [isContentEditable] is false, the text content of one
    whose [isContentEditable] is true and that has no [value]. *)
Definition shows (el : Dom.element) (text : jsstring) : Prop :=
  (Dom.isContentEditable el = false /\ Dom.value el = Some text)
  \/ (Dom.isContentEditable el = true /\ Dom.value el = None
      /\ Dom.textContent el = text).

(** The assignment of [new] to the element's text comes first. *)
Definition sets_text (new : jsstring) (effects : list Dom.effect) : Prop :=
  exists rest : list Dom.effect,
    effects = Dom.SetValue new :: rest \/ effects = Dom.SetTextContent new :: rest.

(** A contenteditable element with the given text nodes. *)
Definition editable (nodes : TextNodes.element) : Dom.element :=
  {| Dom.isConnected := true;
     Dom.nodeName := lit "DIV";
     Dom.type := [];
     Dom.isContentEditable := true;
     Dom.contenteditable := Some (lit "true");
     Dom.classList := [];
     Dom.closest_monaco := false;
     Dom.value := None;
     Dom.text_nodes := nodes;
     Dom.innerText := concat nodes;
     Dom.selectable := false;
     Dom.CodeMirror := None;
     Dom.model := None |}.

(** Where a boundary point, a text node and an offset in it, lies in the
    concatenated text of the nodes. *)
Definition boundary (nodes : TextNodes.element) (i : nat) (off : Z) : Z :=
  len (concat (take i nodes)) + off.

(** [element.nodeName === 'INPUT' || element.nodeName === 'TEXTAREA'] *)
Definition is_form_field (el : Dom.element) : bool :=
  eqb_str (Dom.nodeName el) (lit "INPUT")
  || eqb_str (Dom.nodeName el) (lit "TEXTAREA").

(** A text area that is itself editable content. *)
Definition editable_textarea (v : jsstring) : Dom.element :=
  {| Dom.isConnected := true;
     Dom.nodeName := lit "TEXTAREA";
     Dom.type := lit "textarea";
     Dom.isContentEditable := true;
     Dom.contenteditable := Some (lit "true");
     Dom.classList := [];
     Dom.closest_monaco := false;
     Dom.value := Some v;
     Dom.text_nodes := [];
     Dom.innerText := [];
     Dom.selectable := true;
     Dom.CodeMirror := None;
     Dom.model := None |}.

Definition they_was : GrammarCheck.grammar_error :=
  {| GrammarCheck.error := lit "was";
     GrammarCheck.suggestion := lit "were";
     GrammarCheck.type := Str (lit "grammar");
     GrammarCheck.startPos := Int 5;
     GrammarCheck.endPos := Int 8 |}.

Definition was_highlight : highlight :=
  {| dataset_error := lit "was";
     dataset_suggestion := lit "were";
     dataset_start := Int 5;
     dataset_end := Int 8 |}.

End HighlightingProps.

(* ================================================================== *)
(** * popup.js                                                         *)
(* ================================================================== *)

Module Popup.
Import JS.

(** The keys of [modelToggles], in the order of its entries. *)
Inductive model := gemini | claude | openai | groq.

#[global] Instance model_eq_dec : EqDecision model.
Proof. solve_decision. Defined.

Definition models : list model := [gemini; claude; openai; groq].

Definition name (m : model) : jsstring :=
  match m with
  | gemini => lit "gemini"
  | claude => lit "claude"
  | openai => lit "openai"
  | groq => lit "groq"
  end.

(** The own property of [modelToggles] with that name, if there is one. *)
Definition model_of (s : jsstring) : option model :=
  List.find (fun m => eqb_str (name m) s) models.

(** A tab, as [chrome.tabs.query] gives it. *)
Record tab := Tab {
  tab_id : nat;
  tab_url : option jsstring
}.

(** The popup's page and what it shares with the rest of the extension:
    - [present m]: the page has the toggle of [m]
      ([document.getElementById] found it);
    - [checked m]: that toggle's [checked];
    - [sync]: [chrome.storage.sync];
    - [outbox]: the messages handed to [chrome.tabs.sendMessage], with the
      tab they go to.
    The callbacks of the storage are taken to run before the next event
    of the page, the storage to accept what is written, and
    [sendMessage] to return. *)
Record popup := PopupState {
  apiKeyInput : jsstring;
  present : model -> bool;
  checked : model -> bool;
  sync : gmap (list N) (list N);
  outbox : list (nat * Content.message)
}.

Definition with_checked (c : model -> bool) (p : popup) : popup :=
  {| apiKeyInput := apiKeyInput p;
     present := present p;
     checked := c;
     sync := sync p;
     outbox := outbox p |}.

Definition with_sync (s : gmap (list N) (list N)) (p : popup) : popup :=
  {| apiKeyInput := apiKeyInput p;
     present := present p;
     checked := checked p;
     sync := s;
     outbox := outbox p |}.

(** [toggle.checked = b] on the toggle of [m]. *)
Definition set_checked (m : model) (b : bool) (c : model -> bool) : model -> bool :=
  fun m' => if bool_decide (m' = m) then b else c m'.

(** [saveActiveModel(model)] *)
Definition saveActiveModel (m : model) (p : popup) : popup :=
  if bool_decide (sync p !! lit "activeModel" = Some (name m)) then p
  else with_sync (<[lit "activeModel" := name m]> (sync p)) p.

(** The listener of [change] on the toggle of [model]. The browser has
    flipped the toggle before the event. *)
Definition on_change (model : model) (p : popup) : popup :=
  if negb (present p model) then p
  else
    let flipped := set_checked model (negb (checked p model)) (checked p) in
    let after :=
      if flipped model then
        (* uncheck all other toggles *)
        fun otherModel =>
          if bool_decide (otherModel = model) then true
          else if present p otherModel then false
          else flipped otherModel
      else
        let anyOtherChecked :=
          existsb (fun t => present p t && negb (bool_decide (t = model)) && flipped t)
            models in
        if anyOtherChecked then flipped else set_checked model true flipped in
    saveActiveModel model (with_checked after p).

(** The callback of [chrome.storage.sync.get(['googleApiKey',
    'activeModel'], ...)] when the popup opens. [inherited s] tells that
    [modelToggles[s]] is a property inherited from [Object.prototype]:
    the toggles are then all unchecked and [checked] is set on that
    object. *)
Definition on_load (inherited : jsstring -> bool) (p : popup) : popup :=
  let input :=
    match sync p !! lit "googleApiKey" with
    | Some k => if is_empty k then apiKeyInput p else k
    | None => apiKeyInput p
    end in
  let unchecked : model -> bool :=
    fun m => if present p m then false else checked p m in
  let toggles :=
    match sync p !! lit "activeModel" with
    | Some activeModel =>
        if is_empty activeModel then checked p
        else
          match model_of activeModel with
          | Some m =>
              if present p m then set_checked m true unchecked else checked p
          | None => if inherited activeModel then unchecked else checked p
          end
    | None => checked p
    end in
  {| apiKeyInput := input;
     present := present p;
     checked := toggles;
     sync := sync p;
     outbox := outbox p |}.

(** The active model the save button reads: the last checked toggle in
    the order of the entries, [gemini] when there is none. *)
Definition activeModel (p : popup) : model :=
  fold_left (fun active m => if present p m && checked p m then m else active)
    models gemini.

(** [tab.url && tab.url.startsWith("chrome://")] *)
Definition is_chrome_url (t : tab) : bool :=
  match tab_url t with
  | Some u => match strip_prefix (lit "chrome://") u with
              | Some _ => negb (is_empty u)
              | None => false
              end
  | None => false
  end.

(** [notifyContentScripts]: [tabs] is what [chrome.tabs.query] gives,
    [None] when it sets [chrome.runtime.lastError]. *)
Definition notifyContentScripts (tabs : option (list tab))
    (apiKey activeModel : jsstring) : list (nat * Content.message) :=
  match tabs with
  | None => []
  | Some tabs =>
      List.map
        (fun t => (tab_id t, Content.API_KEY_UPDATED apiKey (Some activeModel)))
        (List.filter (fun t => negb (is_chrome_url t)) tabs)
  end.

(** The listener of [click] on the save button. *)
Definition on_save (tabs : option (list tab)) (p : popup) : popup :=
  let apiKey := trim (apiKeyInput p) in
  if is_empty apiKey then p
  else
    let activeModel := name (activeModel p) in
    {| apiKeyInput := apiKeyInput p;
       present := present p;
       checked := checked p;
       sync := <[lit "activeModel" := activeModel]>
                 (<[lit "googleApiKey" := apiKey]> (sync p));
       outbox := outbox p ++ notifyContentScripts tabs apiKey activeModel |}.

End Popup.

(* ================================================================== *)
(** * Vocabulary: the popup                                            *)
(* ================================================================== *)

Module PopupProps.
Import JS Popup.

(** The toggle of [m] is on the page and checked. *)
Definition on (p : popup) (m : model) : bool := present p m && checked p m.

(** No two toggles are checked. *)
Definition at_most_one (p : popup) : Prop :=
  forall m m' : model, on p m = true -> on p m' = true -> m = m'.

(** [m] is the one toggle that is checked. *)
Definition only (p : popup) (m : model) : Prop :=
  forall m' : model, on p m' = true <-> m' = m.

(** The popup as it opens: the page's own state of the toggles and an
    empty input, over the storage as it is. *)
Definition opened (present checked : model -> bool)
    (storage : gmap (list N) (list N)) : popup :=
  {| apiKeyInput := [];
     present := present;
     checked := checked;
     sync := storage;
     outbox := [] |}.

(** A popup with the four toggles, [claude] checked, and a key typed. *)
Definition typed : popup :=
  {| apiKeyInput := lit " AIza ";
     present := fun _ => true;
     checked := fun m => bool_decide (m = claude);
     sync := ∅;
     outbox := [] |}.

End PopupProps.

(* ================================================================== *)
(** * content.js and modules/ui.js: the logo and its popup             *)
(* ================================================================== *)

Module Logo.
Import JS Eff Api.
Local Open Scope eff_scope.

(** What the popup ends up showing: the note that asks for at least 10
    characters; the tone with the list of suggestions; or the tone with
    the note that no suggestions could be generated. *)
Inductive view :=
| NotEnoughText
| Offered (tone : sentiment_result) (suggestions : list jsstring)
| Unavailable (tone : sentiment_result).

(** [{ sentiment: 'Analyzing...', emoji: ... }], the emoji as the script's
    source spells it. *)
Definition analyzing : sentiment_result :=
  {| sentiment := lit "Analyzing...";
     emoji := [63743%N; 252%N; 238%N; 209%N] |}.

(** [showSuggestionsPopup(element, logo, suggestions, sentenceInfo)]:
    [suggestions] is [None] for [null]. Building and placing the popup is
    taken to return. *)
Definition showSuggestionsPopup (e : env) (suggestions : option (list jsstring))
    (sentenceInfo : Dom.sentence) : M view :=
  let text := Dom.text sentenceInfo in
  if match suggestions with Some _ => true | None => false end
     && (is_empty (trim text) || (len (trim text) <? 10))
  then ret NotEnoughText
  else
    sentimentInfo <-
      (if 10 <=? len (trim text) then analyzeSentiment e text else ret analyzing) ;;
    match suggestions with
    | Some (s :: rest) => ret (Offered sentimentInfo (s :: rest))
    | _ => ret (Unavailable sentimentInfo)
    end.

(** The listener of [click] on the logo. [e1] and [e2] surround the call
    for suggestions and the call for the tone; [element] is the element
    at the click and [later] the same element when the [catch] block
    reads it again. The result is what the popup shows, [None] when none
    is opened. *)
Definition on_click (e1 e2 : env) (w : Dom.window)
    (element later : Dom.element) : M (option view) :=
  if negb (Dom.isConnected element) then
    console_log "Element disconnected, cannot show suggestions" ;;; ret None
  else
    console_log "Logo clicked for element:" ;;;
    try_catch
      (let contentInfo := Dom.getInputContent w (Some element) in
       console_log "Current content info:" ;;;
       if negb (is_empty (trim (Dom.text contentInfo)))
          && (10 <=? len (trim (Dom.text contentInfo))) then
         suggestions <- getGrammarSuggestions e1 (Dom.text contentInfo) ;;
         shown <- showSuggestionsPopup e2 (Some suggestions) contentInfo ;;
         ret (Some shown)
       else
         shown <- showSuggestionsPopup e2 None contentInfo ;;
         ret (Some shown))
      (fun error =>
         console_error "Error getting/showing suggestions:" ;;;
         let contentInfo := Dom.getInputContent w (Some later) in
         shown <- showSuggestionsPopup e2 (Some []) contentInfo ;;
         ret (Some shown)).

(** The listener of [click] on a suggestion of the popup. *)
Definition on_choose (w : Dom.window) (element : Dom.element)
    (suggestion : jsstring) (sentenceInfo : Dom.sentence)
  : list Dom.effect * bool :=
  Dom.replaceSentence w (Some element) suggestion (Some sentenceInfo).

End Logo.

(* ================================================================== *)
(** * modules/grammarCheck.js: checking an element again               *)
(* ================================================================== *)

Module Checking.
Import JS Eff Api Highlighting.

(** [element.value || element.textContent || ''] *)
Definition element_text (el : Dom.element) : jsstring :=
  Dom.or_string (Dom.value el) (Dom.textContent el).

(** [if (container) container.innerHTML = ''] *)
Definition clear (o : overlay) : overlay :=
  match o with
  | Container _ => Container []
  | _ => o
  end.

Section Clock.
Variable clock : nat -> Z.

(** The function that [initGrammarCheck] debounces. [element] is the
    element when the function starts, [later] the same element once
    [checkGrammar] has answered; [positioned] as for [highlight_of]. The
    key that the test before the check reads is poll 0 of [e]. Neither
    [checkGrammar] nor [applyGrammarHighlighting] throws, so the [catch]
    block, which would empty the container, is never entered. *)
Definition debouncedCheck (positioned : GrammarCheck.grammar_error -> bool)
    (e : env) (w : GrammarCheck.world) (element later : Dom.element)
    (o : overlay) : list event * overlay * GrammarCheck.world :=
  let text := element_text element in
  if 10 <=? len (trim text) then
    let hasApiKey :=
      match config_getApiKey e with
      | Some getApiKey => negb (is_empty (getApiKey 0%nat))
      | None => false
      end in
    if negb hasApiKey then
      ([Console Info "API key not available yet, will check grammar when key is set"%string],
       o, w)
    else
      let '(t, errors, w') := GrammarCheck.checkGrammar clock e w text in
      (t,
       if Dom.isConnected later
       then applyGrammarHighlighting positioned (Some later) o errors
       else o,
       w')
  else ([], o, w).

(** [checkAndReapplyGrammarHighlighting(element)], which runs 100 ms
    after a suggestion was applied. *)
Definition checkAndReapplyGrammarHighlighting
    (positioned : GrammarCheck.grammar_error -> bool)
    (e : env) (w : GrammarCheck.world) (element : option Dom.element)
    (later : Dom.element) (o : overlay)
  : list event * overlay * GrammarCheck.world :=
  match element with
  | None => ([], o, w)
  | Some el =>
      if negb (Dom.isConnected el) then ([], o, w)
      else
        let text := element_text el in
        if len (trim text) <? 10 then ([], o, w)
        else
          let '(t, errors, w') := GrammarCheck.checkGrammar clock e w text in
          (t,
           match errors with
           | [] => clear o
           | _ => applyGrammarHighlighting positioned (Some later) o errors
           end,
           w')
  end.

End Clock.

End Checking.

(* ================================================================== *)
(** * Vocabulary: plain sentences in a numbered reply                  *)
(* ================================================================== *)

Module CleanProps.
Import JS Api.

(** A code unit that the cleaning of a line has no rule for: no asterisk,
    colon, opening parenthesis, square bracket or period, and no white
    space but the space. *)
Definition ordinary (c : N) : bool :=
  negb ((c =? 42) || (c =? 58) || (c =? 40) || (c =? 91) || (c =? 93)
        || (c =? 46))%N
  && (negb (is_space c) || (c =? 32)%N).

(** No two white space characters in a row. *)
Fixpoint single_spaced (s : jsstring) : bool :=
  match s with
  | a :: r =>
      match r with
      | b :: _ => negb (is_space a && is_space b) && single_spaced r
      | [] => true
      end
  | [] => true
  end.

(** A sentence as the prompt asks for it: ordinary code units, single
    spaces between the words, no quote or space in front, and ['.'],
    ['!'] or ['?'] at the end. *)
Definition plain_sentence (s : jsstring) : Prop :=
  exists (c : N) (body : jsstring) (t : N),
    s = c :: body ++ [t]
    /\ is_space c = false
    /\ is_quote c = false
    /\ ordinary c = true
    /\ forallb ordinary body = true
    /\ is_terminal t = true
    /\ single_spaced s = true.

(** The lines joined by line feeds. *)
Fixpoint join_lines (lines : list jsstring) : jsstring :=
  match lines with
  | [] => []
  | l :: rest =>
      match rest with
      | [] => l
      | _ :: _ => l ++ 10%N :: join_lines rest
      end
  end.

(** A numbered item: the digits of its number, a period, a space and the
    sentence. *)
Definition item (numbered_sentence : jsstring * jsstring) : jsstring :=
  fst numbered_sentence ++ lit ". " ++ snd numbered_sentence.

(** The digits of the item are decimal digits, at least one, and its
    sentence is plain. *)
Definition plain_item (numbered_sentence : jsstring * jsstring) : Prop :=
  fst numbered_sentence <> []
  /\ Forall (fun c => is_digit c = true) (fst numbered_sentence)
  /\ plain_sentence (snd numbered_sentence).

(** A reply that is a numbered list and nothing else. *)
Definition listing (items : list (jsstring * jsstring)) : jsstring :=
  join_lines (List.map item items).

Definition two_sentences : list (jsstring * jsstring) :=
  [(lit "1", lit "They were walking home."); (lit "2", lit "Weren't they walking home?")].

End CleanProps.

(* ================================================================== *)
(** * modules/grammarCheck.js: the check behind the debounce           *)
(* ================================================================== *)

Module Typing.
Import JS Eff Api Highlighting Checking.

(** What a run of the debounced check finds when it starts: the page's
    globals, the element then and once [checkGrammar] has answered, and
    whether a highlight can be positioned. *)
Record seen := Seen {
  env : Api.env;
  element : Dom.element;
  later : Dom.element;
  positioned : GrammarCheck.grammar_error -> bool
}.

Section Clock.
Variable clock : nat -> Z.

(** The runs of the check, one after the other. *)
Fixpoint checks (runs : list (Z * seen)) (w : GrammarCheck.world) (o : overlay)
  : list event * overlay * GrammarCheck.world :=
  match runs with
  | [] => ([], o, w)
  | (_, s) :: rest =>
      let '(t, o', w') :=
        debouncedCheck clock (positioned s) (env s) w (element s) (later s) o in
      let '(t', o'', w'') := checks rest w' o' in
      (t ++ t', o'', w'')
  end.

(** [initGrammarCheck] adds one debounced function as the listener of
    [input], [change] and [blur]. Each event comes with what the run it
    may lead to would find. *)
Definition on_events (events : list (Z * seen)) (w : GrammarCheck.world)
    (o : overlay) : list event * overlay * GrammarCheck.world :=
  checks (Timeline.invocations seen Utils.debouncedCheck None events) w o.

End Clock.

End Typing.

(* ================================================================== *)
(** * Vocabulary: decorated sentences and replies                    *)
(* ================================================================== *)

Module ParsingProps.
Import JS Eff Api ApiProps CleanProps.

(** A number prefix: decimal digits, at least one, a period and a white
    space character. *)
Definition number_prefix (p : jsstring) : Prop :=
  exists (ds : jsstring) (w : N),
    ds <> []
    /\ Forall (fun c => is_digit c = true) ds
    /\ is_space w = true
    /\ p = ds ++ [46%N; w].

(** White space only. *)
Definition blank (ws : jsstring) : Prop := forallb is_space ws = true.

(** The text of a label before its colon: not empty, without colon or
    asterisk. *)
Definition label_text (l : jsstring) : Prop :=
  l <> [] /\ Forall (fun c => c <> 58%N /\ c <> 42%N) l.

(** The text of an explanation in parentheses: not empty, without closing
    parenthesis, colon or asterisk. *)
Definition note_text (n : jsstring) : Prop :=
  n <> [] /\ Forall (fun c => c <> 41%N /\ c <> 58%N /\ c <> 42%N) n.

(** An explanation that follows a sentence: a letter, then ordinary code
    units. *)
Definition explanation_text (x : jsstring) : Prop :=
  exists (c : N) (r : jsstring),
    x = c :: r /\ is_letter c = true /\ forallb ordinary r = true.

(** The code units of [m] lie on one line. *)
Definition one_line (m : jsstring) : Prop :=
  forallb (fun c => negb (is_line_terminator c)) m = true.

(** The options that the prompt of [analyzeSentiment] lists. *)
Definition sentiment_options : list jsstring :=
  [lit "Confident"; lit "Friendly"; lit "Formal"; lit "Casual";
   lit "Optimistic"; lit "Neutral"; lit "Tentative"; lit "Concerned";
   lit "Joyful"; lit "Forceful"].

(** A reply in the format that prompt asks for. *)
Definition sentiment_reply (s m : jsstring) : jsstring :=
  lit "Sentiment: " ++ s ++ [10%N] ++ lit "Emoji: " ++ m.

(** The hosted model answers the prompt of [analyzeSentiment] with the
    text [reply]. *)
Definition replies_sentiment (e : env) (text reply : jsstring) : Prop :=
  exists (k : jsstring) (r : response) (data : value),
    result (getApiKeyWithRetry_default e) = Ok k
    /\ k <> []
    /\ fetch_result e (post_request e k (sentiment_prompt text) 15000) = Ok r
    /\ ok r = true
    /\ json_body r = Ok data
    /\ result (first_candidate_text data "No sentiment analysis returned")
       = Ok (Str reply).

(** A reply with an item that holds asterisks around brackets, and a
    quoted item followed by a space. *)
Definition decorated_reply : jsstring :=
  concat [lit "3. a*[]*b"; [10%N]; lit "4. "; dq; lit "Hello there"; dq; lit " "].

(** A reply whose JSON is followed by a remark in braces. *)
Definition first_block : jsstring :=
  concat
    [lit "{"; dq; lit "words_with_mistakes"; dq; lit ":[{";
     dq; lit "text"; dq; lit ":"; dq; lit "was"; dq; lit ",";
     dq; lit "suggestion"; dq; lit ":"; dq; lit "were"; dq; lit ",";
     dq; lit "mistake_type"; dq; lit ":"; dq; lit "grammar"; dq; lit ",";
     dq; lit "start_index"; dq; lit ":5,";
     dq; lit "end_index"; dq; lit ":8}]}"].

Definition braces_reply : jsstring := first_block ++ lit " (see {grammar})".

(** [JSON.parse]: the first block is JSON, the text up to the last
    closing brace of [braces_reply] is not. *)
Definition parse_first_block (s : jsstring) : outcome value :=
  if eqb_str s first_block
  then Ok (Obj [(lit "words_with_mistakes", Arr [GrammarCheckProps.was_mistake])])
  else Throw SyntaxError.

(** The emoji U+1F60A, as its two code units. *)
Definition smiling : jsstring := [55357%N; 56842%N].

End ParsingProps.

(* ================================================================== *)
(** * Theorems: text nodes                                             *)
(* ================================================================== *)

Module TextNodesFacts.
Import JS TextNodes.

Lemma len_nonneg (s : jsstring) : 0 <= len s.
Proof. unfold len. lia. Qed.

Lemma counted_length_nonneg (nodes : element) : 0 <= counted_length nodes.
Proof.
  induction nodes as [|v r IH]; simpl; [lia|].
  destruct (skipped v); pose proof (len_nonneg v); lia.
Qed.

(** The loop invariant shared by the two walks. *)
Lemma find_loop_position_loop (rest : element) :
  forall (idx : nat) (cur p : Z),
    cur <= p < cur + counted_length rest ->
    exists (i : nat) (off : Z) (cl : Z),
      find_loop rest idx cur p = (Some (i, off), cl)
      /\ (idx <= i)%nat
      /\ 0 <= off
      /\ position_loop rest idx i cur + off = p.
Proof.
  induction rest as [|v r IH]; intros idx cur p Hp; simpl in *.
  - lia.
  - destruct (skipped v) eqn:Hs.
    + destruct (IH (S idx) cur p Hp) as (i & off & cl & Hf & Hi & Ho & Hr).
      exists i, off, cl. repeat split; try assumption; try lia.
      destruct (Nat.eqb_spec idx i); [lia | assumption].
    + destruct ((cur <=? p) && (p <? cur + len v)) eqn:Hin.
      * exists idx, (p - cur), cur. rewrite Nat.eqb_refl.
        repeat split; lia.
      * assert (Hge : cur + len v <= p).
        { apply andb_false_iff in Hin as [H|H].
          - apply Z.leb_gt in H. lia.
          - apply Z.ltb_ge in H. lia. }
        pose proof (len_nonneg v).
        destruct (IH (S idx) (cur + len v) p ltac:(lia))
          as (i & off & cl & Hf & Hi & Ho & Hr).
        exists i, off, cl. repeat split; try assumption; try lia.
        destruct (Nat.eqb_spec idx i); [lia | assumption].
Qed.

(** C10. For an element given by its text nodes and a position [p] with
    [0 <= p < L], where [L] is the total length of the text nodes that are
    not empty after trimming, [findTextNodeAtPosition] returns a node and an
    offset with [getTextNodePosition element node + offset = p]. *)
Theorem findTextNodeAtPosition_roundtrip (nodes : element) (p : Z) :
  0 <= p < counted_length nodes ->
  exists (i : nat) (off : Z),
    findTextNodeAtPosition (Some nodes) p = Some (Found (Some i) off)
    /\ getTextNodePosition (Some nodes) (Some i) + off = p.
Proof.
  intros Hp.
  destruct (find_loop_position_loop nodes 0 0 p ltac:(lia))
    as (i & off & cl & Hf & _ & _ & Hr).
  exists i, off. unfold findTextNodeAtPosition, getTextNodePosition.
  destruct (Z.ltb_spec p 0); [lia|].
  rewrite Hf. split; [reflexivity | exact Hr].
Qed.

Lemma findTextNodeAtPosition_roundtrip_witness :
  let nodes := [lit "Hello "; lit "   "; lit "brave"; []; lit " world"] in
  0 <= 8 < counted_length nodes
  /\ exists (i : nat) (off : Z),
       findTextNodeAtPosition (Some nodes) 8 = Some (Found (Some i) off)
       /\ getTextNodePosition (Some nodes) (Some i) + off = 8.
Proof.
  intros nodes.
  assert (H : 0 <= 8 < counted_length nodes) by (vm_compute; split; congruence).
  split; [exact H | exact (findTextNodeAtPosition_roundtrip nodes 8 H)].
Defined.

End TextNodesFacts.

(* ================================================================== *)
(** * Theorems: debounce windows                                       *)
(* ================================================================== *)

Module UtilsFacts.
Import Utils.

(** A debounced handler runs [delay] after the last call, and not at the
    time an earlier call had set. *)
Lemma debounce_last_call_wins (d : debounced) (t1 t2 : Z) :
  0 < delay d -> t1 < t2 ->
  fires (call (call d t1) t2) (t2 + delay d) = true
  /\ (t1 + delay d <> t2 + delay d ->
      fires (call (call d t1) t2) (t1 + delay d) = false).
Proof.
  intros Hd Ht. unfold fires, call; simpl. split.
  - apply Z.eqb_refl.
  - intros Hne. apply Z.eqb_neq. lia.
Qed.

(** C6, as the claim states it, fails: the scroll and resize handler
    [repositionLogo] is debounced by 50 ms, below 100 ms. *)
Lemma debounce_windows_100_counterexample :
  In repositionLogo installed
  /\ ~ (100 <= delay repositionLogo <= 1500).
Proof.
  split.
  - simpl. auto.
  - unfold repositionLogo, debounce; simpl. lia.
Qed.

(** C6, amended. Every debounce window the scripts install lies between
    50 milliseconds and 1.5 seconds: each delay is at least 50 ms (the
    window of [repositionLogo]) and at most 1500 ms (that of
    [setupDebounce]). *)
Theorem debounce_windows_bounds :
  Forall (fun d => 50 <= delay d <= 1500) installed
  /\ delay repositionLogo = 50
  /\ delay setupDebounce = 1500.
Proof.
  split; [|split; reflexivity].
  unfold installed. repeat constructor; simpl; lia.
Qed.

End UtilsFacts.

(* ================================================================== *)
(** * Theorems: where the active model is kept                         *)
(* ================================================================== *)

Module ContentFacts.
Import JS Content ContentProps.

Lemma lit_activeModel_ne_enabled :
  lit "detailedGrammarCheckEnabled" <> lit "activeModel".
Proof. vm_compute. discriminate. Qed.

(** The other message leaves the active model alone. *)
Lemma settings_message_keeps_activeModel (b : browser) (enabled : bool) :
  getActiveModel (on_message (GRAMMAR_SETTINGS_UPDATED enabled) b) = getActiveModel b.
Proof.
  unfold getActiveModel; simpl.
  rewrite lookup_insert_ne by exact lit_activeModel_ne_enabled. reflexivity.
Qed.

(** C7, as the claim states it, fails: after an [API_KEY_UPDATED] message
    carrying an active model, extension-synced storage holds no
    [activeModel]; and [getActiveModel] ignores a value held there. *)
Lemma activeModel_in_sync_storage_counterexample :
  sync_storage (on_message (API_KEY_UPDATED (lit "k") (Some (lit "openai"))) fresh_browser)
    !! lit "activeModel" = None
  /\ getActiveModel (popup_save (lit "k") (lit "openai") fresh_browser) = lit "gemini".
Proof.
  split.
  - simpl. apply lookup_empty.
  - unfold getActiveModel, popup_save, fresh_browser; simpl.
    rewrite lookup_empty. reflexivity.
Qed.

(** C7, amended. The content script keeps the active-model identifier in
    the page's [localStorage]: when an [API_KEY_UPDATED] message carries a
    non-empty [activeModel], the listener writes it there under
    ['activeModel'] and leaves extension-synced storage as it was, and
    [getActiveModel] reads it back from [localStorage], answering
    ['gemini'] when nothing (or the empty string) is stored. *)
Theorem activeModel_in_localStorage (b : browser) (apiKey m : jsstring) :
  m <> [] ->
  let b' := on_message (API_KEY_UPDATED apiKey (Some m)) b in
  localStorage b' !! lit "activeModel" = Some m
  /\ sync_storage b' = sync_storage b
  /\ getActiveModel b' = m
  /\ (forall b0 : browser,
        localStorage b0 !! lit "activeModel" = None \/
        localStorage b0 !! lit "activeModel" = Some [] ->
        getActiveModel b0 = lit "gemini").
Proof.
  intros Hm b'. subst b'.
  destruct m as [|c m]; [congruence|]. simpl.
  repeat split.
  - apply lookup_insert_eq.
  - unfold getActiveModel; simpl. rewrite lookup_insert_eq. reflexivity.
  - intros b0 [H|H]; unfold getActiveModel; rewrite H; reflexivity.
Qed.

Lemma activeModel_in_localStorage_witness :
  let b' := on_message (API_KEY_UPDATED (lit "k") (Some (lit "openai"))) fresh_browser in
  localStorage b' !! lit "activeModel" = Some (lit "openai")
  /\ getActiveModel b' = lit "openai".
Proof.
  intros b'.
  assert (Hne : lit "openai" <> []) by (vm_compute; discriminate).
  destruct (activeModel_in_localStorage fresh_browser (lit "k") (lit "openai") Hne)
    as (H1 & _ & H3 & _).
  split; assumption.
Defined.

End ContentFacts.

(* ================================================================== *)
(** * Theorems: the API layer                                          *)
(* ================================================================== *)

Module ApiFacts.
Import JS Eff Api ApiProps.
Local Open Scope eff_scope.

(** ** The monad *)

Lemma bind_ok {A B} (t : list event) (a : A) (f : A -> M B) :
  bind (t, Ok a) f = (t ++ trace (f a), result (f a)).
Proof. unfold bind, trace, result. destruct (f a); reflexivity. Qed.

Lemma requests_app (t1 t2 : list event) :
  requests (t1 ++ t2) = requests t1 ++ requests t2.
Proof. unfold requests. apply omap_app. Qed.

Lemma requests_bind {A B} (m : M A) (f : A -> M B) :
  requests (trace (bind m f)) =
  requests (trace m) ++
  match result m with
  | Ok a => requests (trace (f a))
  | Throw _ => []
  end.
Proof.
  destruct m as [t [a|err]].
  - rewrite bind_ok. unfold trace, result; simpl. apply requests_app.
  - unfold trace; simpl. symmetry. apply app_nil_r.
Qed.

Lemma requests_try_catch {A} (m : M A) (h : error -> M A) :
  requests (trace (try_catch m h)) =
  requests (trace m) ++
  match result m with
  | Ok _ => []
  | Throw err => requests (trace (h err))
  end.
Proof.
  destruct m as [t [a|err]]; unfold try_catch, trace; simpl.
  - symmetry. apply app_nil_r.
  - destruct (h err) as [t' r]. simpl. apply requests_app.
Qed.

(** ** getApiKeyWithRetry never throws and sends nothing *)

Lemma key_loop_total (e : env) (m : nat) (d : Z) (todo : nat) :
  forall attempts : nat,
    exists (t : list event) (k : jsstring),
      key_loop e m d todo attempts = (t, Ok k) /\ requests t = [].
Proof.
  induction todo as [|todo IH]; intros attempts; simpl.
  - exists [], []. split; reflexivity.
  - destruct (negb (is_empty _)) eqn:H1.
    { eexists [], _. split; reflexivity. }
    destruct (negb (is_empty (match global_api_key e with Some k => _ | None => _ end))) eqn:H2.
    { eexists [], _. split; reflexivity. }
    destruct (IH (S attempts)) as (t & k & Hk & Hq).
    destruct (attempts <? m - 1)%nat; unfold emit, ret; rewrite bind_ok, Hk; simpl.
    + exists (Wait d :: t), k. split; [reflexivity | exact Hq].
    + exists t, k. split; [reflexivity | exact Hq].
Qed.

Lemma getApiKeyWithRetry_total (e : env) :
  exists (t : list event) (k : jsstring),
    getApiKeyWithRetry_default e = (t, Ok k) /\ requests t = [].
Proof. apply key_loop_total. Qed.

(** C3. With an empty key from [getApiKeyWithRetry], for every text:
    [getGrammarSuggestions] returns the one-element list holding the
    'No API key set' message, [analyzeSentiment] returns the neutral
    sentiment with the default emoji, [checkGrammarWithDetails] returns
    [{words_with_mistakes: []}]; none of them sends a request or throws. *)
Theorem missing_key_best_effort (e : env) (text : jsstring) :
  result (getApiKeyWithRetry_default e) = Ok [] ->
  (result (getGrammarSuggestions e text) = Ok [no_key_message]
   /\ requests (trace (getGrammarSuggestions e text)) = [])
  /\ (result (analyzeSentiment e text)
        = Ok {| sentiment := lit "Neutral"; emoji := default_emoji |}
      /\ requests (trace (analyzeSentiment e text)) = [])
  /\ (result (checkGrammarWithDetails e text)
        = Ok (Obj [(lit "words_with_mistakes", Arr [])])
      /\ requests (trace (checkGrammarWithDetails e text)) = []).
Proof.
  intros Hkey.
  destruct (getApiKeyWithRetry_total e) as (t & k & Hk & Hq).
  rewrite Hk in Hkey. simpl in Hkey. injection Hkey as ->.
  unfold getGrammarSuggestions, getGrammarSuggestions_body,
    analyzeSentiment, analyzeSentiment_body,
    checkGrammarWithDetails, checkGrammarWithDetails_body.
  rewrite Hk. unfold console_log, console_warn, emit, ret.
  rewrite !bind_ok. cbn [is_empty trace result fst snd try_catch app].
  change (Console ?l ?s :: t ++ ?r) with ([Console l s] ++ t ++ r).
  rewrite !requests_app, Hq.
  repeat split; reflexivity.
Qed.

Lemma missing_key_best_effort_witness :
  result (getApiKeyWithRetry_default offline) = Ok []
  /\ result (getGrammarSuggestions offline (lit "She go to school")) = Ok [no_key_message]
  /\ requests (trace (checkGrammarWithDetails offline (lit "She go to school"))) = [].
Proof.
  assert (H : result (getApiKeyWithRetry_default offline) = Ok []) by reflexivity.
  pose proof (missing_key_best_effort offline (lit "She go to school") H)
    as ((H1 & _) & _ & (_ & H3)).
  split; [exact H | split; assumption].
Defined.

(** ** What is sent *)

Ltac quiet :=
  repeat first
    [ rewrite requests_bind
    | rewrite requests_try_catch
    | progress cbn [trace result fst snd requests omap app console_log
                    console_warn console_error emit ret throw lift]
    | match goal with
      | |- context [match ?x with _ => _ end] => destruct x
      end ];
  try reflexivity.

Lemma first_candidate_text_quiet (data : value) (missing : string) :
  requests (trace (first_candidate_text data missing)) = [].
Proof. unfold first_candidate_text. quiet. Qed.

Lemma post_requests (e : env) (k prompt : jsstring) (timeout : Z) :
  requests (trace (post e k prompt timeout)) = [post_request e k prompt timeout].
Proof.
  unfold post, fetch. rewrite requests_bind. reflexivity.
Qed.

Lemma getGrammarSuggestions_requests (e : env) (text : jsstring) :
  requests (trace (getGrammarSuggestions e text))
  = sent e (suggestions_prompt text) 30000.
Proof.
  unfold getGrammarSuggestions, getGrammarSuggestions_body, sent.
  destruct (getApiKeyWithRetry_total e) as (t & k & Hk & Hq).
  generalize (suggestions_prompt text); intros prompt.
  rewrite requests_try_catch, !requests_bind, Hk.
  cbn [trace result fst snd]. rewrite Hq.
  destruct k as [|c k]; cbn [is_empty].
  - quiet.
  - rewrite !requests_bind, post_requests.
    quiet; rewrite ?first_candidate_text_quiet; reflexivity.
Qed.

Lemma analyzeSentiment_requests (e : env) (text : jsstring) :
  requests (trace (analyzeSentiment e text))
  = sent e (sentiment_prompt text) 15000.
Proof.
  unfold analyzeSentiment, analyzeSentiment_body, sent.
  destruct (getApiKeyWithRetry_total e) as (t & k & Hk & Hq).
  generalize (sentiment_prompt text); intros prompt.
  rewrite requests_try_catch, !requests_bind, Hk.
  cbn [trace result fst snd]. rewrite Hq.
  destruct k as [|c k]; cbn [is_empty].
  - quiet.
  - rewrite !requests_bind, post_requests.
    quiet; rewrite ?first_candidate_text_quiet; reflexivity.
Qed.

Lemma checkGrammarWithDetails_requests (e : env) (text : jsstring) :
  requests (trace (checkGrammarWithDetails e text))
  = sent e (details_prompt text) 30000.
Proof.
  unfold checkGrammarWithDetails, checkGrammarWithDetails_body, sent.
  destruct (getApiKeyWithRetry_total e) as (t & k & Hk & Hq).
  generalize (details_prompt text); intros prompt.
  rewrite requests_try_catch, !requests_bind, Hk.
  cbn [trace result fst snd]. rewrite Hq.
  destruct k as [|c k]; cbn [is_empty].
  - quiet.
  - rewrite !requests_bind, post_requests.
    quiet; rewrite ?first_candidate_text_quiet; reflexivity.
Qed.

Lemma sent_is_payload (e : env) (prompt : jsstring) (timeout : Z) :
  Forall (is_payload_of prompt) (sent e prompt timeout).
Proof.
  unfold sent. destruct (result (getApiKeyWithRetry_default e)) as [k|]; [|constructor].
  destruct (is_empty k); repeat constructor.
Qed.

Lemma sent_with_key (e : env) (k prompt : jsstring) (timeout : Z) :
  result (getApiKeyWithRetry_default e) = Ok k -> k <> [] ->
  sent e prompt timeout = [post_request e k prompt timeout].
Proof.
  intros Hk Hne. unfold sent. rewrite Hk. destruct k; [congruence | reflexivity].
Qed.

(** C4. Every request the API layer sends is a POST whose body has the
    shape [{contents: [{parts: [{text: prompt}]}]}]: for every text, each
    request of [getGrammarSuggestions], [analyzeSentiment] and
    [checkGrammarWithDetails] carries one [contents] entry with one part
    whose only field is the prompt built from that text, the text standing
    between the two fixed pieces of the function's template. With a key,
    each call sends exactly one such request. *)
Theorem every_request_is_a_post (e : env) (text : jsstring) :
  Forall (is_payload_of (suggestions_prompt_head ++ text ++ suggestions_prompt_tail))
    (requests (trace (getGrammarSuggestions e text)))
  /\ Forall (is_payload_of (sentiment_prompt_head ++ text ++ sentiment_prompt_tail))
       (requests (trace (analyzeSentiment e text)))
  /\ Forall (is_payload_of (details_prompt_head ++ text ++ details_prompt_tail))
       (requests (trace (checkGrammarWithDetails e text)))
  /\ (forall k : jsstring,
        result (getApiKeyWithRetry_default e) = Ok k -> k <> [] ->
        length (requests (trace (getGrammarSuggestions e text))) = 1%nat
        /\ length (requests (trace (analyzeSentiment e text))) = 1%nat
        /\ length (requests (trace (checkGrammarWithDetails e text))) = 1%nat).
Proof.
  rewrite getGrammarSuggestions_requests, analyzeSentiment_requests,
    checkGrammarWithDetails_requests.
  repeat split; try apply sent_is_payload;
    rewrite (sent_with_key e k _ _ H H0); reflexivity.
Qed.

(** ** Failures *)

(** C1, as the claim states it, fails: on an HTTP error
    [getGrammarSuggestions] throws to its caller. *)
Lemma getGrammarSuggestions_throws_counterexample :
  result (getGrammarSuggestions server_error (lit "She go to school"))
  = Throw (Error (lit "HTTP error! status: 500, message: boom")).
Proof. vm_compute. reflexivity. Qed.

(** [checkGrammarWithDetails] always returns an object whose
    [words_with_mistakes] is an array. *)
Lemma lookup_set_field (k : jsstring) (v : value) (fields : list (jsstring * value)) :
  lookup_field k (set_field k v fields) = v.
Proof.
  induction fields as [|[k' v'] r IH]; simpl.
  - unfold eqb_str. rewrite bool_decide_eq_true_2; reflexivity.
  - destruct (eqb_str k k') eqn:Hk; simpl; rewrite ?Hk; [|exact IH].
    unfold eqb_str. rewrite bool_decide_eq_true_2; reflexivity.
Qed.

Lemma lookup_set_field_ne (k k' : jsstring) (v : value) (fields : list (jsstring * value)) :
  k <> k' -> lookup_field k (set_field k' v fields) = lookup_field k fields.
Proof.
  intros Hne. induction fields as [|[k0 v0] r IH]; simpl.
  - unfold eqb_str. rewrite bool_decide_eq_false_2; [reflexivity | exact Hne].
  - destruct (eqb_str k' k0) eqn:Hk; simpl.
    + apply bool_decide_eq_true in Hk. subst k0.
      unfold eqb_str. rewrite !bool_decide_eq_false_2 by exact Hne. reflexivity.
    + destruct (eqb_str k k0); [reflexivity | exact IH].
Qed.

(** ** Parsing the replies *)

Lemma ensure_terminal_ends (s : jsstring) :
  ends_with_terminal (ensure_terminal s) = true.
Proof.
  unfold ensure_terminal. destruct (ends_with_terminal s) eqn:H; [exact H|].
  unfold ends_with_terminal. rewrite rev_app_distr. reflexivity.
Qed.

Lemma clean_line_ends (line : jsstring) :
  ends_with_terminal (clean_line line) = true.
Proof. unfold clean_line. apply ensure_terminal_ends. Qed.

Lemma ends_with_terminal_nonempty (s : jsstring) :
  ends_with_terminal s = true -> (0 <? len s) = true.
Proof.
  destruct s as [|c r]; [discriminate|]. intros _.
  unfold len. simpl length. apply Z.ltb_lt. lia.
Qed.

Lemma filter_all {A} (P : A -> bool) (l : list A) :
  Forall (fun a => P a = true) l -> List.filter P l = l.
Proof.
  induction 1 as [|a l Ha _ IH]; simpl; [reflexivity|].
  rewrite Ha, IH. reflexivity.
Qed.

(** The last [.filter(line => line.length > 0)] drops nothing. *)
Lemma parse_suggestions_map (reply : jsstring) :
  parse_suggestions reply = List.map clean_line (numbered_lines reply).
Proof.
  unfold parse_suggestions. apply filter_all.
  apply List.Forall_forall. intros l Hl. apply in_map_iff in Hl as (l0 & <- & _).
  apply ends_with_terminal_nonempty, clean_line_ends.
Qed.

Lemma drop_until_spec (c : N) (s : jsstring) :
  exists pre : jsstring,
    s = pre ++ drop_until c s
    /\ Forall (fun x => x <> c) pre
    /\ (drop_until c s = [] \/ exists r, drop_until c s = c :: r).
Proof.
  induction s as [|x r IH]; simpl.
  - exists []. repeat split; auto.
  - destruct (N.eqb_spec x c) as [->|Hne].
    + exists []. repeat split; eauto.
    + destruct IH as (pre & Hs & Hpre & Hd).
      exists (x :: pre). repeat split; auto.
      simpl. congruence.
Qed.

Lemma drop_until_app (c : N) (pre r : jsstring) :
  Forall (fun x => x <> c) pre -> drop_until c (pre ++ c :: r) = c :: r.
Proof.
  induction 1 as [|x pre Hx _ IH]; simpl.
  - rewrite N.eqb_refl. reflexivity.
  - destruct (N.eqb_spec x c); [contradiction | exact IH].
Qed.

(** The block that [checkGrammarWithDetails] parses runs from the first
    opening brace of the reply to the last closing brace after it. *)
Lemma json_block_spec (reply block : jsstring) :
  json_block reply = Some block <->
  exists pre mid post : jsstring,
    reply = pre ++ [123%N] ++ mid ++ [125%N] ++ post
    /\ Forall (fun x => x <> 123%N) pre
    /\ Forall (fun x => x <> 125%N) post
    /\ block = [123%N] ++ mid ++ [125%N].
Proof.
  unfold json_block, drop_to_open, drop_to_close. split.
  - destruct (drop_until_spec 123 reply) as (pre & Hs & Hpre & [Hd|[r Hd]]);
      rewrite Hd in *; [discriminate|].
    destruct (drop_until_spec 125 (List.rev r)) as (pre' & Hr & Hpre' & [Hd'|[x Hd']]);
      rewrite Hd' in *; [discriminate|].
    intros [= <-].
    exists pre, (List.rev x), (List.rev pre').
    assert (Hrr : r = List.rev x ++ [125%N] ++ List.rev pre').
    { rewrite <- (rev_involutive r), Hr, rev_app_distr. simpl.
      rewrite <- app_assoc. reflexivity. }
    repeat split.
    + rewrite Hs, Hrr. reflexivity.
    + exact Hpre.
    + apply List.Forall_forall. intros y Hy. apply in_rev in Hy.
      rewrite List.Forall_forall in Hpre'. apply Hpre'. exact Hy.
  - intros (pre & mid & post & -> & Hpre & Hpost & ->).
    simpl. rewrite drop_until_app by exact Hpre.
    replace (List.rev (mid ++ 125%N :: post))
      with (List.rev post ++ 125%N :: List.rev mid).
    2:{ rewrite rev_app_distr. simpl. rewrite <- app_assoc. reflexivity. }
    rewrite drop_until_app.
    2:{ apply List.Forall_forall. intros y Hy. apply in_rev in Hy.
        rewrite List.Forall_forall in Hpost. apply Hpost. exact Hy. }
    simpl. rewrite rev_involutive. reflexivity.
Qed.

Lemma result_bind {A B} (m : M A) (f : A -> M B) :
  result (bind m f) =
  match result m with
  | Ok a => result (f a)
  | Throw err => Throw err
  end.
Proof.
  destruct m as [t [a|err]]; [|reflexivity].
  rewrite bind_ok. reflexivity.
Qed.

Lemma result_try_catch {A} (m : M A) (h : error -> M A) :
  result (try_catch m h) =
  match result m with
  | Ok a => Ok a
  | Throw err => result (h err)
  end.
Proof.
  destruct m as [t [a|err]]; [reflexivity|].
  unfold try_catch, result; simpl. destruct (h err); reflexivity.
Qed.

Lemma result_post (e : env) (k prompt : jsstring) (timeout : Z) :
  result (post e k prompt timeout)
  = fetch_result e (post_request e k prompt timeout).
Proof. unfold post, fetch. rewrite result_bind. reflexivity. Qed.

Ltac run_call H :=
  destruct H as (k & r & data & Hk & Hne & Hf & Hok & Hj & Hc);
  destruct k as [|c k]; [congruence|];
  repeat (rewrite result_bind;
          rewrite ?Hk, ?result_post, ?Hf, ?Hok, ?Hj, ?Hc;
          cbn [result snd console_log console_warn console_error emit lift ret
               throw is_empty negb as_string]).

Lemma getGrammarSuggestions_reply (e : env) (text reply : jsstring) :
  replies e (suggestions_prompt text) 30000 reply ->
  result (getGrammarSuggestions e text)
  = Ok (List.map clean_line (numbered_lines reply)).
Proof.
  intros H. unfold getGrammarSuggestions, getGrammarSuggestions_body.
  rewrite result_try_catch. run_call H.
  rewrite parse_suggestions_map. reflexivity.
Qed.

Lemma checkGrammarWithDetails_invalid (e : env) (text reply block : jsstring)
    (parsed : value) :
  replies e (details_prompt text) 30000 reply ->
  json_block reply = Some block ->
  JSON_parse e block = Ok parsed ->
  (forall items, get parsed (Name "words_with_mistakes") <> Ok (Arr items)) ->
  result (checkGrammarWithDetails e text) = Ok no_mistakes.
Proof.
  intros H Hb Hp Hw. unfold checkGrammarWithDetails, checkGrammarWithDetails_body.
  rewrite result_try_catch. run_call H.
  rewrite Hb. rewrite result_bind. cbn [lift result snd]. rewrite Hp.
  rewrite result_bind. cbn [lift result snd].
  destruct (get parsed (Name "words_with_mistakes")) as [w|err] eqn:Hg.
  - destruct parsed; try reflexivity.
    destruct w; try reflexivity.
    exfalso. eapply Hw. reflexivity.
  - reflexivity.
Qed.

Lemma skip_digits_spec (s : jsstring) :
  exists ds : jsstring,
    s = ds ++ skip_digits s
    /\ Forall (fun c => is_digit c = true) ds
    /\ (ds = [] -> skip_digits s = s).
Proof.
  induction s as [|c r IH]; simpl.
  - exists []. repeat split; auto.
  - destruct (is_digit c) eqn:Hc.
    + destruct IH as (ds & Hs & Hds & _).
      exists (c :: ds). repeat split; [simpl; congruence | auto | discriminate].
    + exists []. repeat split; auto.
Qed.

Lemma skip_digits_app (ds rest : jsstring) :
  Forall (fun c => is_digit c = true) ds ->
  skip_digits (ds ++ 46%N :: rest) = 46%N :: rest.
Proof.
  induction 1 as [|c ds Hc _ IH]; simpl; [reflexivity|].
  rewrite Hc. exact IH.
Qed.

(** [numbered] recognises digits, a period and a white space character. *)
Lemma numbered_spec (line rest : jsstring) :
  numbered line = Some rest <->
  exists (ds : jsstring) (w : N),
    ds <> []
    /\ Forall (fun c => is_digit c = true) ds
    /\ is_space w = true
    /\ line = ds ++ [46%N; w] ++ rest.
Proof.
  unfold numbered. split.
  - destruct line as [|c r]; [discriminate|].
    destruct (is_digit c) eqn:Hc; [|discriminate].
    destruct (skip_digits_spec (c :: r)) as (ds & Hs & Hds & Hnil).
    destruct (skip_digits (c :: r)) as [|d [|w rest']] eqn:Hsk; try discriminate.
    destruct (N.eqb_spec d 46) as [->|]; [|discriminate]. simpl.
    destruct (is_space w) eqn:Hw; [|discriminate].
    intros [= <-]. exists ds, w. repeat split; auto.
    intros ->. specialize (Hnil eq_refl).
    injection Hnil as <- _. discriminate.
  - intros (ds & w & Hne & Hds & Hw & ->).
    destruct ds as [|c ds]; [congruence|].
    inversion Hds as [|? ? Hc Hds']; subst. simpl app. cbv iota beta.
    rewrite Hc.
    change (c :: ds ++ 46%N :: w :: rest) with ((c :: ds) ++ 46%N :: w :: rest).
    rewrite skip_digits_app by exact Hds.
    rewrite N.eqb_refl, Hw. reflexivity.
Qed.

Lemma bracket_free_app (a b : jsstring) :
  bracket_free a -> bracket_free b -> bracket_free (a ++ b).
Proof. intros Ha Hb. apply Forall_app. split; assumption. Qed.

Lemma trim_start_free (s : jsstring) : bracket_free s -> bracket_free (trim_start s).
Proof.
  induction 1 as [|c r Hc Hr IH]; simpl; [constructor|].
  destruct (is_space c); [exact IH | constructor; assumption].
Qed.

Lemma rev_free (s : jsstring) : bracket_free s -> bracket_free (List.rev s).
Proof.
  unfold bracket_free. rewrite !List.Forall_forall. intros H c Hc.
  apply H. apply in_rev. exact Hc.
Qed.

Lemma trim_free (s : jsstring) : bracket_free s -> bracket_free (trim s).
Proof.
  intros H. unfold trim, trim_end.
  apply rev_free, trim_start_free, rev_free, trim_start_free, H.
Qed.

Lemma remove_brackets_free (s : jsstring) : bracket_free (remove_brackets s).
Proof.
  unfold remove_brackets, bracket_free. apply List.Forall_forall.
  intros c Hc. apply filter_In in Hc as [_ Hc].
  unfold is_bracket. destruct ((c =? 91) || (c =? 93))%N; [discriminate | reflexivity].
Qed.

Lemma cut_explanation_free (s : jsstring) :
  bracket_free s -> bracket_free (cut_explanation s).
Proof.
  induction 1 as [|c r Hc Hr IH]; simpl; [constructor|].
  destruct ((c =? 46)%N && explanation_tail r).
  - repeat constructor.
  - constructor; assumption.
Qed.

Lemma strip_quotes_free (s : jsstring) :
  bracket_free s -> bracket_free (strip_quotes s).
Proof.
  intros H. unfold strip_quotes.
  assert (H1 : bracket_free
                 match s with
                 | c :: r => if is_quote c then r else s
                 | [] => []
                 end).
  { destruct H as [|c r Hc Hr]; [constructor|].
    destruct (is_quote c); [exact Hr | constructor; assumption]. }
  revert H1. generalize (match s with
                         | c :: r => if is_quote c then r else s
                         | [] => []
                         end). intros s1 H1.
  pose proof (rev_free _ H1) as H2.
  destruct (List.rev s1) as [|c r]; [constructor|].
  destruct (is_quote c); [|exact H1].
  inversion H2; subst. apply rev_free. assumption.
Qed.

Lemma collapse_spaces_free (s : jsstring) :
  bracket_free s -> forall b, bracket_free (collapse_spaces b s).
Proof.
  induction 1 as [|c r Hc Hr IH]; intros b; simpl; [constructor|].
  destruct (is_space c).
  - destruct b; [apply IH | constructor; [reflexivity | apply IH]].
  - constructor; [assumption | apply IH].
Qed.

(** No square bracket is left in a cleaned line. *)
Lemma clean_line_bracket_free (line : jsstring) : bracket_free (clean_line line).
Proof.
  unfold clean_line, ensure_terminal.
  match goal with
  | |- context [collapse_spaces false ?x] =>
      assert (H : bracket_free (collapse_spaces false x))
  end.
  { apply collapse_spaces_free, trim_free, strip_quotes_free,
      cut_explanation_free, remove_brackets_free. }
  destruct (ends_with_terminal _); [exact H|].
  apply bracket_free_app; [exact H | repeat constructor].
Qed.

(** ** Environments in which the model answers *)

Lemma answering_replies (reply prompt : jsstring) (timeout : Z)
    (parse : jsstring -> outcome value) :
  replies (answering reply parse) prompt timeout reply.
Proof.
  exists (lit "k"), {| ok := true; status := 200%N;
                       text_body := Ok []; json_body := Ok (candidates_of reply) |},
    (candidates_of reply).
  repeat split; try reflexivity. discriminate.
Qed.

(** ** Failures of the request *)

Lemma first_candidate_text_missing (data : value) (missing : string) :
  no_candidates data ->
  first_candidate_text data missing = ([], Throw (Error (lit missing))).
Proof.
  intros (candidates & Hg & H). unfold first_candidate_text. rewrite Hg.
  cbn [lift bind app].
  destruct H as [H|H].
  - rewrite H. reflexivity.
  - destruct (truthy candidates); [|reflexivity].
    rewrite H. reflexivity.
Qed.

(** The request of a call, from the key on. *)
Lemma post_run (e : env) (k prompt : jsstring) (timeout : Z) :
  post e k prompt timeout
  = ([Fetch (post_request e k prompt timeout)],
     fetch_result e (post_request e k prompt timeout)).
Proof.
  unfold post, fetch, emit, lift. cbn [bind app]. reflexivity.
Qed.

Ltac fail_case Hk Hne Hf :=
  rewrite Hk;
  match type of Hne with ?k <> [] => destruct k as [|c k]; [congruence|] end;
  cbn [bind is_empty console_log console_warn console_error emit ret throw lift app];
  rewrite post_run;
  match type of Hf with
  | fails _ ?rq _ => remember rq as req eqn:Ereq; clear Ereq
  end.

Ltac settle :=
  cbn [bind try_catch negb throw ret lift emit console_log console_warn
       console_error app];
  rewrite <- ?app_assoc; cbn [app]; reflexivity.

Ltac fail_cases Hf f :=
  destruct f as [err|r|r err|r data]; cbn [fails logged_before raised] in *;
  [ rewrite Hf; settle
  | destruct Hf as [-> Hok]; cbn [bind app]; rewrite Hok;
    try destruct (text_body r); settle
  | destruct Hf as (-> & Hok & Hj); cbn [bind app]; rewrite Hok, Hj; settle
  | destruct Hf as (-> & Hok & Hj & Hc); cbn [bind app]; rewrite Hok, Hj;
    cbn [negb bind lift ret emit console_log app];
    rewrite (first_candidate_text_missing data _ Hc); settle ].

Lemma analyzeSentiment_fails (e : env) (text : jsstring) (tk : list event)
    (k : jsstring) (f : failure) :
  getApiKeyWithRetry_default e = (tk, Ok k) -> k <> [] ->
  fails e (post_request e k (sentiment_prompt text) 15000) f ->
  analyzeSentiment e text
  = (tk ++ [Fetch (post_request e k (sentiment_prompt text) 15000);
            Console Err "Error analyzing sentiment:"%string],
     Ok neutral).
Proof.
  intros Hk Hne Hf. unfold analyzeSentiment, analyzeSentiment_body.
  fail_case Hk Hne Hf. fail_cases Hf f.
Qed.

Lemma checkGrammarWithDetails_fails (e : env) (text : jsstring) (tk : list event)
    (k : jsstring) (f : failure) :
  getApiKeyWithRetry_default e = (tk, Ok k) -> k <> [] ->
  fails e (post_request e k (details_prompt text) 30000) f ->
  checkGrammarWithDetails e text
  = ([Console Info "Checking grammar with detailed response for text:"%string]
       ++ tk
       ++ [Console Info "Sending API request to:"%string;
           Fetch (post_request e k (details_prompt text) 30000)]
       ++ logged_before f
       ++ [Console Err "Error checking grammar with details:"%string],
     Ok no_mistakes).
Proof.
  intros Hk Hne Hf. unfold checkGrammarWithDetails, checkGrammarWithDetails_body.
  fail_case Hk Hne Hf. fail_cases Hf f.
Qed.

Lemma getGrammarSuggestions_fails (e : env) (text : jsstring) (tk : list event)
    (k : jsstring) (f : failure) :
  getApiKeyWithRetry_default e = (tk, Ok k) -> k <> [] ->
  fails e (post_request e k (suggestions_prompt text) 30000) f ->
  getGrammarSuggestions e text
  = ([Console Info "Getting grammar suggestions for text:"%string]
       ++ tk
       ++ [Console Info "Sending API request"%string;
           Fetch (post_request e k (suggestions_prompt text) 30000)]
       ++ logged_before f
       ++ [Console Err "Error getting grammar suggestions:"%string],
     Throw (raised f)).
Proof.
  intros Hk Hne Hf. unfold getGrammarSuggestions, getGrammarSuggestions_body.
  fail_case Hk Hne Hf. fail_cases Hf f.
Qed.

Lemma trace_bind {A B} (m : M A) (f : A -> M B) :
  trace (bind m f) =
  trace m ++
  match result m with
  | Ok a => trace (f a)
  | Throw _ => []
  end.
Proof.
  destruct m as [t [a|err]].
  - rewrite bind_ok. reflexivity.
  - unfold trace; simpl. symmetry. apply app_nil_r.
Qed.

Ltac run :=
  repeat (progress (rewrite ?result_bind;
                    cbn [console_log console_warn console_error emit ret lift
                         throw result snd negb])).

Lemma first_candidate_text_silent (data : value) (missing : string) :
  trace (first_candidate_text data missing) = [].
Proof.
  unfold first_candidate_text.
  repeat first
    [ reflexivity
    | rewrite trace_bind
    | progress cbn [lift trace result fst snd throw ret app]
    | match goal with
      | |- context [match ?x with _ => _ end] => destruct x
      end ].
Qed.

Lemma first_candidate_text_run (data : value) (missing : string) (v : value) :
  result (first_candidate_text data missing) = Ok v ->
  first_candidate_text data missing = ([], Ok v).
Proof.
  intros H. pose proof (first_candidate_text_silent data missing) as Ht.
  destruct (first_candidate_text data missing) as [t r].
  cbn in H, Ht. subst. reflexivity.
Qed.

(** A reply that cannot be parsed is a failure like the others. *)
Lemma checkGrammarWithDetails_unparseable (e : env) (text : jsstring)
    (tk : list event) (k reply : jsstring) :
  getApiKeyWithRetry_default e = (tk, Ok k) ->
  replies e (details_prompt text) 30000 reply ->
  unparseable_reply e reply ->
  checkGrammarWithDetails e text
  = ([Console Info "Checking grammar with detailed response for text:"%string]
       ++ tk
       ++ [Console Info "Sending API request to:"%string;
           Fetch (post_request e k (details_prompt text) 30000);
           Console Info "Received API response with status:"%string;
           Console Info "Parsed API response data:"%string;
           Console Err "Error checking grammar with details:"%string],
     Ok no_mistakes).
Proof.
  intros Hk (k' & r & data & Hk' & Hne & Hf & Hok & Hj & Hc) Hu.
  rewrite Hk in Hk'. injection Hk' as <-.
  apply first_candidate_text_run in Hc.
  unfold checkGrammarWithDetails, checkGrammarWithDetails_body.
  rewrite Hk. destruct k as [|c k]; [congruence|].
  cbn [bind is_empty console_log emit app]. rewrite post_run, Hf.
  cbn [bind app]. rewrite Hok, Hj.
  cbn [negb bind lift ret emit console_log app]. rewrite Hc.
  cbn [bind lift as_string app].
  destruct Hu as [Hb|(block & err & Hb & Hp)]; rewrite Hb.
  - settle.
  - cbn [bind lift app]. rewrite Hp. settle.
Qed.

(** [getGrammarSuggestions] returns only without a key or with a reply. *)
Lemma getGrammarSuggestions_returns (e : env) (text : jsstring) (l : list jsstring) :
  result (getGrammarSuggestions e text) = Ok l ->
  (result (getApiKeyWithRetry_default e) = Ok [] /\ l = [no_key_message])
  \/ exists reply : jsstring,
       replies e (suggestions_prompt text) 30000 reply
       /\ l = List.map clean_line (numbered_lines reply).
Proof.
  unfold getGrammarSuggestions, getGrammarSuggestions_body.
  rewrite result_try_catch.
  destruct (getApiKeyWithRetry_total e) as (tk & k & Hk & _).
  run. rewrite Hk. run.
  destruct k as [|c k]; cbn [is_empty]; run.
  { intros [= <-]. left. split; reflexivity. }
  intros H. right. revert H.
  rewrite result_post.
  destruct (fetch_result e _) as [r|err] eqn:Hf; run; [|discriminate].
  destruct (ok r) eqn:Hok; run.
  2:{ destruct (text_body r); run; discriminate. }
  destruct (json_body r) as [data|err] eqn:Hj; run; [|discriminate].
  destruct (result (first_candidate_text data "No candidates returned from API"))
    as [v|err] eqn:Hc; run; [|discriminate].
  destruct v as [| | | |reply| |]; cbn [as_string]; run; try discriminate.
  intros [= <-]. exists reply. split.
  - exists (c :: k), r, data. repeat split; try assumption.
    + rewrite Hk. reflexivity.
    + discriminate.
  - apply parse_suggestions_map.
Qed.

(** C1, amended. A failure of the request, whichever of an HTTP error, a
    response that is not JSON, missing candidates or a network error, ends
    the same way in each function: [analyzeSentiment] logs it with
    [console.error] and returns the neutral sentiment;
    [checkGrammarWithDetails] logs it and returns
    [{words_with_mistakes: []}], as it does for a reply it cannot parse;
    [getGrammarSuggestions] logs it and throws it again to its caller.
    This holds of every failure in their [try] blocks, so the first two
    never throw. [getGrammarSuggestions] returns only without a key, with
    the message that asks for one, and when the hosted model replied,
    with the cleaned lines of the reply. *)
Theorem failures_are_logged (e : env) (text : jsstring) :
  (forall (tk : list event) (k : jsstring) (f : failure),
     getApiKeyWithRetry_default e = (tk, Ok k) -> k <> [] ->
     fails e (post_request e k (sentiment_prompt text) 15000) f ->
     analyzeSentiment e text
     = (tk ++ [Fetch (post_request e k (sentiment_prompt text) 15000);
               Console Err "Error analyzing sentiment:"%string],
        Ok neutral))
  /\ (forall (tk : list event) (k : jsstring) (f : failure),
        getApiKeyWithRetry_default e = (tk, Ok k) -> k <> [] ->
        fails e (post_request e k (details_prompt text) 30000) f ->
        checkGrammarWithDetails e text
        = ([Console Info "Checking grammar with detailed response for text:"%string]
             ++ tk
             ++ [Console Info "Sending API request to:"%string;
                 Fetch (post_request e k (details_prompt text) 30000)]
             ++ logged_before f
             ++ [Console Err "Error checking grammar with details:"%string],
           Ok no_mistakes))
  /\ (forall (tk : list event) (k reply : jsstring),
        getApiKeyWithRetry_default e = (tk, Ok k) ->
        replies e (details_prompt text) 30000 reply ->
        unparseable_reply e reply ->
        checkGrammarWithDetails e text
        = ([Console Info "Checking grammar with detailed response for text:"%string]
             ++ tk
             ++ [Console Info "Sending API request to:"%string;
                 Fetch (post_request e k (details_prompt text) 30000);
                 Console Info "Received API response with status:"%string;
                 Console Info "Parsed API response data:"%string;
                 Console Err "Error checking grammar with details:"%string],
           Ok no_mistakes))
  /\ (forall (tk : list event) (k : jsstring) (f : failure),
        getApiKeyWithRetry_default e = (tk, Ok k) -> k <> [] ->
        fails e (post_request e k (suggestions_prompt text) 30000) f ->
        getGrammarSuggestions e text
        = ([Console Info "Getting grammar suggestions for text:"%string]
             ++ tk
             ++ [Console Info "Sending API request"%string;
                 Fetch (post_request e k (suggestions_prompt text) 30000)]
             ++ logged_before f
             ++ [Console Err "Error getting grammar suggestions:"%string],
           Throw (raised f)))
  /\ handled (analyzeSentiment_body e text) (analyzeSentiment e text)
       "Error analyzing sentiment:" neutral
  /\ handled (checkGrammarWithDetails_body e text) (checkGrammarWithDetails e text)
       "Error checking grammar with details:" no_mistakes
  /\ rethrown (getGrammarSuggestions_body e text) (getGrammarSuggestions e text)
       "Error getting grammar suggestions:"
  /\ (exists r, result (analyzeSentiment e text) = Ok r)
  /\ (exists v, result (checkGrammarWithDetails e text) = Ok v)
  /\ (forall l : list jsstring,
        result (getGrammarSuggestions e text) = Ok l ->
        (result (getApiKeyWithRetry_default e) = Ok [] /\ l = [no_key_message])
        \/ exists reply : jsstring,
             replies e (suggestions_prompt text) 30000 reply
             /\ l = List.map clean_line (numbered_lines reply)).
Proof.
  split; [intros tk k f; apply analyzeSentiment_fails|].
  split; [intros tk k f; apply checkGrammarWithDetails_fails|].
  split; [intros tk k reply; apply checkGrammarWithDetails_unparseable|].
  split; [intros tk k f; apply getGrammarSuggestions_fails|].
  split; [|split; [|split; [|split; [|split]]]].
  - unfold handled, analyzeSentiment.
    destruct (analyzeSentiment_body e text) as [t [r|err]]; reflexivity.
  - unfold handled, checkGrammarWithDetails.
    destruct (checkGrammarWithDetails_body e text) as [t [r|err]]; reflexivity.
  - unfold rethrown, getGrammarSuggestions.
    destruct (getGrammarSuggestions_body e text) as [t [r|err]]; reflexivity.
  - unfold analyzeSentiment.
    destruct (analyzeSentiment_body e text) as [t [r|err]]; cbn; eauto.
  - unfold checkGrammarWithDetails.
    destruct (checkGrammarWithDetails_body e text) as [t [r|err]]; cbn; eauto.
  - apply getGrammarSuggestions_returns.
Qed.

Lemma failures_are_logged_witness :
  fails server_error
    (post_request server_error (lit "k") (sentiment_prompt (lit "She go to school")) 15000)
    (HttpError {| ok := false; status := 500%N;
                  text_body := Ok (lit "boom"); json_body := Throw SyntaxError |})
  /\ analyzeSentiment server_error (lit "She go to school")
     = ([Fetch (post_request server_error (lit "k")
                  (sentiment_prompt (lit "She go to school")) 15000);
         Console Err "Error analyzing sentiment:"%string],
        Ok neutral)
  /\ result (checkGrammarWithDetails server_error (lit "She go to school"))
     = Ok no_mistakes.
Proof.
  destruct (failures_are_logged server_error (lit "She go to school"))
    as (Hs & Hd & _).
  assert (Hk : getApiKeyWithRetry_default server_error = ([], Ok (lit "k")))
    by reflexivity.
  assert (Hne : lit "k" <> []) by discriminate.
  split; [split; reflexivity|].
  split.
  - apply (Hs [] (lit "k")
             (HttpError {| ok := false; status := 500%N;
                           text_body := Ok (lit "boom");
                           json_body := Throw SyntaxError |}) Hk Hne).
    split; reflexivity.
  - rewrite (Hd [] (lit "k")
               (HttpError {| ok := false; status := 500%N;
                             text_body := Ok (lit "boom");
                             json_body := Throw SyntaxError |}) Hk Hne).
    + reflexivity.
    + split; reflexivity.
Defined.

(** ** Index sanitisation *)

Lemma strip_prefix_len (p s r : jsstring) :
  strip_prefix p s = Some r -> len s = len p + len r.
Proof.
  revert s. induction p as [|a p IH]; intros s; simpl.
  - intros [= ->]. unfold len; simpl. lia.
  - destruct s as [|b s]; [discriminate|].
    destruct (a =? b)%N; [|discriminate].
    intros H. apply IH in H. unfold len in *. simpl length. lia.
Qed.

Lemma indexOf_from_bounds (needle s : jsstring) :
  forall i p : Z,
    indexOf_from needle s i = p -> p <> -1 -> 0 <= i ->
    i <= p /\ (p - i) + len needle <= len s.
Proof.
  induction s as [|c r IH]; intros i p; simpl.
  - destruct (strip_prefix needle []) eqn:Hp.
    + intros <- _ Hi. apply strip_prefix_len in Hp.
      unfold len in *. simpl in *. lia.
    + intros <- H. congruence.
  - destruct (strip_prefix needle (c :: r)) eqn:Hp.
    + intros <- _ Hi. apply strip_prefix_len in Hp.
      unfold len in *. simpl length in *. lia.
    + intros H Hne Hi. destruct (IH (i + 1) p H Hne ltac:(lia)) as [H1 H2].
      unfold len in *. simpl length. lia.
Qed.

Lemma indexOf_bounds (s needle : jsstring) :
  indexOf s needle <> -1 ->
  0 <= indexOf s needle /\ indexOf s needle + len needle <= len s.
Proof.
  intros H. unfold indexOf in *.
  destruct (indexOf_from_bounds needle s 0 _ eq_refl H ltac:(lia)). lia.
Qed.

Lemma field_names_distinct :
  lit "end_index" <> lit "start_index"
  /\ lit "text" <> lit "start_index"
  /\ lit "text" <> lit "end_index"
  /\ lit "start_index" <> lit "end_index".
Proof. repeat split; vm_compute; discriminate. Qed.

(** What the sanitisation does achieve: a mistake with integer indices and
    a non-empty [text] comes back with a non-empty range inside a
    non-empty text. *)
Lemma fix_indices_in_bounds (e : env) (text : jsstring)
    (fields : list (jsstring * value)) (a b : Z) (m : jsstring) :
  text <> [] ->
  lookup_field (lit "start_index") fields = Num (Int a) ->
  lookup_field (lit "end_index") fields = Num (Int b) ->
  lookup_field (lit "text") fields = Str m ->
  m <> [] ->
  exists fixed,
    fix_indices e text (Obj fields) = Ok fixed /\ in_bounds text fixed.
Proof.
  intros Htext Ha Hb Hm Hne.
  destruct field_names_distinct as (Des & Dts & Dte & Dse).
  assert (Hlen : 1 <= len text).
  { destruct text; [congruence|]. unfold len. simpl length. lia. }
  unfold fix_indices.
  rewrite Ha. cbn [to_number num_min num_max num_add].
  rewrite (lookup_set_field_ne (lit "end_index") (lit "start_index")) by exact Des.
  rewrite Hb.
  cbn [to_number num_min num_max num_add].
  rewrite !lookup_set_field_ne by assumption. rewrite Hm.
  set (s0 := Z.max 0 (Z.min a (len text - 1))).
  set (e0 := Z.max (s0 + 1) (Z.min b (len text))).
  destruct (negb (eqb_str _ _)).
  - destruct (Z.eqb_spec (indexOf text m) (-1)) as [Heq|Hneq]; cbn [negb].
    + eexists. split; [reflexivity|].
      eexists _, s0, e0. split; [reflexivity|].
      rewrite lookup_set_field_ne, !lookup_set_field by exact Dse.
      repeat split; subst s0 e0; lia.
    + eexists. split; [reflexivity|].
      destruct (indexOf_bounds text m Hneq) as [H0 H1].
      eexists _, (indexOf text m), (indexOf text m + len m).
      split; [reflexivity|].
      rewrite lookup_set_field_ne, !lookup_set_field by exact Dse.
      assert (1 <= len m).
      { destruct m; [congruence|]. unfold len. simpl length. lia. }
      repeat split; lia.
  - eexists. split; [reflexivity|].
    eexists _, s0, e0. split; [reflexivity|].
    rewrite lookup_set_field_ne, !lookup_set_field by exact Dse.
    repeat split; subst s0 e0; lia.
Qed.

(** C9 at a failing input. For the text ["ab"] and a reply whose only
    mistake has the empty string as [text] and the indices 0 and 1,
    [checkGrammarWithDetails] returns that mistake with [start_index = 0]
    and [end_index = 0]: the range is empty, so
    [0 <= start_index < end_index <= text.length] does not hold. *)
Theorem index_sanitisation_empty_text :
  result (checkGrammarWithDetails
            (answering empty_text_reply parse_empty_text_reply) (lit "ab"))
  = Ok (Obj [(lit "words_with_mistakes", Arr [empty_text_mistake 0 0])])
  /\ ~ in_bounds (lit "ab") (empty_text_mistake 0 0).
Proof.
  split; [vm_compute; reflexivity|].
  intros (fields & s & e & [= <-] & Hs & He & Hb1 & Hb2 & Hb3).
  vm_compute in Hs, He. injection Hs as <-. injection He as <-. lia.
Qed.

(** Without indices in the reply, both come back as [NaN]. *)
Example index_sanitisation_missing_indices :
  result (checkGrammarWithDetails
            (answering no_indices_reply parse_no_indices_reply) (lit "ab"))
  = Ok (Obj [(lit "words_with_mistakes",
              Arr [Obj [(lit "text", Str (lit "zz"));
                        (lit "suggestion", Str (lit "a"));
                        (lit "start_index", Num NaN);
                        (lit "end_index", Num NaN)]])]).
Proof. vm_compute. reflexivity. Qed.

End ApiFacts.

(* ================================================================== *)
(** * Theorems: the grammar-check cache                                *)
(* ================================================================== *)

Module GrammarCheckFacts.
Import JS Eff Api GrammarCheck ApiProps ApiFacts GrammarCheckProps.
Local Open Scope eff_scope.

(** ** What checkGrammarWithDetails returns *)

Lemma well_shaped_no_mistakes : well_shaped no_mistakes.
Proof. exists [(lit "words_with_mistakes", Arr [])], []. split; reflexivity. Qed.

Lemma returns_bind {A} (m : M A) (f : A -> M value) :
  (forall a, returns_well_shaped (f a)) -> returns_well_shaped (bind m f).
Proof.
  intros H v. rewrite result_bind. destruct (result m); [apply H | discriminate].
Qed.

Lemma returns_throw (err : JS.error) : returns_well_shaped (throw err).
Proof. intros v. discriminate. Qed.

Lemma returns_ret (v : value) : well_shaped v -> returns_well_shaped (ret v).
Proof. intros H v' [= <-]. exact H. Qed.

Lemma checkGrammarWithDetails_body_shape (e : env) (text : jsstring) :
  returns_well_shaped (checkGrammarWithDetails_body e text).
Proof.
  unfold checkGrammarWithDetails_body.
  repeat first
    [ apply returns_throw
    | apply returns_ret, well_shaped_no_mistakes
    | apply returns_bind; intros ?
    | match goal with
      | |- returns_well_shaped (if ?c then _ else _) => destruct c
      | |- returns_well_shaped (match ?x with _ => _ end) => destruct x
      end ].
  apply returns_ret. eexists _, _. split; [reflexivity|].
  apply lookup_set_field.
Qed.

Lemma checkGrammarWithDetails_shape (e : env) (text : jsstring) :
  exists (t : list event) (fields : list (jsstring * value)) (mistakes : list value),
    checkGrammarWithDetails e text = (t, Ok (Obj fields))
    /\ lookup_field (lit "words_with_mistakes") fields = Arr mistakes.
Proof.
  pose proof (checkGrammarWithDetails_body_shape e text) as Hb.
  unfold checkGrammarWithDetails, returns_well_shaped in *.
  destruct (checkGrammarWithDetails_body e text) as [t [v|err]]; simpl in *.
  - destruct (Hb v eq_refl) as (fields & mistakes & -> & Hl).
    exists t, fields, mistakes. split; [reflexivity | exact Hl].
  - eexists _, _, []. split; reflexivity.
Qed.

(** ** The cache *)

Lemma omap_length {A B} (f : A -> option B) (l : list A) :
  (length (omap f l) <= length l)%nat.
Proof.
  induction l as [|a l IH]; [reflexivity|].
  cbn [omap list_omap]. destruct (f a); simpl; lia.
Qed.

(** One warning for each mistake that the validation drops. *)
Lemma warnings_count (mistakes : list value) :
  warnings mistakes
  = repeat (Console Warn "Invalid mistake object:"%string)
      (length mistakes - length (omap to_error mistakes)).
Proof.
  unfold warnings. induction mistakes as [|m ms IH]; [reflexivity|].
  cbn [flat_map omap list_omap]. pose proof (omap_length to_error ms) as Hle.
  destruct (to_error m); cbn [app length].
  - rewrite IH. reflexivity.
  - rewrite IH.
    replace (S (length ms) - length (omap to_error ms))%nat
      with (S (length ms - length (omap to_error ms))) by lia.
    reflexivity.
Qed.

Lemma warnings_quiet (mistakes : list value) : requests (warnings mistakes) = [].
Proof.
  unfold warnings. induction mistakes as [|m ms IH]; [reflexivity|].
  cbn [flat_map]. rewrite requests_app, IH.
  destruct (to_error m); reflexivity.
Qed.

Section Clock.
Variable clock : nat -> Z.

(** A call that goes to the API stores what it validated. *)
Lemma check_fresh_stores (e : env) (w : world) (text : jsstring) :
  exists (td : list event) (fields : list (jsstring * value)) (mistakes : list value),
    checkGrammarWithDetails e text = (td, Ok (Obj fields))
    /\ lookup_field (lit "words_with_mistakes") fields = Arr mistakes
    /\ check_fresh clock e w text =
       ([Console Info "Checking grammar for text:"%string] ++ td ++ warnings mistakes,
        omap to_error mistakes,
        {| grammarCheckCache :=
             <[text := {| errors := omap to_error mistakes;
                          timestamp := clock (clock_reads w) |}]>
               (grammarCheckCache w);
           clock_reads := S (clock_reads w) |}).
Proof.
  destruct (checkGrammarWithDetails_shape e text) as (td & fields & mistakes & Hc & Hl).
  exists td, fields, mistakes. repeat split; [exact Hc | exact Hl |].
  unfold check_fresh. rewrite Hc. cbn [get].
  change (lit "words_with_mistakes") with (lit "words_with_mistakes") in Hl.
  rewrite Hl. reflexivity.
Qed.

Lemma checkGrammar_keys (e : env) (w : world) (text k : jsstring) :
  (forall k', is_Some (grammarCheckCache w !! k') -> long_enough k') ->
  is_Some (grammarCheckCache (checkGrammar clock e w text).2 !! k) ->
  long_enough k.
Proof.
  intros Hinv. unfold checkGrammar.
  destruct (is_empty text || (len (trim text) <? 10)) eqn:Hg; [apply Hinv|].
  assert (Hfresh : forall w0,
            grammarCheckCache w0 = grammarCheckCache w ->
            is_Some (grammarCheckCache (check_fresh clock e w0 text).2 !! k) ->
            long_enough k).
  { intros w0 Hw0.
    destruct (check_fresh_stores e w0 text) as (td & fields & mistakes & _ & _ & ->).
    cbn [snd grammarCheckCache]. rewrite Hw0.
    destruct (decide (text = k)) as [<-|Hne].
    - intros _. exact Hg.
    - rewrite lookup_insert_ne by exact Hne. apply Hinv. }
  destruct (grammarCheckCache w !! text) as [c|] eqn:Hl.
  - cbn [Date_now]. destruct (_ - _ <? CACHE_EXPIRY_MS).
    + cbn [snd grammarCheckCache]. apply Hinv.
    + apply Hfresh. reflexivity.
  - apply Hfresh. reflexivity.
Qed.

(** Every key of a reachable cache passed the length guard. *)
Lemma reachable_keys (w : world) :
  reachable clock w ->
  forall k, is_Some (grammarCheckCache w !! k) -> long_enough k.
Proof.
  induction 1 as [|e w text _ IH]; intros k.
  - cbn. rewrite lookup_empty. intros [? ?]. discriminate.
  - apply checkGrammar_keys. exact IH.
Qed.

(** C2. [checkGrammar] keeps a cache keyed by the exact text, with a
    fixed expiry of 30 minutes. In every state the module can reach, if the
    cache holds an entry for the text: when the entry is less than
    [CACHE_EXPIRY_MS] old the call returns the cached errors and does
    nothing but log (no key lookup, no request); when it is not, the call
    runs [checkGrammarWithDetails] on the text, warns on the console once
    for each mistake that the validation drops, and stores the validated
    errors under the text with the time read after the check. *)
Theorem checkGrammar_cache (e : env) (w : world) (text : jsstring)
    (entry : cache_entry) :
  reachable clock w ->
  grammarCheckCache w !! text = Some entry ->
  CACHE_EXPIRY_MS = 1800000
  /\ (clock (clock_reads w) - timestamp entry < CACHE_EXPIRY_MS ->
      checkGrammar clock e w text =
      ([Console Info "Using cached grammar check result"%string],
       errors entry,
       {| grammarCheckCache := grammarCheckCache w;
          clock_reads := S (clock_reads w) |}))
  /\ (CACHE_EXPIRY_MS <= clock (clock_reads w) - timestamp entry ->
      exists (td : list event) (fields : list (jsstring * value))
             (mistakes : list value),
        checkGrammarWithDetails e text = (td, Ok (Obj fields))
        /\ lookup_field (lit "words_with_mistakes") fields = Arr mistakes
        /\ checkGrammar clock e w text =
           ([Console Info "Checking grammar for text:"%string] ++ td
              ++ repeat (Console Warn "Invalid mistake object:"%string)
                   (length mistakes - length (omap to_error mistakes)),
            omap to_error mistakes,
            {| grammarCheckCache :=
                 <[text := {| errors := omap to_error mistakes;
                              timestamp := clock (S (clock_reads w)) |}]>
                   (grammarCheckCache w);
               clock_reads := S (S (clock_reads w)) |})).
Proof.
  intros Hr Hl.
  assert (Hg : long_enough text).
  { apply (reachable_keys w Hr). rewrite Hl. eauto. }
  unfold long_enough in Hg.
  split; [reflexivity|].
  unfold checkGrammar. rewrite Hg, Hl. cbn [Date_now]. split.
  - intros Hage. apply Z.ltb_lt in Hage. rewrite Hage. reflexivity.
  - intros Hage. apply Z.ltb_ge in Hage. rewrite Hage.
    destruct (check_fresh_stores e
                {| grammarCheckCache := grammarCheckCache w;
                   clock_reads := S (clock_reads w) |} text)
      as (td & fields & mistakes & Hc & Hf & Hs).
    exists td, fields, mistakes. rewrite <- warnings_count.
    repeat split; assumption.
Qed.

End Clock.

(** ** Calls answered by [checker] *)

Lemma checker_details :
  checkGrammarWithDetails checker sample_text
  = ([Console Info "Checking grammar with detailed response for text:"%string;
      Console Info "Sending API request to:"%string;
      Fetch (post_request checker (lit "k") (details_prompt sample_text) 30000);
      Console Info "Received API response with status:"%string;
      Console Info "Parsed API response data:"%string],
     Ok (Obj [(lit "words_with_mistakes", Arr [was_mistake; walking_mistake])])).
Proof. vm_compute. reflexivity. Qed.

(** The first call in a fresh page, answered by [checker]: the complete
    mistake becomes an error, the other one a warning. *)
Lemma first_call_checker (clock : nat -> Z) :
  checkGrammar clock checker initial sample_text =
  (checker_trace, [was_error],
   {| grammarCheckCache :=
        <[sample_text := {| errors := [was_error]; timestamp := clock 0%nat |}]> ∅;
      clock_reads := 1 |}).
Proof.
  unfold checkGrammar.
  change (is_empty sample_text || (len (trim sample_text) <? 10)) with false.
  cbv iota. cbn [initial grammarCheckCache]. rewrite lookup_empty.
  destruct (check_fresh_stores clock checker initial sample_text)
    as (td & fields & mistakes & Hc & Hf & ->).
  rewrite checker_details in Hc. injection Hc as <- <-.
  vm_compute in Hf. injection Hf as <-.
  reflexivity.
Qed.

Lemma checkGrammar_cache_witness :
  let w := (checkGrammar ticking checker initial sample_text).2 in
  let w' := (checkGrammar hourly checker initial sample_text).2 in
  let entry := {| errors := [was_error]; timestamp := 0 |} in
  (reachable ticking w
   /\ grammarCheckCache w !! sample_text = Some entry
   /\ ticking (clock_reads w) - timestamp entry < CACHE_EXPIRY_MS
   /\ (checkGrammar ticking offline w sample_text).1
      = ([Console Info "Using cached grammar check result"%string], [was_error]))
  /\ (reachable hourly w'
      /\ grammarCheckCache w' !! sample_text = Some entry
      /\ CACHE_EXPIRY_MS <= hourly (clock_reads w') - timestamp entry
      /\ (checkGrammar hourly checker w' sample_text).1 = (checker_trace, [was_error])
      /\ grammarCheckCache (checkGrammar hourly checker w' sample_text).2 !! sample_text
         = Some {| errors := [was_error]; timestamp := 7200000 |}).
Proof.
  intros w w' entry.
  assert (Hw : w = {| grammarCheckCache := <[sample_text := entry]> ∅;
                      clock_reads := 1 |}).
  { subst w. rewrite first_call_checker. reflexivity. }
  assert (Hw' : w' = {| grammarCheckCache := <[sample_text := entry]> ∅;
                        clock_reads := 1 |}).
  { subst w'. rewrite first_call_checker. reflexivity. }
  assert (Hr : reachable ticking w) by (apply reachable_call, reachable_initial).
  assert (Hr' : reachable hourly w') by (apply reachable_call, reachable_initial).
  assert (Hl : grammarCheckCache w !! sample_text = Some entry).
  { rewrite Hw. cbn [grammarCheckCache]. apply lookup_insert_eq. }
  assert (Hl' : grammarCheckCache w' !! sample_text = Some entry).
  { rewrite Hw'. cbn [grammarCheckCache]. apply lookup_insert_eq. }
  assert (Hage : ticking (clock_reads w) - timestamp entry < CACHE_EXPIRY_MS).
  { rewrite Hw. vm_compute. reflexivity. }
  assert (Hage' : CACHE_EXPIRY_MS <= hourly (clock_reads w') - timestamp entry).
  { rewrite Hw'. vm_compute. discriminate. }
  split.
  - destruct (checkGrammar_cache ticking offline w sample_text entry Hr Hl)
      as (_ & Hhit & _).
    split; [exact Hr | split; [exact Hl | split; [exact Hage |]]].
    rewrite (Hhit Hage). reflexivity.
  - destruct (checkGrammar_cache hourly checker w' sample_text entry Hr' Hl')
      as (_ & _ & Hmiss).
    destruct (Hmiss Hage') as (td & fields & mistakes & Hc & Hf & Hcall).
    rewrite checker_details in Hc. injection Hc as <- <-.
    vm_compute in Hf. injection Hf as <-.
    split; [exact Hr' | split; [exact Hl' | split; [exact Hage' |]]].
    rewrite Hcall. split; [reflexivity|].
    cbn [snd grammarCheckCache]. rewrite lookup_insert_eq.
    rewrite Hw'. reflexivity.
Defined.

End GrammarCheckFacts.

(* ================================================================== *)
(** * Theorems: loading the API key                                    *)
(* ================================================================== *)

Module ConfigFacts.
Import JS Config ConfigProps.
Local Open Scope nat_scope.

Lemma without_length (i : nat) (l : list nat) :
  length (without i l) <= length l.
Proof.
  unfold without. induction l as [|j l IH]; simpl; [lia|].
  destruct (negb (i =? j)); simpl; lia.
Qed.

Lemma without_member (i : nat) (l : list nat) :
  member i l = true -> length (without i l) < length l.
Proof.
  unfold without, member. induction l as [|j l IH]; simpl; [discriminate|].
  pose proof (without_length i l) as Hle. unfold without in Hle.
  destruct (i =? j); simpl; [lia|].
  intros H. apply IH in H. lia.
Qed.

Ltac break_state st :=
  destruct st as [key url rc p att tl cl rt]; cbn in *.

Lemma eqb_str_refl (a : jsstring) : eqb_str a a = true.
Proof. unfold eqb_str. apply bool_decide_eq_true_2. reflexivity. Qed.

Ltac leb_facts :=
  repeat match goal with
  | H : (_ <=? _) = true |- _ => apply Nat.leb_le in H
  | H : (_ <=? _) = false |- _ => apply Nat.leb_gt in H
  | H : (_ <? _) = true |- _ => apply Nat.ltb_lt in H
  | H : (_ <? _) = false |- _ => apply Nat.ltb_ge in H
  end.

Ltac break_ifs :=
  repeat match goal with
  | |- context [if ?c then _ else _] => destruct c eqn:?; cbn
  end;
  leb_facts.

Ltac close_case :=
  repeat split; cbn in *; unfold maxRetries in *; intros;
  try discriminate; try contradiction; try congruence; try lia;
  try apply andb_false_r; try reflexivity; eauto.

Lemma timeout_facts (st : state) (i : nat) (next : chrome) :
  invariant st -> member i (timeouts st) = true ->
  invariant (on_timeout i next st)
  /\ measure (on_timeout i next st) < measure st
  /\ settles st (Timeout i next) (on_timeout i next st).
Proof.
  intros [H1 H2 H3 H4] Hm.
  pose proof (without_member i (timeouts st) Hm) as Hlt.
  unfold on_timeout, tryLoadApiKey, retry_later, resolve, settles, measure,
    maxRetries in *.
  break_state st.
  destruct next; destruct p; break_ifs; close_case.
Qed.

Lemma retry_facts (st : state) (next : chrome) :
  invariant st -> retries st <> 0 ->
  invariant (on_retry next st)
  /\ measure (on_retry next st) < measure st
  /\ settles st (Retry next) (on_retry next st).
Proof.
  intros [H1 H2 H3 H4] Hr.
  unfold on_retry, tryLoadApiKey, retry_later, resolve, settles, measure,
    maxRetries in *.
  break_state st.
  destruct rt as [|rt]; [congruence|]. cbn.
  destruct next; destruct p; break_ifs; close_case.
Qed.

Lemma callback_facts (st : state) (i : nat) (r : get_result) :
  invariant st -> member i (callbacks st) = true ->
  invariant (on_callback i r st)
  /\ measure (on_callback i r st) < measure st
  /\ settles st (Callback i r) (on_callback i r st).
Proof.
  intros [H1 H2 H3 H4] Hm.
  pose proof (without_member i (callbacks st) Hm) as Hlt.
  pose proof (without_length i (timeouts st)) as Hle.
  unfold on_callback, updateApiKey, set_key, retry_later, resolve, settles,
    measure, maxRetries in *.
  break_state st. destruct r as [le k]; cbn.
  destruct le; cbn.
  - destruct p; break_ifs; close_case.
  - destruct k as [|c k]; cbn.
    + destruct p; close_case.
    + rewrite eqb_str_refl. cbn. destruct p; close_case.
Qed.

Lemma step_facts (st st' : state) (ev : event) :
  invariant st -> step st ev = Some st' ->
  invariant st' /\ measure st' < measure st /\ settles st ev st'.
Proof.
  intros Hinv. destruct ev as [i next|i r|next]; cbn.
  - destruct (member i (timeouts st)) eqn:Hm; [|discriminate].
    intros [= <-]. apply timeout_facts; assumption.
  - destruct (member i (callbacks st)) eqn:Hm; [|discriminate].
    intros [= <-]. apply callback_facts; assumption.
  - destruct (retries st) as [|n] eqn:Hr; [discriminate|].
    intros [= <-]. apply retry_facts; [assumption | lia].
Qed.

Lemma loadApiKey_invariant (key url : jsstring) (first : chrome) :
  invariant (loadApiKey key url first)
  /\ measure (loadApiKey key url first) <= 14
  /\ settled (loadApiKey key url first) <> Resolved true.
Proof.
  unfold loadApiKey, tryLoadApiKey, retry_later, resolve, measure, maxRetries.
  destruct first; cbn; break_ifs; close_case.
Qed.

Lemma run_facts (evs : list event) :
  forall st st' : state,
    invariant st -> run st evs = Some st' ->
    invariant st' /\ length evs + measure st' <= measure st.
Proof.
  induction evs as [|ev rest IH]; intros st st' Hinv; simpl.
  - intros [= <-]. split; [assumption | lia].
  - destruct (step st ev) as [s1|] eqn:Hs; [|discriminate].
    destruct (step_facts st s1 ev Hinv Hs) as (Hinv1 & Hm & _).
    intros Hr. destruct (IH s1 st' Hinv1 Hr) as (Hinv' & Hlen).
    split; [assumption | lia].
Qed.

Lemma run_keeps (evs : list event) :
  forall st st' : state,
    invariant st -> settled st <> Pending -> run st evs = Some st' ->
    settled st' = settled st.
Proof.
  induction evs as [|ev rest IH]; intros st st' Hinv Hp; simpl.
  - intros [= <-]. reflexivity.
  - destruct (step st ev) as [s1|] eqn:Hs; [|discriminate].
    destruct (step_facts st s1 ev Hinv Hs) as (Hinv1 & _ & Hkeep & _).
    intros Hr. rewrite <- (Hkeep Hp).
    apply IH; [assumption | rewrite (Hkeep Hp); assumption | assumption].
Qed.

Lemma loads_key_callback (i : nat) (r : get_result) :
  loads_key (Callback i r) = true <-> lastError r = false /\ googleApiKey r <> [].
Proof.
  cbn. destruct (lastError r); destruct (googleApiKey r); cbn; split;
    try discriminate; try (intros [? ?]; congruence); intros _; split; congruence.
Qed.

Lemma run_resolved_true (evs : list event) :
  forall st0 st : state,
    invariant st0 -> settled st0 <> Resolved true -> run st0 evs = Some st ->
    (settled st = Resolved true <-> loaded_while_pending st0 evs).
Proof.
  induction evs as [|ev rest IH]; intros st0 st Hinv Hnt; simpl.
  - intros [= <-]. split; [contradiction|].
    intros (pre & i & r & post & st1 & st2 & He & _). destruct pre; discriminate.
  - destruct (step st0 ev) as [s1|] eqn:Hs; [|discriminate].
    destruct (step_facts st0 s1 ev Hinv Hs) as (Hinv1 & _ & Hkeep & Hpend).
    intros Hr. split.
    + intros Htrue.
      destruct (decide (settled s1 = Resolved true)) as [H1|H1].
      * assert (Hp : settled st0 = Pending).
        { destruct (decide (settled st0 = Pending)) as [|Hnp]; [assumption|].
          rewrite (Hkeep Hnp) in H1. contradiction. }
        destruct (Hpend Hp) as (Hiff & Hkey).
        apply Hiff in H1. destruct (Hkey H1) as (i & r & -> & Hk).
        apply loads_key_callback in H1 as [Hle Hne].
        exists [], i, r, rest, st0, s1. repeat split; assumption.
      * apply (IH s1 st Hinv1 H1 Hr) in Htrue
          as (pre & i & r & post & st1 & st2 & -> & Hrun & H).
        exists (ev :: pre), i, r, post, st1, st2.
        split; [reflexivity|]. split; [|exact H].
        simpl. rewrite Hs. exact Hrun.
    + intros (pre & i & r & post & st1 & st2 & He & Hrun & Hp & Hle & Hne & Hst & Hk).
      destruct pre as [|e0 pre]; simpl in He, Hrun.
      * injection He as Hev Hrest. subst ev post. injection Hrun as <-.
        destruct (Hpend Hp) as (Hiff & _).
        assert (H1 : settled s1 = Resolved true).
        { apply Hiff. apply loads_key_callback. split; assumption. }
        rewrite <- H1. eapply run_keeps; [exact Hinv1 | | exact Hr].
        rewrite H1. discriminate.
      * injection He as Hev Hrest. subst e0 rest. rewrite Hs in Hrun.
        destruct (decide (settled s1 = Resolved true)) as [H1|H1].
        -- rewrite <- H1. eapply run_keeps; [exact Hinv1 | | exact Hr].
           rewrite H1. discriminate.
        -- apply (IH s1 st Hinv1 H1 Hr).
           exists pre, i, r, post, st1, st2. repeat split; assumption.
Qed.

Lemma pending_has_timer (st : state) :
  invariant st -> settled st = Pending ->
  exists (ev : event) (st' : state), is_timer ev = true /\ step st ev = Some st'.
Proof.
  intros [_ _ _ Hlive] Hp. specialize (Hlive Hp).
  unfold timers_idle in Hlive.
  destruct (timeouts st) as [|i l] eqn:Ht.
  - destruct (retries st) as [|n] eqn:Hr; [discriminate|].
    exists (Retry GetAccepted), (on_retry GetAccepted st).
    split; [reflexivity|]. cbn. rewrite Hr. reflexivity.
  - exists (Timeout i GetAccepted), (on_timeout i GetAccepted st).
    split; [reflexivity|]. cbn. rewrite Ht. cbn. rewrite Nat.eqb_refl. reflexivity.
Qed.



(** All four reads time out, so the promise is resolved with [false];
    the answer to the first read arrives afterwards and sets the key. *)
Example late_callback_sets_key :
  match run (loadApiKey [] [] GetAccepted)
          [Timeout 1 GetAccepted; Timeout 2 GetAccepted; Timeout 3 GetAccepted;
           Timeout 4 GetAccepted;
           Callback 1 {| lastError := false; googleApiKey := lit "AIza" |}] with
  | Some st => settled st = Resolved false /\ GEMINI_API_KEY st = lit "AIza"
  | None => False
  end.
Proof. vm_compute. split; reflexivity. Qed.

End ConfigFacts.

(* ================================================================== *)
(** * Theorems: the API layer beyond the claims                        *)
(* ================================================================== *)

Module ApiMoreFacts.
Import JS Eff Api ApiProps ApiMoreProps ApiFacts.
Local Open Scope eff_scope.

Lemma key_loop_polls (e : env) (m : nat) (d : Z) (todo : nat) :
  forall a : nat,
    (a + todo = m)%nat ->
    exists (c : nat) (k : jsstring),
      key_loop e m d todo a = (repeat (Wait d) c, Ok k)
      /\ (forall j, (j < c)%nat -> poll e (a + j) = [])
      /\ (k <> [] -> (c < todo)%nat /\ poll e (a + c) = k)
      /\ (k = [] -> c = (todo - 1)%nat /\ forall j, (j < todo)%nat -> poll e (a + j) = []).
Proof.
  induction todo as [|todo IH]; intros a Ha.
  - exists 0%nat, []. simpl. repeat split; try lia; try congruence; intros; lia.
  - cbn [key_loop].
    assert (Hpoll : poll e a =
                    let c := match config_getApiKey e with
                             | Some g => g a | None => [] end in
                    if negb (is_empty c) then c
                    else match global_api_key e with
                         | Some k => k a | None => [] end) by reflexivity.
    cbv zeta in Hpoll. revert Hpoll.
    destruct (negb (is_empty (match config_getApiKey e with
                              | Some g => g a | None => [] end))) eqn:H1; intros Hpoll.
    { exists 0%nat, (match config_getApiKey e with Some g => g a | None => [] end).
      rewrite Nat.add_0_r.
      split; [reflexivity|]. split; [intros; lia|]. split.
      - intros _. split; [lia | exact Hpoll].
      - intros Hk. rewrite Hk in H1. discriminate. }
    revert Hpoll.
    destruct (negb (is_empty (match global_api_key e with
                              | Some k => k a | None => [] end))) eqn:H2; intros Hpoll.
    { exists 0%nat, (match global_api_key e with Some k => k a | None => [] end).
      rewrite Nat.add_0_r.
      split; [reflexivity|]. split; [intros; lia|]. split.
      - intros _. split; [lia | exact Hpoll].
      - intros Hk. rewrite Hk in H2. discriminate. }
    assert (Hempty : poll e a = []).
    { rewrite Hpoll. destruct (match global_api_key e with
                               | Some k => k a | None => [] end); [reflexivity | discriminate]. }
    clear Hpoll.
    destruct (IH (S a) ltac:(lia)) as (c & k & Hk & Hbefore & Hfound & Hnone).
    destruct (Nat.ltb_spec a (m - 1)) as [Hlt|Hge].
    + exists (S c), k. unfold emit. rewrite bind_ok, Hk. simpl.
      split; [reflexivity|]. split; [|split].
      * intros j Hj. destruct j as [|j]; [rewrite Nat.add_0_r; exact Hempty|].
        replace (a + S j)%nat with (S a + j)%nat by lia. apply Hbefore. lia.
      * intros Hne. destruct (Hfound Hne) as [Hc Hp].
        split; [lia|]. replace (a + S c)%nat with (S a + c)%nat by lia. exact Hp.
      * intros Hnil. destruct (Hnone Hnil) as [Hc Hall]. split; [lia|].
        intros j Hj. destruct j as [|j]; [rewrite Nat.add_0_r; exact Hempty|].
        replace (a + S j)%nat with (S a + j)%nat by lia. apply Hall. lia.
    + assert (todo = 0%nat) by lia. subst todo.
      exists 0%nat, []. unfold ret. rewrite bind_ok. simpl.
      split; [reflexivity|]. split; [intros; lia|]. split; [congruence|].
      intros _. split; [reflexivity|].
      intros j Hj. assert (j = 0%nat) by lia. subst j.
      rewrite Nat.add_0_r. exact Hempty.
Qed.

(** X1. [getApiKeyWithRetry] never throws and does nothing but wait: it
    returns the key of the first poll that reads a non-empty one (the
    config object before the global), after one wait of [retryDelay] per
    empty poll before it; when all [maxRetries] polls are empty it returns
    the empty string after [maxRetries - 1] waits. *)
Theorem getApiKeyWithRetry_first_key (e : env) (maxRetries : nat) (retryDelay : Z) :
  exists (waits : nat) (k : jsstring),
    getApiKeyWithRetry e maxRetries retryDelay = (repeat (Wait retryDelay) waits, Ok k)
    /\ (forall j, (j < waits)%nat -> poll e j = [])
    /\ (k <> [] -> (waits < maxRetries)%nat /\ poll e waits = k)
    /\ (k = [] -> waits = (maxRetries - 1)%nat
                  /\ forall j, (j < maxRetries)%nat -> poll e j = []).
Proof.
  unfold getApiKeyWithRetry.
  destruct (key_loop_polls e maxRetries retryDelay maxRetries 0%nat eq_refl)
    as (c & k & Hk & H1 & H2 & H3).
  exists c, k. repeat split; auto.
  - apply H2. assumption.
  - apply H2. assumption.
  - apply H3. assumption.
  - apply H3. assumption.
Qed.

(** X2. Whatever the environment does, [checkGrammarWithDetails] returns
    normally, and what it returns is an object whose [words_with_mistakes]
    is an array. *)
Theorem checkGrammarWithDetails_returns_array (e : env) (text : jsstring) :
  exists (fields : list (jsstring * value)) (mistakes : list value),
    result (checkGrammarWithDetails e text) = Ok (Obj fields)
    /\ get (Obj fields) (Name "words_with_mistakes") = Ok (Arr mistakes).
Proof.
  destruct (GrammarCheckFacts.checkGrammarWithDetails_shape e text)
    as (t & fields & mistakes & Hc & Hl).
  exists fields, mistakes. rewrite Hc. split; [reflexivity|].
  cbn [get]. rewrite Hl. reflexivity.
Qed.

Lemma map_fix_indices_in_bounds (e : env) (text : jsstring) (mistakes : list value) :
  text <> [] ->
  Forall well_formed_mistake mistakes ->
  exists fixed : list value,
    map_outcome (fix_indices e text) mistakes = Ok fixed
    /\ length fixed = length mistakes
    /\ Forall (in_bounds text) fixed.
Proof.
  intros Htext. induction 1 as [|m ms Hm _ IH]; simpl.
  - exists []. repeat split; constructor.
  - destruct Hm as (fields & a & b & t & -> & Ha & Hb & Ht & Hne).
    destruct (fix_indices_in_bounds e text fields a b t Htext Ha Hb Ht Hne)
      as (f & Hf & Hin).
    destruct IH as (fs & Hfs & Hlen & Hall).
    rewrite Hf, Hfs. exists (f :: fs). repeat split.
    + simpl. congruence.
    + constructor; assumption.
Qed.

(** X3. For a non-empty text, when the reply parses to an object whose
    mistakes are all objects with integer indices and a non-empty [text],
    [checkGrammarWithDetails] returns that object with as many mistakes,
    each with [0 <= start_index < end_index <= text.length]. *)
Theorem checkGrammarWithDetails_sanitises (e : env) (text reply block : jsstring)
    (fields : list (jsstring * value)) (mistakes : list value) :
  text <> [] ->
  replies e (details_prompt text) 30000 reply ->
  json_block reply = Some block ->
  JSON_parse e block = Ok (Obj fields) ->
  lookup_field (lit "words_with_mistakes") fields = Arr mistakes ->
  Forall well_formed_mistake mistakes ->
  exists fixed : list value,
    result (checkGrammarWithDetails e text)
    = Ok (Obj (set_field (lit "words_with_mistakes") (Arr fixed) fields))
    /\ length fixed = length mistakes
    /\ Forall (in_bounds text) fixed.
Proof.
  intros Htext H Hb Hp Hl Hwf.
  destruct (map_fix_indices_in_bounds e text mistakes Htext Hwf)
    as (fixed & Hfix & Hlen & Hall).
  exists fixed. split; [|split; assumption].
  unfold checkGrammarWithDetails, checkGrammarWithDetails_body.
  rewrite result_try_catch. run_call H.
  rewrite Hb. rewrite result_bind. cbn [lift result snd]. rewrite Hp.
  rewrite result_bind. cbn [lift result snd get]. rewrite Hl.
  rewrite result_bind. cbn [lift result snd]. rewrite Hfix. reflexivity.
Qed.

Lemma checkGrammarWithDetails_sanitises_witness :
  let e := answering was_reply parse_was_reply in
  let text := lit "They was walking" in
  result (checkGrammarWithDetails e text)
  = Ok (Obj [(lit "words_with_mistakes", Arr [was_mistake 5 8])])
  /\ in_bounds text (was_mistake 5 8).
Proof.
  intros e text.
  assert (Htext : text <> []) by (vm_compute; discriminate).
  assert (Hwf : Forall well_formed_mistake [was_mistake 50 80]).
  { constructor; [|constructor].
    eexists _, 50, 80, (lit "was"). split; [reflexivity|].
    repeat split; try reflexivity. vm_compute. discriminate. }
  destruct (checkGrammarWithDetails_sanitises e text was_reply was_reply
              [(lit "words_with_mistakes", Arr [was_mistake 50 80])]
              [was_mistake 50 80] Htext
              (answering_replies was_reply (details_prompt text) 30000 parse_was_reply)
              ltac:(vm_compute; reflexivity) ltac:(vm_compute; reflexivity)
              ltac:(vm_compute; reflexivity) Hwf)
    as (fixed & Hres & Hlen & Hall).
  assert (Hv : result (checkGrammarWithDetails e text)
               = Ok (Obj [(lit "words_with_mistakes", Arr [was_mistake 5 8])]))
    by (vm_compute; reflexivity).
  split; [exact Hv|].
  rewrite Hv in Hres. injection Hres as Hres.
  assert (Hfixed : fixed = [was_mistake 5 8]).
  { destruct fixed as [|f [|? ?]]; try discriminate.
    vm_compute in Hres. injection Hres as <-. reflexivity. }
  rewrite Hfixed in Hall. inversion Hall; assumption.
Defined.

Lemma strip_prefix_app (p s r : jsstring) :
  strip_prefix p s = Some r -> s = p ++ r.
Proof.
  revert s. induction p as [|a p IH]; intros s; simpl.
  - intros [= ->]. reflexivity.
  - destruct s as [|b s]; [discriminate|].
    destruct (N.eqb_spec a b) as [->|]; [|discriminate].
    intros H. rewrite (IH _ H). reflexivity.
Qed.

Lemma indexOf_from_occurrence (needle s : jsstring) :
  forall i p : Z,
    indexOf_from needle s i = p -> p <> -1 -> 0 <= i ->
    exists pre rest : jsstring,
      s = pre ++ needle ++ rest /\ len pre = p - i.
Proof.
  induction s as [|c r IH]; intros i p; simpl.
  - destruct (strip_prefix needle []) eqn:Hp.
    + intros <- _ _. apply strip_prefix_app in Hp.
      exists [], l. split; [exact Hp | unfold len; simpl; lia].
    + intros <- H. congruence.
  - destruct (strip_prefix needle (c :: r)) eqn:Hp.
    + intros <- _ _. apply strip_prefix_app in Hp.
      exists [], l. split; [exact Hp | unfold len; simpl; lia].
    + intros H Hne Hi.
      destruct (IH (i + 1) p H Hne ltac:(lia)) as (pre & rest & -> & Hlen).
      exists (c :: pre), rest. split; [reflexivity|].
      unfold len in *. simpl length. lia.
Qed.

(** [text.substring(p, p + needle.length)] at the place [indexOf] found
    is [needle]. *)
Lemma substring_at_indexOf (s needle : jsstring) :
  indexOf s needle <> -1 ->
  substring s (Int (indexOf s needle)) (Int (indexOf s needle + len needle)) = needle.
Proof.
  intros H. unfold indexOf in *.
  destruct (indexOf_from_occurrence needle s 0 _ eq_refl H ltac:(lia))
    as (pre & rest & Hs & Hlen).
  set (p := indexOf_from needle s 0) in *.
  assert (Hp : p = len pre) by lia. clearbody p. subst p.
  unfold substring, to_index. rewrite Hs. unfold len in *.
  rewrite !length_app.
  replace (Z.min (Z.max (Z.of_nat (length pre)) 0) _) with (Z.of_nat (length pre)) by lia.
  replace (Z.min (Z.max (Z.of_nat (length pre) + Z.of_nat (length needle)) 0) _)
    with (Z.of_nat (length pre) + Z.of_nat (length needle)) by lia.
  rewrite Z.min_l, Z.max_r by lia.
  replace (Z.to_nat (Z.of_nat (length pre) + Z.of_nat (length needle) - Z.of_nat (length pre)))
    with (length needle) by lia.
  rewrite Nat2Z.id, drop_app_length, take_app_length. reflexivity.
Qed.

(** X4. When the mistake's [text] occurs in the checked text, the range
    [fix_indices] returns holds that text up to surrounding white space:
    either the clamped range already did, or the range is moved to the
    first occurrence, where [text.substring(start_index, end_index)] is
    the mistake's text itself. *)
Theorem fix_indices_finds_text (e : env) (text : jsstring)
    (fields : list (jsstring * value)) (a b : Z) (m : jsstring) :
  lookup_field (lit "start_index") fields = Num (Int a) ->
  lookup_field (lit "end_index") fields = Num (Int b) ->
  lookup_field (lit "text") fields = Str m ->
  indexOf text m <> -1 ->
  exists (fixed : list (jsstring * value)) (s' e' : Z),
    fix_indices e text (Obj fields) = Ok (Obj fixed)
    /\ lookup_field (lit "start_index") fixed = Num (Int s')
    /\ lookup_field (lit "end_index") fixed = Num (Int e')
    /\ lookup_field (lit "text") fixed = Str m
    /\ trim (substring text (Int s') (Int e')) = trim m
    /\ (trim (substring text
                (Int (Z.max 0 (Z.min a (len text - 1))))
                (Int (Z.max (Z.max 0 (Z.min a (len text - 1)) + 1) (Z.min b (len text)))))
        <> trim m ->
        s' = indexOf text m /\ substring text (Int s') (Int e') = m).
Proof.
  intros Ha Hb Hm Hocc.
  destruct field_names_distinct as (Des & Dts & Dte & Dse).
  unfold fix_indices.
  rewrite Ha. cbn [to_number num_min num_max num_add].
  rewrite (lookup_set_field_ne (lit "end_index") (lit "start_index")) by exact Des.
  rewrite Hb. cbn [to_number num_min num_max num_add].
  rewrite !lookup_set_field_ne by assumption. rewrite Hm.
  set (s0 := Z.max 0 (Z.min a (len text - 1))).
  set (e0 := Z.max (s0 + 1) (Z.min b (len text))).
  destruct (eqb_str (trim (substring text (Int s0) (Int e0))) (trim m)) eqn:Heq;
    cbn [negb].
  - apply bool_decide_eq_true in Heq.
    eexists _, s0, e0. split; [reflexivity|].
    rewrite lookup_set_field_ne, !lookup_set_field by exact Dse.
    rewrite !lookup_set_field_ne by assumption.
    do 4 (split; [first [reflexivity | assumption]|]).
    intros Hne. contradiction.
  - destruct (Z.eqb_spec (indexOf text m) (-1)) as [|_]; [contradiction|]. cbn [negb].
    eexists _, (indexOf text m), (indexOf text m + len m). split; [reflexivity|].
    rewrite lookup_set_field_ne, !lookup_set_field by exact Dse.
    rewrite !lookup_set_field_ne by assumption.
    rewrite substring_at_indexOf by exact Hocc.
    do 4 (split; [first [reflexivity | assumption]|]).
    intros _. split; reflexivity.
Qed.

Lemma fix_indices_finds_text_witness :
  indexOf (lit "They was walking") (lit "was") <> -1
  /\ exists (fixed : list (jsstring * value)),
       fix_indices (answering was_reply parse_was_reply) (lit "They was walking")
         (was_mistake 50 80) = Ok (Obj fixed)
       /\ lookup_field (lit "start_index") fixed = Num (Int 5)
       /\ lookup_field (lit "end_index") fixed = Num (Int 8).
Proof.
  assert (Hocc : indexOf (lit "They was walking") (lit "was") <> -1)
    by (vm_compute; discriminate).
  split; [exact Hocc|].
  destruct (fix_indices_finds_text (answering was_reply parse_was_reply)
              (lit "They was walking")
              [(lit "text", Str (lit "was")); (lit "suggestion", Str (lit "were"));
               (lit "start_index", Num (Int 50)); (lit "end_index", Num (Int 80))]
              50 80 (lit "was") eq_refl eq_refl eq_refl Hocc)
    as (fixed & s' & e' & Hf & Hs & He & _).
  exists fixed. split; [exact Hf|].
  vm_compute in Hf. injection Hf as <-. split; reflexivity.
Defined.

(** The key that arrives with the third poll is returned after two waits
    of one second. *)
Example getApiKeyWithRetry_late_key :
  getApiKeyWithRetry_default late_key = ([Wait 1000; Wait 1000], Ok (lit "k")).
Proof. reflexivity. Qed.

End ApiMoreFacts.

(* ================================================================== *)
(** * Theorems: checkGrammar and checkGrammarDetailed beyond the claims *)
(* ================================================================== *)

Module GrammarCheckMoreFacts.
Import JS Eff Api GrammarCheck Detailed ApiProps ApiFacts GrammarCheckProps
  GrammarCheckFacts ApiMoreProps GrammarCheckMoreProps.
Local Open Scope eff_scope.

(** ** Waits *)

Lemma waits_app (t1 t2 : list event) : waits (t1 ++ t2) = waits t1 ++ waits t2.
Proof. unfold waits. apply omap_app. Qed.

Lemma waits_bind {A B} (m : M A) (f : A -> M B) :
  waits (trace (bind m f)) =
  waits (trace m) ++
  match result m with
  | Ok a => waits (trace (f a))
  | Throw _ => []
  end.
Proof.
  destruct m as [t [a|err]].
  - rewrite bind_ok. unfold trace, result; simpl. apply waits_app.
  - unfold trace; simpl. symmetry. apply app_nil_r.
Qed.

Lemma waits_try_catch {A} (m : M A) (h : JS.error -> M A) :
  waits (trace (try_catch m h)) =
  waits (trace m) ++
  match result m with
  | Ok _ => []
  | Throw err => waits (trace (h err))
  end.
Proof.
  destruct m as [t [a|err]]; unfold try_catch, trace; simpl.
  - symmetry. apply app_nil_r.
  - destruct (h err) as [t' r]. simpl. apply waits_app.
Qed.

Ltac calm :=
  repeat first
    [ rewrite waits_bind
    | rewrite waits_try_catch
    | progress cbn [trace result fst snd waits omap app console_log
                    console_warn console_error emit ret throw lift]
    | match goal with
      | |- context [match ?x with _ => _ end] => destruct x
      end ];
  try reflexivity.

Lemma first_candidate_text_calm (data : value) (missing : string) :
  waits (trace (first_candidate_text data missing)) = [].
Proof. unfold first_candidate_text. calm. Qed.

Lemma post_calm (e : env) (k prompt : jsstring) (timeout : Z) :
  waits (trace (post e k prompt timeout)) = [].
Proof. unfold post, fetch. rewrite waits_bind. reflexivity. Qed.

(** The only waits of [checkGrammarWithDetails] are those of the key
    lookup. *)
Lemma checkGrammarWithDetails_waits (e : env) (text : jsstring) :
  waits (trace (checkGrammarWithDetails e text))
  = waits (trace (getApiKeyWithRetry_default e)).
Proof.
  unfold checkGrammarWithDetails, checkGrammarWithDetails_body.
  destruct (getApiKeyWithRetry_total e) as (t & k & Hk & _).
  generalize (details_prompt text); intros prompt.
  rewrite waits_try_catch, !waits_bind, Hk.
  cbn [trace result fst snd].
  destruct k as [|c k]; cbn [is_empty].
  - calm; rewrite ?app_nil_r; reflexivity.
  - rewrite !waits_bind, post_calm.
    calm; rewrite ?first_candidate_text_calm, ?app_nil_r; reflexivity.
Qed.

(** ** checkGrammarDetailed *)

Lemma sent_length (e : env) (prompt : jsstring) (timeout : Z) :
  (length (sent e prompt timeout) <= 1)%nat.
Proof.
  unfold sent. destruct (result (getApiKeyWithRetry_default e)) as [k|]; [|simpl; lia].
  destruct (is_empty k); simpl; lia.
Qed.

Lemma key_at_first_poll (e : env) (getApiKey : nat -> jsstring) :
  config_getApiKey e = Some getApiKey ->
  is_empty (getApiKey 0%nat) = false ->
  getApiKeyWithRetry_default e = ([], Ok (getApiKey 0%nat)).
Proof.
  intros Hc Hk. unfold getApiKeyWithRetry_default, getApiKeyWithRetry.
  cbn [key_loop]. rewrite Hc, Hk. reflexivity.
Qed.

(** X5. [checkGrammarDetailed] always returns an object whose
    [words_with_mistakes] is an array; it never waits on the retry timer
    and sends at most one request; and when the config object holds no
    key it sends none, whether or not the global key is set. *)
Theorem checkGrammarDetailed_quick (e : env) (text : jsstring) :
  (exists (fields : list (jsstring * value)) (mistakes : list value),
     result (checkGrammarDetailed e text) = Ok (Obj fields)
     /\ lookup_field (lit "words_with_mistakes") fields = Arr mistakes)
  /\ waits (trace (checkGrammarDetailed e text)) = []
  /\ (length (requests (trace (checkGrammarDetailed e text))) <= 1)%nat
  /\ (match config_getApiKey e with
      | Some getApiKey => getApiKey 0%nat = []
      | None => True
      end -> requests (trace (checkGrammarDetailed e text)) = []).
Proof.
  unfold checkGrammarDetailed.
  assert (Hnone : exists (fields : list (jsstring * value)) (mistakes : list value),
             Ok no_mistakes = Ok (Obj fields)
             /\ lookup_field (lit "words_with_mistakes") fields = Arr mistakes).
  { eexists _, []. split; reflexivity. }
  destruct (is_empty text || (len (trim text) <? 10)).
  { cbn. repeat split; auto; lia. }
  rewrite result_try_catch, waits_try_catch, requests_try_catch.
  rewrite !result_bind, !waits_bind, !requests_bind.
  cbn [console_log emit result trace fst snd waits requests omap app].
  destruct (config_getApiKey e) as [getApiKey|] eqn:Hc; cbn [negb];
    [destruct (is_empty (getApiKey 0%nat)) eqn:Hk; cbn [negb]|].
  - (* the config object has no key *)
    cbn. repeat split; auto; lia.
  - (* it has one *)
    destruct (checkGrammarWithDetails_shape e text)
      as (t & fields & mistakes & Hcall & Hl).
    rewrite !result_bind, !waits_bind, !requests_bind.
    rewrite checkGrammarWithDetails_waits, checkGrammarWithDetails_requests.
    rewrite (key_at_first_poll e getApiKey Hc Hk).
    rewrite Hcall. cbn [result trace fst snd truthy lift get waits omap app].
    rewrite Hl.
    rewrite !result_bind, !waits_bind, !requests_bind.
    cbn [result trace fst snd lift ret waits requests omap app].
    rewrite !app_nil_r.
    split; [exists fields, mistakes; split; [reflexivity | exact Hl]|].
    split; [reflexivity|].
    split; [apply sent_length|].
    intros Hempty. rewrite Hempty in Hk. discriminate.
  - cbn. repeat split; auto; lia.
Qed.

(** With only the global key set, [checkGrammarWithDetails] would send a
    request; [checkGrammarDetailed] does not call it. *)
Example checkGrammarDetailed_ignores_global_key :
  requests (trace (checkGrammarDetailed global_key_only sample_text)) = []
  /\ length (requests (trace (checkGrammarWithDetails global_key_only sample_text))) = 1%nat.
Proof. split; vm_compute; reflexivity. Qed.

(** ** checkGrammar *)

Lemma to_error_valid (mistake : value) (err : grammar_error) :
  to_error mistake = Some err -> valid_error err.
Proof.
  unfold to_error, valid_error.
  destruct mistake as [| | | | | |fields]; try discriminate.
  destruct (lookup_field (lit "text") fields); try discriminate.
  destruct (lookup_field (lit "suggestion") fields); try discriminate.
  destruct (lookup_field (lit "start_index") fields) as [| | |a| | |]; try discriminate.
  destruct (lookup_field (lit "end_index") fields) as [| | |b| | |]; try discriminate.
  destruct (num_lt a (Int 0)) eqn:H1; [discriminate|].
  destruct (num_le b a) eqn:H2; [discriminate|].
  cbn [orb]. intros [= <-]. split; assumption.
Qed.

Lemma omap_to_error_valid (mistakes : list value) :
  Forall valid_error (omap to_error mistakes).
Proof.
  induction mistakes as [|m ms IH]; [constructor|].
  cbn [omap list_omap]. destruct (to_error m) as [err|] eqn:Hm; [|exact IH].
  constructor; [exact (to_error_valid m err Hm) | exact IH].
Qed.

Section Clock.
Variable clock : nat -> Z.

(** X6. A call of [checkGrammar] sends at most one request; on an empty
    text, or one whose trimmed length is below 10, it returns the empty
    list at once and leaves the cache and the clock alone. *)
Theorem checkGrammar_at_most_one_request (e : env) (w : world) (text : jsstring) :
  (length (requests (checkGrammar clock e w text).1.1) <= 1)%nat
  /\ (is_empty text || (len (trim text) <? 10) = true ->
      checkGrammar clock e w text =
      ([Console Info "Text is too short for grammar check"%string], [], w)).
Proof.
  unfold checkGrammar. destruct (is_empty text || (len (trim text) <? 10)).
  { split; [cbn; lia | reflexivity]. }
  split; [|discriminate].
  assert (Hfresh : forall w0,
            (length (requests (check_fresh clock e w0 text).1.1) <= 1)%nat).
  { intros w0.
    destruct (check_fresh_stores clock e w0 text)
      as (td & fields & mistakes & Hc & _ & ->).
    cbn [fst snd]. rewrite !requests_app, warnings_quiet, app_nil_r.
    change (requests [Console Info _]) with (@nil request). cbn [app].
    replace td with (trace (checkGrammarWithDetails e text)) by (rewrite Hc; reflexivity).
    rewrite checkGrammarWithDetails_requests. apply sent_length. }
  destruct (grammarCheckCache w !! text) as [c|]; [|apply Hfresh].
  cbn [Date_now]. destruct (_ - _ <? CACHE_EXPIRY_MS); [cbn; lia | apply Hfresh].
Qed.

(** X7. After any call of [checkGrammar] on a text it accepts, the cache
    holds the errors that call returned under that text; and a second
    call for the same text while the entry is less than [CACHE_EXPIRY_MS]
    old returns the same errors, with a console line as its only
    effect. *)
Theorem checkGrammar_repeat (e1 e2 : env) (w : world) (text : jsstring) :
  long_enough text ->
  let first_call := checkGrammar clock e1 w text in
  exists entry : cache_entry,
    grammarCheckCache first_call.2 !! text = Some entry
    /\ errors entry = first_call.1.2
    /\ (clock (clock_reads first_call.2) - timestamp entry < CACHE_EXPIRY_MS ->
        checkGrammar clock e2 first_call.2 text =
        ([Console Info "Using cached grammar check result"%string],
         first_call.1.2,
         {| grammarCheckCache := grammarCheckCache first_call.2;
            clock_reads := S (clock_reads first_call.2) |})).
Proof.
  intros Hlong first_call.
  assert (Hstored : exists entry : cache_entry,
            grammarCheckCache first_call.2 !! text = Some entry
            /\ errors entry = first_call.1.2).
  { subst first_call. unfold long_enough in Hlong. unfold checkGrammar. rewrite Hlong.
    assert (Hfresh : forall w0,
              exists entry : cache_entry,
                grammarCheckCache (check_fresh clock e1 w0 text).2 !! text = Some entry
                /\ errors entry = (check_fresh clock e1 w0 text).1.2).
    { intros w0.
      destruct (check_fresh_stores clock e1 w0 text)
        as (td & fields & mistakes & _ & _ & ->).
      cbn [fst snd grammarCheckCache]. eexists. split; [apply lookup_insert_eq|].
      reflexivity. }
    destruct (grammarCheckCache w !! text) as [c|] eqn:Hl; [|apply Hfresh].
    cbn [Date_now]. destruct (_ - _ <? CACHE_EXPIRY_MS); [|apply Hfresh].
    exists c. split; [exact Hl | reflexivity]. }
  destruct Hstored as (entry & Hl & Herr).
  exists entry. split; [exact Hl|]. split; [exact Herr|].
  intros Hage. unfold long_enough in Hlong. unfold checkGrammar at 1.
  rewrite Hlong, Hl. cbn [Date_now].
  apply Z.ltb_lt in Hage. rewrite Hage, Herr. reflexivity.
Qed.

Lemma checkGrammar_valid_step (e : env) (w : world) (text : jsstring) :
  (forall k entry, grammarCheckCache w !! k = Some entry ->
                   Forall valid_error (errors entry)) ->
  Forall valid_error (checkGrammar clock e w text).1.2
  /\ (forall k entry, grammarCheckCache (checkGrammar clock e w text).2 !! k = Some entry ->
                      Forall valid_error (errors entry)).
Proof.
  intros Hinv. unfold checkGrammar.
  destruct (is_empty text || (len (trim text) <? 10)).
  { split; [constructor | exact Hinv]. }
  assert (Hfresh : forall w0,
            grammarCheckCache w0 = grammarCheckCache w ->
            Forall valid_error (check_fresh clock e w0 text).1.2
            /\ (forall k entry,
                  grammarCheckCache (check_fresh clock e w0 text).2 !! k = Some entry ->
                  Forall valid_error (errors entry))).
  { intros w0 Hw0.
    destruct (check_fresh_stores clock e w0 text)
      as (td & fields & mistakes & _ & _ & ->).
    cbn [fst snd grammarCheckCache]. split; [apply omap_to_error_valid|].
    intros k entry. rewrite Hw0.
    destruct (decide (text = k)) as [<-|Hne].
    - rewrite lookup_insert_eq. intros [= <-]. apply omap_to_error_valid.
    - rewrite lookup_insert_ne by exact Hne. apply Hinv. }
  destruct (grammarCheckCache w !! text) as [c|] eqn:Hl; [|apply Hfresh; reflexivity].
  cbn [Date_now]. destruct (_ - _ <? CACHE_EXPIRY_MS); [|apply Hfresh; reflexivity].
  cbn [fst snd grammarCheckCache]. split; [exact (Hinv text c Hl) | exact Hinv].
Qed.

Lemma reachable_valid (w : world) :
  reachable clock w ->
  forall k entry, grammarCheckCache w !! k = Some entry ->
                  Forall valid_error (errors entry).
Proof.
  induction 1 as [|e w text _ IH]; intros k entry.
  - cbn. rewrite lookup_empty. discriminate.
  - apply checkGrammar_valid_step. exact IH.
Qed.

(** X8. In every state the module can reach, every error [checkGrammar]
    returns, cached or not, passed its validation: with integer positions,
    [0 <= startPos < endPos]. *)
Theorem checkGrammar_errors_valid (e : env) (w : world) (text : jsstring) :
  reachable clock w ->
  forall err : grammar_error,
    In err (checkGrammar clock e w text).1.2 ->
    valid_error err
    /\ forall s e' : Z,
         startPos err = Int s -> endPos err = Int e' -> 0 <= s /\ s < e'.
Proof.
  intros Hr err Hin.
  destruct (checkGrammar_valid_step e w text (reachable_valid w Hr)) as [Hall _].
  rewrite List.Forall_forall in Hall. specialize (Hall err Hin).
  split; [exact Hall|].
  intros s e' Hs He. destruct Hall as [H1 H2]. rewrite Hs, He in *. cbn in H1, H2.
  apply Z.ltb_ge in H1. apply Z.leb_gt in H2. lia.
Qed.

End Clock.

Lemma first_call_offline :
  checkGrammar ticking offline initial sample_text =
  ([Console Info "Checking grammar for text:"%string;
    Console Info "Checking grammar with detailed response for text:"%string;
    Wait 1000; Wait 1000;
    Console Warn "API key not set. Skipping detailed grammar check."%string],
   [],
   {| grammarCheckCache := <[sample_text := {| errors := []; timestamp := 0 |}]> ∅;
      clock_reads := 1 |}).
Proof.
  unfold checkGrammar.
  change (is_empty sample_text || (len (trim sample_text) <? 10)) with false.
  cbv iota. cbn [initial grammarCheckCache]. rewrite lookup_empty.
  destruct (check_fresh_stores ticking offline initial sample_text)
    as (td & fields & mistakes & Hc & Hf & ->).
  vm_compute in Hc. injection Hc as <- <-.
  vm_compute in Hf. injection Hf as <-.
  reflexivity.
Qed.

Lemma checkGrammar_repeat_witness :
  let first_call := checkGrammar ticking offline initial sample_text in
  long_enough sample_text
  /\ (checkGrammar ticking offline first_call.2 sample_text).1.2 = first_call.1.2.
Proof.
  intros first_call.
  assert (Hlong : long_enough sample_text) by reflexivity.
  split; [exact Hlong|].
  destruct (checkGrammar_repeat ticking offline offline initial sample_text Hlong)
    as (entry & Hl & Herr & Hhit).
  fold first_call in Hl, Herr, Hhit.
  assert (Hentry : entry = {| errors := []; timestamp := 0 |}
                   /\ clock_reads first_call.2 = 1%nat).
  { revert Hl. subst first_call. rewrite first_call_offline. cbn [snd grammarCheckCache].
    rewrite lookup_insert_eq. intros [= <-]. split; reflexivity. }
  destruct Hentry as [Hentry Hreads].
  rewrite Hhit; [reflexivity|].
  rewrite Hentry, Hreads. vm_compute. reflexivity.
Defined.

Lemma checkGrammar_errors_valid_witness :
  let w := (checkGrammar ticking checker initial sample_text).2 in
  reachable ticking w
  /\ In was_error (checkGrammar ticking offline w sample_text).1.2
  /\ valid_error was_error
  /\ 0 <= 5 < 8.
Proof.
  intros w.
  assert (Hr : reachable ticking w) by (apply reachable_call, reachable_initial).
  assert (Hin : In was_error (checkGrammar ticking offline w sample_text).1.2).
  { subst w. rewrite first_call_checker. unfold checkGrammar.
    change (is_empty sample_text || (len (trim sample_text) <? 10)) with false.
    cbv iota. cbn [snd grammarCheckCache]. rewrite lookup_insert_eq.
    cbn [Date_now timestamp clock_reads].
    change (ticking 1 - ticking 0 <? CACHE_EXPIRY_MS) with true.
    cbv iota. left. reflexivity. }
  destruct (checkGrammar_errors_valid ticking offline w sample_text Hr was_error Hin)
    as [Hvalid Hbounds].
  split; [exact Hr | split; [exact Hin | split; [exact Hvalid |]]].
  destruct (Hbounds 5 8 eq_refl eq_refl). lia.
Defined.

End GrammarCheckMoreFacts.

(* ================================================================== *)
(** * Theorems: text nodes beyond the claims                           *)
(* ================================================================== *)

Module TextNodesMoreFacts.
Import JS TextNodes TextNodesFacts.

Lemma counted_length_concat (nodes : element) :
  Forall (fun v => skipped v = false) nodes ->
  counted_length nodes = len (concat nodes).
Proof.
  induction 1 as [|v r Hv _ IH]; [reflexivity|].
  cbn [counted_length fold_right concat]. rewrite Hv.
  fold (counted_length r). rewrite IH. unfold len. rewrite length_app. lia.
Qed.

Lemma find_loop_in_node (rest : element) :
  forall (idx : nat) (cur p : Z),
    cur <= p < cur + counted_length rest ->
    exists (i : nat) (off cl : Z) (v : jsstring),
      find_loop rest idx cur p = (Some (i, off), cl)
      /\ (idx <= i)%nat
      /\ rest !! (i - idx)%nat = Some v
      /\ skipped v = false
      /\ 0 <= off < len v
      /\ (Forall (fun v => skipped v = false) rest ->
          concat rest !! Z.to_nat (p - cur) = v !! Z.to_nat off).
Proof.
  induction rest as [|v r IH]; intros idx cur p Hp; cbn [find_loop counted_length fold_right] in *.
  - lia.
  - fold (counted_length r) in *. destruct (skipped v) eqn:Hs.
    + destruct (IH (S idx) cur p Hp) as (i & off & cl & v' & Hf & Hi & Hl & Hs' & Ho & Ha).
      exists i, off, cl, v'. repeat split; try assumption; try lia.
      * replace (i - idx)%nat with (S (i - S idx)) by lia. exact Hl.
      * intros Hall. inversion Hall; congruence.
    + pose proof (len_nonneg v) as Hv.
      destruct ((cur <=? p) && (p <? cur + len v)) eqn:Hin.
      * apply andb_true_iff in Hin as [H1 H2].
        apply Z.leb_le in H1. apply Z.ltb_lt in H2.
        exists idx, (p - cur), cur, v. rewrite Nat.sub_diag.
        repeat split; try assumption; try lia.
        intros _. cbn [concat]. apply lookup_app_l. unfold len in *. lia.
      * assert (Hge : cur + len v <= p).
        { apply andb_false_iff in Hin as [H|H].
          - apply Z.leb_gt in H. lia.
          - apply Z.ltb_ge in H. lia. }
        destruct (IH (S idx) (cur + len v) p ltac:(lia))
          as (i & off & cl & v' & Hf & Hi & Hl & Hs' & Ho & Ha).
        exists i, off, cl, v'. repeat split; try assumption; try lia.
        -- replace (i - idx)%nat with (S (i - S idx)) by lia. exact Hl.
        -- intros Hall. inversion Hall as [|? ? _ Hall']; subst.
           rewrite <- (Ha Hall'). cbn [concat].
           rewrite lookup_app_r by (unfold len in *; lia).
           f_equal. unfold len in *. lia.
Qed.

Lemma find_loop_beyond (rest : element) :
  forall (idx : nat) (cur p : Z),
    cur + counted_length rest <= p ->
    find_loop rest idx cur p = (None, cur + counted_length rest).
Proof.
  induction rest as [|v r IH]; intros idx cur p Hp; cbn [find_loop counted_length fold_right] in *.
  - f_equal. lia.
  - fold (counted_length r) in *. destruct (skipped v).
    + apply IH. exact Hp.
    + pose proof (len_nonneg v). pose proof (counted_length_nonneg r).
      replace ((cur <=? p) && (p <? cur + len v)) with false.
      2:{ symmetry. apply andb_false_iff. right. apply Z.ltb_ge. lia. }
      rewrite IH by lia. f_equal. lia.
Qed.

(** X9. The offset [findTextNodeAtPosition] returns lies inside the node
    it returns, and that node is one both walks count. When no text node
    of the element is empty or white space only, the position is an index
    into [textContent]: the code unit of the node at that offset is the
    code unit of [element.textContent] at the position. *)
Theorem findTextNodeAtPosition_in_node (nodes : element) (p : Z) :
  0 <= p < counted_length nodes ->
  exists (i : nat) (off : Z) (v : jsstring),
    findTextNodeAtPosition (Some nodes) p = Some (Found (Some i) off)
    /\ nodes !! i = Some v
    /\ skipped v = false
    /\ 0 <= off < len v
    /\ (Forall (fun v => skipped v = false) nodes ->
        v !! Z.to_nat off = concat nodes !! Z.to_nat p).
Proof.
  intros Hp.
  destruct (find_loop_in_node nodes 0 0 p ltac:(lia))
    as (i & off & cl & v & Hf & _ & Hl & Hs & Ho & Ha).
  exists i, off, v. unfold findTextNodeAtPosition.
  destruct (Z.ltb_spec p 0); [lia|]. rewrite Hf.
  rewrite Nat.sub_0_r in Hl. repeat split; try assumption; try lia.
  intros Hall. rewrite <- (Ha Hall). f_equal. lia.
Qed.

Lemma findTextNodeAtPosition_in_node_witness :
  let nodes := [lit "Hello "; lit "brave"; lit " world"] in
  0 <= 8 < counted_length nodes
  /\ exists (i : nat) (off : Z) (v : jsstring),
       findTextNodeAtPosition (Some nodes) 8 = Some (Found (Some i) off)
       /\ nodes !! i = Some v
       /\ v !! Z.to_nat off = concat nodes !! 8%nat.
Proof.
  intros nodes.
  assert (H : 0 <= 8 < counted_length nodes) by (vm_compute; split; congruence).
  split; [exact H|].
  destruct (findTextNodeAtPosition_in_node nodes 8 H)
    as (i & off & v & Hf & Hl & _ & _ & Ha).
  exists i, off, v. split; [exact Hf|]. split; [exact Hl|].
  apply Ha. repeat constructor.
Defined.

(** X10. Outside the counted text [findTextNodeAtPosition] finds no node:
    a negative position gives [null]; a position at or beyond the counted
    length gives an object whose [node] is [null] and whose offset is 0
    when the element has counted text, and [null] when it has none. *)
Theorem findTextNodeAtPosition_outside (nodes : element) (p : Z) :
  (p < 0 -> findTextNodeAtPosition (Some nodes) p = None)
  /\ (counted_length nodes <= p -> 0 < counted_length nodes ->
      findTextNodeAtPosition (Some nodes) p = Some (Found None 0))
  /\ (0 <= p -> counted_length nodes = 0 ->
      findTextNodeAtPosition (Some nodes) p = None).
Proof.
  unfold findTextNodeAtPosition. repeat split.
  - intros Hp. apply Z.ltb_lt in Hp. rewrite Hp. reflexivity.
  - intros Hp Hpos. pose proof (counted_length_nonneg nodes).
    destruct (Z.ltb_spec p 0); [lia|].
    rewrite find_loop_beyond by lia. rewrite Z.add_0_l.
    destruct (Z.ltb_spec 0 (counted_length nodes)); [reflexivity | lia].
  - intros Hp Hzero.
    destruct (Z.ltb_spec p 0); [lia|].
    rewrite find_loop_beyond by lia. rewrite Z.add_0_l, Hzero. reflexivity.
Qed.

(** With a white-space-only node in front, position 2 of [textContent]
    (the ['H']) is found at offset 2 of the second node (an ['l']). *)
Example whitespace_node_shifts_positions :
  let nodes := [lit "  "; lit "Hello"] in
  findTextNodeAtPosition (Some nodes) 2 = Some (Found (Some 1%nat) 2)
  /\ concat nodes !! 2%nat = lit "H" !! 0%nat
  /\ lit "Hello" !! 2%nat = lit "l" !! 0%nat.
Proof. repeat split. Qed.

End TextNodesMoreFacts.

(* ================================================================== *)
(** * Theorems: disabled domains                                       *)
(* ================================================================== *)

Module DomainsFacts.
Import JS Domains.

Lemma strip_prefix_self (p r : jsstring) : strip_prefix p (p ++ r) = Some r.
Proof.
  induction p as [|a p IH]; simpl; [reflexivity|].
  rewrite N.eqb_refl. exact IH.
Qed.

Lemma strip_prefix_split (p s r : jsstring) :
  strip_prefix p s = Some r -> s = p ++ r.
Proof.
  revert s. induction p as [|a p IH]; intros s; simpl.
  - intros [= ->]. reflexivity.
  - destruct s as [|b s]; [discriminate|].
    destruct (N.eqb_spec a b) as [->|]; [|discriminate].
    intros H. rewrite (IH _ H). reflexivity.
Qed.

Lemma endsWith_spec (s suffix : jsstring) :
  endsWith s suffix = true <-> exists pre : jsstring, s = pre ++ suffix.
Proof.
  unfold endsWith. split.
  - destruct (strip_prefix (rev suffix) (rev s)) as [r|] eqn:H; [|discriminate].
    intros _. apply strip_prefix_split in H. exists (rev r).
    rewrite <- (rev_involutive s), H, rev_app_distr, rev_involutive. reflexivity.
  - intros [pre ->]. rewrite rev_app_distr, strip_prefix_self. reflexivity.
Qed.

(** X11. A host is disabled exactly when it is one of the listed domains
    or a subdomain of one: it equals the domain, or ends with a period
    followed by the domain. A host that only ends with the letters of a
    listed domain is not disabled. *)
Theorem isDisabledDomain_spec (currentHost : jsstring) :
  isDisabledDomain currentHost = true <->
  exists domain : jsstring,
    In domain disabledDomains
    /\ (currentHost = domain
        \/ exists sub : jsstring, currentHost = sub ++ lit "." ++ domain).
Proof.
  unfold isDisabledDomain. rewrite existsb_exists. split.
  - intros (d & Hin & H). exists d. split; [exact Hin|].
    apply orb_true_iff in H as [H|H].
    + left. apply bool_decide_eq_true in H. exact H.
    + right. apply endsWith_spec in H. exact H.
  - intros (d & Hin & H). exists d. split; [exact Hin|].
    apply orb_true_iff. destruct H as [->|H].
    + left. apply bool_decide_eq_true. reflexivity.
    + right. apply endsWith_spec. exact H.
Qed.

Example isDisabledDomain_examples :
  isDisabledDomain (lit "github.com") = true
  /\ isDisabledDomain (lit "gist.github.com") = true
  /\ isDisabledDomain (lit "notgithub.com") = false
  /\ isDisabledDomain (lit "github.com.example.org") = false.
Proof. repeat split. Qed.

End DomainsFacts.

(* ================================================================== *)
(** * Theorems: debounce over time                                     *)
(* ================================================================== *)

Module TimelineFacts.
Import Utils Timeline.

Section Args.
Variable A : Type.

Lemma last_default (c : Z * A) (rest : list (Z * A)) (d d' : Z * A) :
  List.last (c :: rest) d = List.last (c :: rest) d'.
Proof.
  revert c. induction rest as [|x r IH]; intros c; [reflexivity|].
  change (List.last (x :: r) d = List.last (x :: r) d'). apply IH.
Qed.

Lemma invocations_burst (delay : Z) (calls : list (Z * A)) :
  forall (t0 : Z) (a0 : A) (d : debounced),
    delay = Utils.delay d ->
    burst A delay ((t0, a0) :: calls) ->
    invocations A (call d t0) (Some a0) calls
    = [(fst (List.last calls (t0, a0)) + delay, snd (List.last calls (t0, a0)))].
Proof.
  induction calls as [|[t a] rest IH]; intros t0 a0 d Hd Hb.
  - cbn. subst delay. reflexivity.
  - cbn [invocations]. destruct Hb as [[H1 H2] Hb].
    unfold fired. cbn [call timer]. subst delay.
    destruct (Z.leb_spec (t0 + Utils.delay d) t); [lia|]. cbn [app].
    rewrite (IH t a (call d t0)); [|reflexivity|exact Hb].
    cbn [call Utils.delay].
    destruct rest as [|c rest]; [reflexivity|].
    change (List.last ((t, a) :: c :: rest) (t0, a0))
      with (List.last (c :: rest) (t0, a0)).
    rewrite (last_default c rest (t0, a0) (t, a)). reflexivity.
Qed.

(** X12. A burst of calls of a debounced function, each made before the
    timer of the one before is due, runs the handler once: [delay] after
    the last call, with the arguments of the last call. *)
Theorem debounce_burst (delay : Z) (t0 : Z) (a0 : A) (calls : list (Z * A)) :
  burst A delay ((t0, a0) :: calls) ->
  invocations A (debounce delay) None ((t0, a0) :: calls)
  = [(fst (List.last calls (t0, a0)) + delay, snd (List.last calls (t0, a0)))].
Proof.
  intros Hb. cbn [invocations]. unfold fired. cbn [debounce timer app].
  apply invocations_burst; [reflexivity | exact Hb].
Qed.

Lemma invocations_sound (calls : list (Z * A)) :
  forall (d : debounced) (args : option A) (t : Z) (a : A),
    In (t, a) (invocations A d args calls) ->
    (timer d = Some t /\ args = Some a)
    \/ In (t - delay d, a) calls.
Proof.
  induction calls as [|[now a'] rest IH]; intros d args t a; cbn [invocations].
  - destruct (timer d) as [due|]; [|intros []].
    destruct args as [a0|]; [|intros []].
    intros [[= <- <-]|[]]. left. split; reflexivity.
  - rewrite in_app_iff. intros [H|H].
    + unfold fired in H. destruct (timer d) as [due|]; [|destruct H].
      destruct args as [a0|]; [|destruct H].
      destruct (due <=? now); [|destruct H].
      destruct H as [[= <- <-]|[]]. left. split; reflexivity.
    + apply IH in H. cbn [call timer delay] in H. right.
      destruct H as [[[= <-] [= <-]]|H].
      * left. f_equal. lia.
      * right. exact H.
Qed.

Lemma invocations_fresh_length (calls : list (Z * A)) (delay : Z) :
  (length (invocations A (debounce delay) None calls) <= length calls)%nat.
Proof.
  destruct calls as [|[now a] rest]; [simpl; lia|].
  cbn [invocations]. unfold fired. cbn [debounce timer app].
  induction rest as [|[t a'] rest IH] in now, a |- *.
  - simpl. lia.
  - cbn [invocations]. rewrite length_app.
    assert (length (fired A (call (debounce delay) now) (Some a) t) <= 1)%nat.
    { unfold fired. cbn. destruct (_ <=? _); simpl; lia. }
    specialize (IH t a'). simpl length in *.
    change (call (call (debounce delay) now) t) with (call (debounce delay) t).
    lia.
Qed.

(** X13. The handler of a debounced function only runs for calls that
    were made: every run is [delay] after some call, with that call's
    arguments, and there are no more runs than calls. *)
Theorem debounce_runs_are_calls (delay : Z) (calls : list (Z * A)) :
  (forall (t : Z) (a : A),
     In (t, a) (invocations A (debounce delay) None calls) ->
     In (t - delay, a) calls)
  /\ (length (invocations A (debounce delay) None calls) <= length calls)%nat.
Proof.
  split; [|apply invocations_fresh_length].
  intros t a H. apply invocations_sound in H.
  destruct H as [[H _]|H]; [discriminate | exact H].
Qed.

End Args.

Lemma debounce_burst_witness :
  burst nat 150 [(0, 1%nat); (100, 2%nat); (240, 3%nat)]
  /\ invocations nat (debounce 150) None [(0, 1%nat); (100, 2%nat); (240, 3%nat)]
     = [(390, 3%nat)].
Proof.
  assert (H : burst nat 150 [(0, 1%nat); (100, 2%nat); (240, 3%nat)])
    by (cbn; repeat split; lia).
  split; [exact H|].
  rewrite (debounce_burst nat 150 0 1%nat [(100, 2%nat); (240, 3%nat)] H).
  reflexivity.
Defined.

End TimelineFacts.

(* ================================================================== *)
(** * Theorems: config.js and api.js on one page                       *)
(* ================================================================== *)

Module PageFacts.
Import JS Eff Api ApiProps Config Page.
Import ConfigFacts.

(** An action leaves the key and the URL alone, or sets the key it offers,
    which is not empty, and the URL built from it. *)
Lemma act_key (st st' : state) (a : action) :
  act st a = Some st' ->
  (GEMINI_API_KEY st' = GEMINI_API_KEY st
   /\ GEMINI_API_URL st' = GEMINI_API_URL st)
  \/ (GEMINI_API_KEY st' <> []
      /\ GEMINI_API_URL st' = endpoint ++ GEMINI_API_KEY st'
      /\ offered a = Some (GEMINI_API_KEY st')).
Proof.
  destruct a as [[i next|i r|next]|k]; cbn.
  - destruct (member i (timeouts st)); [|discriminate]. intros [= <-]. left.
    unfold on_timeout, tryLoadApiKey, retry_later, resolve.
    break_state st. destruct next; break_ifs; split; reflexivity.
  - destruct (member i (callbacks st)); [|discriminate]. intros [= <-].
    unfold on_callback, updateApiKey, set_key, retry_later, resolve.
    break_state st. destruct r as [le k]; cbn.
    destruct le; cbn.
    + left. break_ifs; split; reflexivity.
    + destruct k as [|c k]; cbn.
      * left. split; reflexivity.
      * right. rewrite eqb_str_refl. cbn.
        repeat split; try reflexivity; discriminate.
  - destruct (retries st) as [|n]; [discriminate|]. intros [= <-]. left.
    unfold on_retry, tryLoadApiKey, retry_later, resolve.
    break_state st. destruct next; break_ifs; split; reflexivity.
  - intros [= <-]. unfold updateApiKey, set_key.
    destruct k as [|c k]; cbn.
    + left. split; reflexivity.
    + right. repeat split; try reflexivity; discriminate.
Qed.

Lemma acts_key (l : list action) :
  forall st st' : state,
    acts st l = Some st' ->
    (GEMINI_API_KEY st' = GEMINI_API_KEY st
     /\ GEMINI_API_URL st' = GEMINI_API_URL st)
    \/ (GEMINI_API_KEY st' <> []
        /\ GEMINI_API_URL st' = endpoint ++ GEMINI_API_KEY st'
        /\ exists a : action, In a l /\ offered a = Some (GEMINI_API_KEY st')).
Proof.
  induction l as [|a rest IH]; intros st st'; simpl.
  - intros [= <-]. left. split; reflexivity.
  - destruct (act st a) as [s1|] eqn:Ha; [|discriminate].
    intros Hr. destruct (IH s1 st' Hr) as [[Hk Hu]|(Hne & Hu & b & Hin & Hb)].
    + destruct (act_key st s1 a Ha) as [[Hk1 Hu1]|(Hne & Hu1 & Hoff)].
      * left. split; congruence.
      * right. rewrite Hk, Hu. repeat split; [exact Hne | exact Hu1 |].
        exists a. split; [left; reflexivity | exact Hoff].
    + right. repeat split; [exact Hne | exact Hu |].
      exists b. split; [right; exact Hin | exact Hb].
Qed.

Lemma started_empty (first : chrome) :
  GEMINI_API_KEY (started first) = [] /\ GEMINI_API_URL (started first) = [].
Proof.
  unfold started, loadApiKey, tryLoadApiKey, retry_later, resolve.
  destruct first; cbn; break_ifs; split; reflexivity.
Qed.

Lemma acts_consistent (first : chrome) (l : list action) (st : state) :
  acts (started first) l = Some st -> consistent st.
Proof.
  intros H. destruct (started_empty first) as [Hk Hu].
  destruct (acts_key l _ _ H) as [[Hk' Hu']|(Hne & Hu' & _)].
  - left. split; congruence.
  - right. split; assumption.
Qed.

(** X14. The URL of config.js follows its key. From the start of the
    content script, through any turns of the event loop for
    [loadApiKey()] and any calls of [updateApiKey]: either no key is set
    and both [getApiKey()] and [getApiUrl()] are empty, or the key is not
    empty, it is one that a storage callback or a call of [updateApiKey]
    brought, and [getApiUrl()] is the endpoint followed by that key. A key
    once set is never cleared. *)
Theorem config_url_follows_key (first : chrome) (l : list action) (st : state) :
  acts (started first) l = Some st ->
  ((GEMINI_API_KEY st = [] /\ GEMINI_API_URL st = [])
   \/ (GEMINI_API_KEY st <> []
       /\ GEMINI_API_URL st = endpoint ++ GEMINI_API_KEY st
       /\ exists a : action, In a l /\ offered a = Some (GEMINI_API_KEY st)))
  /\ (forall (more : list action) (st' : state),
        GEMINI_API_KEY st <> [] -> acts st more = Some st' ->
        GEMINI_API_KEY st' <> []).
Proof.
  intros H. split.
  - destruct (started_empty first) as [Hk Hu].
    destruct (acts_key l _ _ H) as [[Hk' Hu']|Hset].
    + left. split; congruence.
    + right. exact Hset.
  - intros more st' Hne Hm.
    destruct (acts_key more _ _ Hm) as [[Hk' _]|(Hne' & _)]; congruence.
Qed.

Lemma config_url_follows_key_witness :
  acts (started GetAccepted) key_arrives <> None
  /\ GEMINI_API_URL (default (started GetAccepted) (acts (started GetAccepted) key_arrives))
     = endpoint ++ lit "AIza".
Proof.
  assert (H : acts (started GetAccepted) key_arrives
              = Some (default (started GetAccepted)
                        (acts (started GetAccepted) key_arrives)))
    by reflexivity.
  split; [discriminate|].
  destruct (config_url_follows_key GetAccepted key_arrives _ H)
    as [[[Hk _]|(_ & Hu & _)] _].
  - discriminate Hk.
  - exact Hu.
Defined.

Lemma page_key (st : state) net parse tonum :
  GEMINI_API_KEY st <> [] ->
  getApiKeyWithRetry_default (page st net parse tonum)
  = ([], Ok (GEMINI_API_KEY st)).
Proof.
  intros Hne. unfold getApiKeyWithRetry_default, getApiKeyWithRetry. cbn.
  destruct (GEMINI_API_KEY st); [congruence | reflexivity].
Qed.

Lemma page_no_key (st : state) net parse tonum :
  GEMINI_API_KEY st = [] ->
  result (getApiKeyWithRetry_default (page st net parse tonum)) = Ok [].
Proof.
  intros He. unfold getApiKeyWithRetry_default, getApiKeyWithRetry. cbn.
  rewrite He. reflexivity.
Qed.

Lemma page_sent (st : state) net parse tonum (prompt : jsstring) (timeout : Z) :
  consistent st ->
  List.map url (sent (page st net parse tonum) prompt timeout)
  = if is_empty (GEMINI_API_KEY st) then []
    else [endpoint ++ GEMINI_API_KEY st].
Proof.
  intros [[Hk Hu]|[Hne Hu]]; unfold sent.
  - rewrite (page_no_key st net parse tonum Hk), Hk. reflexivity.
  - rewrite (page_key st net parse tonum Hne). cbn [result snd].
    destruct (GEMINI_API_KEY st) eqn:Hk; [congruence|].
    cbn. rewrite Hu. reflexivity.
Qed.

(** X15. On a page where config.js holds the key, the three calls of the
    API layer send their request to the endpoint followed by the current
    key of config.js, and to no other address; while no key is set they
    send nothing. *)
Theorem requests_go_to_config_url (first : chrome) (l : list action) (st : state)
    (net : request -> outcome response) (parse : jsstring -> outcome value)
    (tonum : value -> num) (text : jsstring) :
  acts (started first) l = Some st ->
  let e := page st net parse tonum in
  let target :=
    if is_empty (GEMINI_API_KEY st) then []
    else [endpoint ++ GEMINI_API_KEY st] in
  List.map url (requests (trace (getGrammarSuggestions e text))) = target
  /\ List.map url (requests (trace (analyzeSentiment e text))) = target
  /\ List.map url (requests (trace (checkGrammarWithDetails e text))) = target.
Proof.
  intros H e target. apply acts_consistent in H.
  unfold e, target.
  rewrite ApiFacts.getGrammarSuggestions_requests,
    ApiFacts.analyzeSentiment_requests,
    ApiFacts.checkGrammarWithDetails_requests.
  repeat split; apply page_sent; exact H.
Qed.

Lemma requests_go_to_config_url_witness :
  acts (started GetAccepted) key_arrives <> None
  /\ List.map url
       (requests (trace (checkGrammarWithDetails
          (page (default (started GetAccepted)
                   (acts (started GetAccepted) key_arrives))
                (fun _ => Throw NetworkError) (fun _ => Throw SyntaxError)
                (fun _ => NaN))
          (lit "They was walking."))))
     = [endpoint ++ lit "AIza"].
Proof.
  assert (H : acts (started GetAccepted) key_arrives
              = Some (default (started GetAccepted)
                        (acts (started GetAccepted) key_arrives)))
    by reflexivity.
  split; [discriminate|].
  destruct (requests_go_to_config_url GetAccepted key_arrives _
              (fun _ => Throw NetworkError) (fun _ => Throw SyntaxError)
              (fun _ => NaN) (lit "They was walking.") H) as (_ & _ & H3).
  exact H3.
Defined.

End PageFacts.
(* ================================================================== *)
(** * Theorems: finding the text to replace                            *)
(* ================================================================== *)

Module FuzzyFacts.
Import JS Fuzzy.

Lemma split_prefix (p s r : jsstring) :
  strip_prefix p s = Some r -> s = p ++ r.
Proof.
  revert s. induction p as [|a p IH]; intros s; simpl.
  - intros [= ->]. reflexivity.
  - destruct s as [|b s]; [discriminate|].
    destruct (N.eqb_spec a b) as [->|]; [|discriminate].
    intros H. rewrite (IH _ H). reflexivity.
Qed.

(** Where [indexOf] finds the needle, the needle is. *)
Lemma indexOf_from_found (needle s : jsstring) :
  forall i p : Z,
    indexOf_from needle s i = p -> 0 <= i -> 0 <= p ->
    exists pre rest : jsstring,
      s = pre ++ needle ++ rest /\ len pre = p - i.
Proof.
  induction s as [|c r IH]; intros i p; simpl.
  - destruct (strip_prefix needle []) eqn:Hp.
    + intros <- _ _. apply split_prefix in Hp.
      exists [], l. split; [exact Hp | unfold len; simpl; lia].
    + intros <-. lia.
  - destruct (strip_prefix needle (c :: r)) eqn:Hp.
    + intros <- _ _. apply split_prefix in Hp.
      exists [], l. split; [exact Hp | unfold len; simpl; lia].
    + intros H Hi Hp0.
      destruct (IH (i + 1) p H ltac:(lia) Hp0) as (pre & rest & -> & Hl).
      exists (c :: pre), rest. split; [reflexivity|].
      unfold len in *. simpl length. lia.
Qed.

Lemma indexOf_found (s needle : jsstring) :
  0 <= indexOf s needle ->
  exists pre rest : jsstring,
    s = pre ++ needle ++ rest /\ len pre = indexOf s needle.
Proof.
  intros H. unfold indexOf in *.
  destruct (indexOf_from_found needle s 0 _ eq_refl ltac:(lia) H)
    as (pre & rest & Hs & Hl).
  exists pre, rest. split; [exact Hs | lia].
Qed.

Lemma indexOf_at_found (s needle : jsstring) (from : Z) :
  0 <= from <= len s ->
  0 <= indexOf_at s needle from ->
  from <= indexOf_at s needle from
  /\ indexOf_at s needle from + len needle <= len s.
Proof.
  intros Hf H. unfold indexOf_at in *.
  replace (Z.min (Z.max from 0) (len s)) with from in * by lia.
  destruct (indexOf_from_found needle (drop (Z.to_nat from) s) from _ eq_refl
              ltac:(lia) H) as (pre & rest & Hs & Hl).
  set (p := indexOf_from needle (drop (Z.to_nat from) s) from) in *.
  assert (Hlen : len (drop (Z.to_nat from) s) = len s - from).
  { unfold len in *. rewrite length_drop. lia. }
  rewrite Hs in Hlen. unfold len in *. rewrite !length_app in Hlen. lia.
Qed.

Lemma len_app (a b : jsstring) : len (a ++ b) = len a + len b.
Proof. unfold len. rewrite length_app. lia. Qed.

(** A piece of the split holds no white space, so a text without white
    space is its only piece. *)
Lemma split_spaces_one (s : jsstring) :
  existsb is_space s = false -> split_spaces_from false s = [s].
Proof.
  induction s as [|c r IH]; simpl; [reflexivity|].
  destruct (is_space c); simpl; [discriminate|].
  intros H. rewrite (IH H). reflexivity.
Qed.

Lemma fuzzy_loop_range (text : jsstring) (words : list jsstring) (w0 : jsstring)
    (ws : list jsstring) (i : nat) (r : range) :
  words = w0 :: ws -> (i < length words)%nat ->
  fuzzy_loop text words i = Some r ->
  0 <= startPos r /\ startPos r < endPos r /\ endPos r <= len text
  /\ exists pre rest : jsstring,
       text = pre ++ w0 ++ rest /\ len pre = startPos r.
Proof.
  intros Hw. induction i as [|i IH]; intros Hi; [discriminate|].
  destruct i as [|i]; [discriminate|].
  cbn [fuzzy_loop].
  set (phrase := join_space (take (S (S i)) words)).
  destruct (Z.leb_spec 0 (indexOf text phrase)) as [Hp|Hp].
  - destruct (indexOf_found text phrase Hp) as (pre & rest & Ht & Hl).
    assert (Hphrase : exists tl, phrase = w0 ++ 32%N :: tl).
    { unfold phrase. rewrite Hw. cbn [take join_space].
      destruct ws as [|w1 ws']; [rewrite Hw in Hi; simpl in Hi; lia|].
      cbn [take List.map concat]. eexists. reflexivity. }
    destruct Hphrase as (tl & Hph).
    assert (Hplen : 1 <= len phrase).
    { rewrite Hph, len_app. unfold len. simpl length. lia. }
    assert (Hend : indexOf text phrase + len phrase <= len text).
    { rewrite Ht at 2. rewrite !len_app. unfold len in *. lia. }
    assert (Hstart : exists pre0 rest0 : jsstring,
               text = pre0 ++ w0 ++ rest0 /\ len pre0 = indexOf text phrase).
    { exists pre, ((32%N :: tl) ++ rest). split; [|exact Hl].
      rewrite Ht at 1. rewrite Hph. rewrite <- !app_assoc. reflexivity. }
    intros [= <-]. cbn [startPos endPos].
    split; [exact Hp|].
    destruct (words !! S (S i)) as [next|]; [|repeat split; try lia; exact Hstart].
    destruct (is_empty next); [repeat split; try lia; exact Hstart|].
    set (e0 := indexOf text phrase + len phrase) in *.
    destruct ((0 <=? indexOf_at text next e0) && (indexOf_at text next e0 - e0 <? 20))
      eqn:Hc; [|repeat split; try lia; exact Hstart].
    apply andb_true_iff in Hc as [Hc _]. apply Z.leb_le in Hc.
    destruct (indexOf_at_found text next e0 ltac:(lia) Hc) as [H1 H2].
    pose proof (Zle_0_nat (length next)) as Hn. unfold len in *.
    repeat split; try lia; exact Hstart.
  - intros H. apply IH; [lia | exact H].
Qed.

(** X16. When [findFuzzyMatch] finds a match, the range it gives is not
    empty and lies inside the text, [0 <= startPos < endPos <=
    text.length]; the text at [startPos] begins with the first word of the
    search text; and the search text contains white space: a search text
    of one word is never matched. *)
Theorem findFuzzyMatch_range (text searchText : jsstring) (r : range) :
  findFuzzyMatch text searchText = Some r ->
  0 <= startPos r /\ startPos r < endPos r /\ endPos r <= len text
  /\ (exists pre rest : jsstring,
        text = pre ++ nth 0 (split_spaces searchText) [] ++ rest
        /\ len pre = startPos r)
  /\ existsb is_space searchText = true.
Proof.
  unfold findFuzzyMatch.
  destruct (is_empty text || is_empty searchText) eqn:He; [discriminate|].
  apply orb_false_iff in He as [Het _].
  destruct (Nat.ltb_spec 1 (length (split_spaces searchText))) as [Hlen|Hlen];
    [|discriminate].
  assert (Hsp : existsb is_space searchText = true).
  { destruct (existsb is_space searchText) eqn:Hs; [reflexivity|].
    unfold split_spaces in Hlen. rewrite (split_spaces_one _ Hs) in Hlen.
    simpl in Hlen. lia. }
  destruct (split_spaces searchText) as [|w0 ws] eqn:Hw; [simpl in Hlen; lia|].
  destruct (fuzzy_loop text (w0 :: ws) (length (w0 :: ws) - 1)) as [r0|] eqn:Hloop.
  - intros [= <-].
    assert (Hi : (length (w0 :: ws) - 1 < length (w0 :: ws))%nat)
      by (simpl; lia).
    destruct (fuzzy_loop_range text (w0 :: ws) w0 ws _ r0 eq_refl Hi Hloop)
      as (H1 & H2 & H3 & H4).
    repeat split; try assumption.
  - cbn [nth].
    destruct (Z.leb_spec 0 (indexOf text w0)) as [Hp|Hp]; [|discriminate].
    intros [= <-]. cbn [startPos endPos].
    destruct (indexOf_found text w0 Hp) as (pre & rest & Ht & Hl).
    assert (Hend : indexOf text w0 + len w0 <= len text).
    { rewrite Ht at 2. rewrite !len_app. unfold len in *. lia. }
    assert (Hrem : len (substring text (Int (indexOf text w0 + len w0)) (Int (len text)))
                   = len text - (indexOf text w0 + len w0)).
    { unfold substring, to_index.
      pose proof (Zle_0_nat (length w0)) as Hn.
      unfold len in *. rewrite length_take, length_drop. lia. }
    rewrite Hrem.
    assert (Hpos : 0 < len w0 \/ (len w0 = 0 /\ indexOf text w0 = 0 /\ 0 < len text)).
    { destruct w0 as [|c w0]; [right|left; unfold len; simpl length; lia].
      repeat split.
      - unfold indexOf. destruct text; reflexivity.
      - destruct text; [discriminate Het | unfold len; simpl length; lia]. }
    repeat split; try lia; try assumption.
    exists pre, rest. split; [exact Ht | exact Hl].
Qed.

Lemma findFuzzyMatch_range_witness :
  findFuzzyMatch (lit "We was going to the shop") (lit "was going to school")
  = Some {| startPos := 3; endPos := 15 |}
  /\ 3 < 15 <= len (lit "We was going to the shop").
Proof.
  assert (H : findFuzzyMatch (lit "We was going to the shop") (lit "was going to school")
              = Some {| startPos := 3; endPos := 15 |}) by (vm_compute; reflexivity).
  split; [exact H|].
  destruct (findFuzzyMatch_range _ _ _ H) as (_ & H2 & H3 & _).
  split; [exact H2 | exact H3].
Defined.

(** With two words the loop does not run: the range is the first word and
    up to 50 code units after it. *)
Example findFuzzyMatch_two_words :
  findFuzzyMatch (lit "alpha beta gamma delta") (lit "alpha zzz")
  = Some {| startPos := 0; endPos := 22 |}.
Proof. vm_compute. reflexivity. Qed.

End FuzzyFacts.

(* ================================================================== *)
(** * Theorems: reading and replacing an element's text                *)
(* ================================================================== *)

Module DomFacts.
Import JS Dom DomProps.

(** [substring] between two indices in order and inside the string. *)
Lemma substring_take_drop (s : jsstring) (a b : Z) :
  0 <= a <= b -> b <= len s ->
  substring s (Int a) (Int b) = take (Z.to_nat (b - a)) (drop (Z.to_nat a) s).
Proof.
  intros Ha Hb. unfold substring, to_index.
  replace (Z.min (Z.max a 0) (len s)) with a by lia.
  replace (Z.min (Z.max b 0) (len s)) with b by lia.
  replace (Z.min a b) with a by lia. replace (Z.max a b) with b by lia.
  reflexivity.
Qed.

Lemma substring_prefix (s : jsstring) (a : Z) :
  0 <= a <= len s ->
  substring s (Int 0) (Int a) = take (Z.to_nat a) s.
Proof.
  intros Ha. rewrite substring_take_drop by lia.
  rewrite Z.sub_0_r. reflexivity.
Qed.

Lemma substring_suffix (s : jsstring) (a : Z) :
  0 <= a <= len s ->
  substring s (Int a) (Int (len s)) = drop (Z.to_nat a) s.
Proof.
  intros Ha. rewrite substring_take_drop by lia.
  apply take_ge. rewrite length_drop. unfold len in *. lia.
Qed.

Lemma substring_middle (pre mid post : jsstring) :
  substring (pre ++ mid ++ post) (Int (len pre)) (Int (len pre + len mid)) = mid.
Proof.
  pose proof (TextNodesFacts.len_nonneg pre). pose proof (TextNodesFacts.len_nonneg mid).
  pose proof (TextNodesFacts.len_nonneg post).
  rewrite substring_take_drop by (rewrite ?FuzzyFacts.len_app; lia).
  unfold len. rewrite Nat2Z.id.
  rewrite drop_app_length.
  replace (Z.to_nat (Z.of_nat (length pre) + Z.of_nat (length mid) - Z.of_nat (length pre)))
    with (length mid) by lia.
  apply take_app_length.
Qed.

(** ** White space around a text *)

Lemma trim_start_split (s : jsstring) :
  exists lead : jsstring,
    s = lead ++ trim_start s /\ forallb is_space lead = true.
Proof.
  induction s as [|c r (lead & Hs & Hl)]; simpl.
  - exists []. split; reflexivity.
  - destruct (is_space c) eqn:Hc.
    + exists (c :: lead). simpl. rewrite Hc, Hl. split; [f_equal; exact Hs | reflexivity].
    + exists []. split; reflexivity.
Qed.

Lemma trim_start_head (s : jsstring) (c : N) (r : jsstring) :
  trim_start s = c :: r -> is_space c = false.
Proof.
  induction s as [|d s IH]; simpl; [discriminate|].
  destruct (is_space d) eqn:Hd; [exact IH|].
  intros [= <- _]. exact Hd.
Qed.

Lemma forallb_rev (f : N -> bool) (l : jsstring) :
  forallb f (rev l) = forallb f l.
Proof.
  induction l as [|a l IH]; simpl; [reflexivity|].
  rewrite forallb_app, IH. simpl. rewrite andb_true_r. apply andb_comm.
Qed.

Lemma trim_end_split (s : jsstring) :
  exists trail : jsstring,
    s = trim_end s ++ trail /\ forallb is_space trail = true.
Proof.
  unfold trim_end. destruct (trim_start_split (rev s)) as (lead & Hs & Hl).
  exists (rev lead). split.
  - rewrite <- rev_app_distr, <- Hs, rev_involutive. reflexivity.
  - rewrite forallb_rev. exact Hl.
Qed.

(** A text is its trimmed text between two runs of white space, and the
    trimmed text, when there is some, starts with another character. *)
Lemma trim_split (s : jsstring) :
  exists lead trail : jsstring,
    s = lead ++ trim s ++ trail
    /\ forallb is_space lead = true
    /\ forallb is_space trail = true
    /\ (trim s <> [] -> exists c r, trim s = c :: r /\ is_space c = false).
Proof.
  destruct (trim_start_split s) as (lead & Hs & Hl).
  destruct (trim_end_split (trim_start s)) as (trail & Ht & Htl).
  exists lead, trail. unfold trim. repeat split; try assumption.
  - rewrite <- Ht. exact Hs.
  - intros Hne. destruct (trim_end (trim_start s)) as [|c r] eqn:He; [congruence|].
    exists c, r. split; [reflexivity|].
    simpl in Ht. exact (trim_start_head s c _ Ht).
Qed.

Lemma strip_prefix_here (p r : jsstring) : strip_prefix p (p ++ r) = Some r.
Proof.
  induction p as [|a p IH]; simpl; [reflexivity|].
  rewrite N.eqb_refl. exact IH.
Qed.

(** The first occurrence of a text that starts with no white space, after
    a run of white space, is at the end of the run. *)
Lemma indexOf_after_spaces (lead : jsstring) (c : N) (r rest : jsstring) :
  forallb is_space lead = true -> is_space c = false ->
  forall i : Z,
    indexOf_from (c :: r) (lead ++ (c :: r) ++ rest) i = i + len lead.
Proof.
  intros Hl Hc. induction lead as [|a lead IH]; intros i.
  - cbn [app indexOf_from strip_prefix].
    rewrite N.eqb_refl, strip_prefix_here. unfold len. simpl length. lia.
  - simpl in Hl. apply andb_true_iff in Hl as [Ha Hl].
    cbn [app indexOf_from strip_prefix].
    destruct (N.eqb_spec c a) as [->|_]; [congruence|].
    rewrite (IH Hl). unfold len. simpl length. lia.
Qed.

(** ** replaceSentence *)

Lemma is_text_node_never (textNode : option TextNodes.found) :
  is_text_node textNode = false.
Proof. destruct textNode; reflexivity. Qed.

Lemma spliced_take_drop (cur t : jsstring) (s e : Z) :
  0 <= s -> s <= e -> e <= len cur ->
  spliced cur (Int s) (Int e) t
  = take (Z.to_nat s) cur ++ t ++ drop (Z.to_nat e) cur.
Proof.
  intros Hs Hse He. unfold spliced.
  rewrite substring_prefix, substring_suffix by lia. reflexivity.
Qed.

(** The generic replacement writes the spliced text. *)
Lemma replace_generic_writes (el : element) (cur t : jsstring) (s e : num) :
  exists effects : list effect,
    replace_generic el cur s e t = Some effects
    /\ writes (spliced cur s e t)
         (effects ++ [Dispatch "input"; Dispatch "change"]).
Proof.
  unfold replace_generic. rewrite is_text_node_never.
  destruct (isContentEditable el).
  - eexists. split; [reflexivity|].
    exists (SetTextContent (spliced cur s e t)), [].
    repeat split; auto.
  - destruct (isTextInput el || isTextArea el).
    + eexists. split; [reflexivity|].
      exists (SetValue (spliced cur s e t)),
        (if selectable el
         then [SetSelection (num_add s (Int (len t))) (num_add s (Int (len t))); Focus]
         else []).
      repeat split; auto. destruct (selectable el); eauto.
    + destruct (value el); eexists; (split; [reflexivity|]).
      * exists (SetValue (spliced cur s e t)), []. repeat split; auto.
      * exists (SetTextContent (spliced cur s e t)), []. repeat split; auto.
Qed.

(** The positions [locate] gives are integers when those given are, and
    they hold the expected text when the element's text has it. *)
Lemma locate_expected (cur suggestion : jsstring) (posInfo : sentence)
    (a b : Z) (s e : num) :
  startPos posInfo = Int a -> endPos posInfo = Int b ->
  locate cur suggestion posInfo = Some (s, e) ->
  exists s' e' : Z,
    s = Int s' /\ e = Int e'
    /\ (text posInfo <> [] -> 0 <= indexOf cur (text posInfo) ->
        substring cur (Int s') (Int e') = text posInfo).
Proof.
  intros Ha Hb. unfold locate. rewrite Ha, Hb.
  destruct (is_empty (text posInfo)) eqn:Hemp; cbn [negb andb].
  - intros [= <- <-]. exists a, b. repeat split.
    destruct (text posInfo); [congruence | discriminate].
  - destruct (eqb_str (substring cur (Int a) (Int b)) (text posInfo)) eqn:Heq;
      cbn [negb].
    + intros [= <- <-]. exists a, b. repeat split. intros _ _.
      apply bool_decide_eq_true in Heq. exact Heq.
    + destruct (Z.leb_spec 0 (indexOf cur (text posInfo))) as [Hi|Hi].
      * intros [= <- <-]. eexists _, _. repeat split. intros _ _.
        destruct (FuzzyFacts.indexOf_found cur (text posInfo) Hi)
          as (pre & rest & Hc & Hl).
        rewrite <- Hl. rewrite Hc at 1. apply substring_middle.
      * destruct (is_empty suggestion); cbn [negb]; [discriminate|].
        destruct (0 <=? indexOf cur suggestion).
        -- intros [= <- <-]. eexists _, _. repeat split. intros _ H. lia.
        -- destruct (Fuzzy.findFuzzyMatch cur (text posInfo)); [|discriminate].
           intros [= <- <-]. eexists _, _. repeat split. intros _ H. lia.
Qed.



(** The positions are stale: they hold [He], the expected text is [go].
    The first occurrence of [go] is replaced. *)
Example replaceSentence_relocates :
  replaceSentence plain_page (Some (textarea (lit "He go to school")))
    (lit "goes")
    (Some {| text := lit "go"; startPos := Int 0; endPos := Int 2 |})
  = ([SetValue (lit "He goes to school"); SetSelection (Int 7) (Int 7);
      Focus; Dispatch "input"; Dispatch "change"], true).
Proof. vm_compute. reflexivity. Qed.

(** ** getInputContent, then replaceSentence *)

Lemma trim_nonempty (v : jsstring) : trim v <> [] -> is_empty v = false.
Proof. destruct v; [intros H; exfalso; apply H; reflexivity | reflexivity]. Qed.

Lemma is_empty_false (v : jsstring) : v <> [] -> is_empty v = false.
Proof. destruct v; [congruence | reflexivity]. Qed.

Lemma locate_whole (v t suggestion lead trail : jsstring) (c : N) (r : jsstring) :
  v = lead ++ t ++ trail ->
  forallb is_space lead = true ->
  t = c :: r -> is_space c = false ->
  locate v suggestion
    {| text := t; startPos := Int 0; endPos := Int (len v) |}
  = Some (Int (len lead), Int (len lead + len t)).
Proof.
  intros Hv Hl Hcr Hc.
  unfold locate. cbn [text startPos endPos].
  assert (Hte : is_empty t = false) by (rewrite Hcr; reflexivity).
  rewrite Hte. cbn [negb andb].
  pose proof (TextNodesFacts.len_nonneg v) as Hlv.
  rewrite substring_prefix by lia.
  rewrite take_ge by (unfold len; lia).
  assert (Hidx : indexOf v t = len lead).
  { unfold indexOf. rewrite Hv, Hcr.
    rewrite (indexOf_after_spaces lead c r trail Hl Hc). lia. }
  destruct (eqb_str v t) eqn:Heq; cbn [negb].
  - apply bool_decide_eq_true in Heq.
    assert (Hlen : len v = len lead + len t + len trail).
    { rewrite Hv. rewrite !FuzzyFacts.len_app. lia. }
    pose proof (TextNodesFacts.len_nonneg lead). pose proof (TextNodesFacts.len_nonneg trail).
    assert (Hvt : len v = len t) by (rewrite Heq; reflexivity).
    assert (len lead = 0) by lia.
    f_equal. f_equal; f_equal; lia.
  - rewrite Hidx. pose proof (TextNodesFacts.len_nonneg lead) as H0.
    destruct (Z.leb_spec 0 (len lead)); [reflexivity | lia].
Qed.

Lemma replace_whole (w : window) (el : element) (v suggestion : jsstring) :
  isConnected el = true ->
  current_text w el = (v, false) ->
  trim v <> [] ->
  exists lead trail : jsstring,
    v = lead ++ trim v ++ trail
    /\ forallb is_space lead = true
    /\ forallb is_space trail = true
    /\ (replaceSentence w (Some el) suggestion
          (Some {| text := trim v; startPos := Int 0; endPos := Int (len v) |})).2
       = true
    /\ writes (lead ++ trim suggestion ++ trail)
         (replaceSentence w (Some el) suggestion
            (Some {| text := trim v; startPos := Int 0; endPos := Int (len v) |})).1.
Proof.
  intros Hconn Hcur Hne.
  pose proof (trim_nonempty v Hne) as Hve.
  destruct (trim_split v) as (lead & trail & Hv & Hl & Ht & Hhead).
  destruct (Hhead Hne) as (c & r & Hcr & Hc).
  exists lead, trail. split; [exact Hv|]. split; [exact Hl|]. split; [exact Ht|].
  remember (trim v) as t eqn:Et. clear Et Hhead Hne.
  pose proof (TextNodesFacts.len_nonneg v) as Hlv. pose proof (TextNodesFacts.len_nonneg lead) as Hll.
  pose proof (TextNodesFacts.len_nonneg trail) as Hlt.
  assert (Hpos : 0 < len t).
  { rewrite Hcr. unfold len. simpl length. lia. }
  assert (Hlen : len v = len lead + len t + len trail).
  { rewrite Hv. rewrite !FuzzyFacts.len_app. lia. }
  unfold replaceSentence. rewrite Hconn, Hcur. cbn [negb text startPos endPos num_lt].
  rewrite !Z.ltb_irrefl. cbn [orb].
  destruct (Z.ltb_spec (len v) 0); [lia|].
  rewrite Hve.
  rewrite (locate_whole v t suggestion lead trail c r Hv Hl Hcr Hc).
  cbn [num_lt num_le].
  destruct (Z.ltb_spec (len lead) 0); [lia|].
  destruct (Z.ltb_spec (len v) (len lead + len t)); [lia|].
  destruct (Z.leb_spec (len lead + len t) (len lead)); [lia|].
  cbn [orb].
  destruct (replace_generic_writes el v (trim suggestion) (Int (len lead))
              (Int (len lead + len t))) as (effects & -> & Hw).
  cbn [fst snd]. split; [reflexivity|].
  rewrite spliced_take_drop in Hw by lia.
  assert (Htake : take (Z.to_nat (len lead)) v = lead).
  { rewrite Hv. unfold len. rewrite Nat2Z.id. apply take_app_length. }
  assert (Hdrop : drop (Z.to_nat (len lead + len t)) v = trail).
  { rewrite Hv. rewrite app_assoc.
    replace (Z.to_nat (len lead + len t)) with (length (lead ++ t))
      by (rewrite length_app; unfold len; lia).
    apply drop_app_length. }
  rewrite Htake, Hdrop in Hw. exact Hw.
Qed.

Lemma getInputContent_reads (w : window) (el : element) (v : jsstring) :
  isConnected el = true ->
  ((isTextInput el || isTextArea el) = true /\ value el = Some v)
  \/ ((isTextInput el || isTextArea el) = false
      /\ isContentEditable el = true
      /\ value el = None /\ textContent el = v) ->
  trim v <> [] ->
  getInputContent w (Some el)
  = {| text := trim v; startPos := Int 0; endPos := Int (len v) |}.
Proof.
  intros Hconn Hkind Hne.
  pose proof (trim_nonempty v Hne) as Hv.
  unfold getInputContent. rewrite Hconn. cbn [negb].
  assert (Htext : match value el with Some v0 => v0 | None => textContent el end = v).
  { destruct Hkind as [[_ ->]|(_ & _ & -> & ->)]; reflexivity. }
  rewrite Htext. unfold unless_text. rewrite !Hv.
  rewrite (is_empty_false _ Hne). reflexivity.
Qed.

Lemma current_text_reads (w : window) (el : element) (v : jsstring) :
  ((isTextInput el || isTextArea el) = true /\ value el = Some v)
  \/ ((isTextInput el || isTextArea el) = false
      /\ isContentEditable el = true
      /\ value el = None /\ textContent el = v) ->
  trim v <> [] ->
  current_text w el = (v, false).
Proof.
  intros Hkind Hne.
  pose proof (trim_nonempty v Hne) as Hv.
  unfold current_text.
  destruct Hkind as [[-> ->]|(-> & Hce & _ & Htc)].
  - unfold or_string. rewrite Hv. reflexivity.
  - unfold isContentEditable_or_attribute. rewrite Hce. cbn [orb].
    unfold or_string. rewrite Htc, Hv. reflexivity.
Qed.



(** The [value] comes first: on a contenteditable element that has one,
    such as a button, whose [value] is the empty string,
    [getInputContent] reads no text, and [replaceSentence] then replaces
    nothing. *)
Example contenteditable_with_value :
  getInputContent plain_page (Some (editable_button (lit "Send it now please")))
  = no_content
  /\ replaceSentence plain_page (Some (editable_button (lit "Send it now please")))
       (lit "Please send it now.") (Some no_content)
     = ([], false).
Proof. split; vm_compute; reflexivity. Qed.

End DomFacts.

(* ================================================================== *)
(** * Theorems: highlights and applying a suggestion                   *)
(* ================================================================== *)

Module HighlightingFacts.
Import JS TextNodes Highlighting HighlightingProps.

Lemma in_omap {A B} (f : A -> option B) (l : list A) (b : B) :
  In b (omap f l) -> exists a : A, In a l /\ f a = Some b.
Proof.
  induction l as [|a l IH]; simpl; [intros []|].
  destruct (f a) as [b'|] eqn:Hf.
  - intros [<-|H].
    + exists a. split; [left; reflexivity | exact Hf].
    + destruct (IH H) as (a' & Hin & Ha'). exists a'. split; [right|]; assumption.
  - intros H. destruct (IH H) as (a' & Hin & Ha'). exists a'. split; [right|]; assumption.
Qed.

(** A text is what lies before a range, the range, and what lies after. *)
Lemma around_range (T : jsstring) (s e : Z) :
  0 <= s -> s <= e -> e <= len T ->
  T = take (Z.to_nat s) T ++ substring T (Int s) (Int e) ++ drop (Z.to_nat e) T
  /\ len (take (Z.to_nat s) T) = s
  /\ len (substring T (Int s) (Int e)) = e - s.
Proof.
  intros Hs Hse He.
  rewrite DomFacts.substring_take_drop by lia.
  repeat split.
  - rewrite <- (take_drop (Z.to_nat s) T) at 1. f_equal.
    rewrite <- (take_drop (Z.to_nat (e - s)) (drop (Z.to_nat s) T)) at 1. f_equal.
    rewrite drop_drop. f_equal. lia.
  - unfold len in *. rewrite length_take. lia.
  - unfold len in *. rewrite length_take, length_drop. lia.
Qed.

Lemma shows_highlighted (el : Dom.element) (T : jsstring) :
  shows el T -> T <> [] ->
  Dom.or_string (Dom.value el) (Dom.textContent el) = T.
Proof.
  intros [[_ Hv]|(_ & Hv & Ht)] Hne; rewrite Hv; unfold Dom.or_string.
  - destruct T; [congruence | reflexivity].
  - exact Ht.
Qed.

Lemma shows_fullText (el : Dom.element) (T : jsstring) :
  shows el T -> T <> [] ->
  (if Dom.isContentEditable el
   then Dom.or_string (Some (Dom.textContent el)) (Dom.innerText el)
   else Dom.or_string (Dom.value el) []) = T.
Proof.
  intros [[Hc Hv]|(Hc & Hv & Ht)] Hne; rewrite Hc; unfold Dom.or_string.
  - rewrite Hv. destruct T; [congruence | reflexivity].
  - rewrite Ht. destruct T; [congruence | reflexivity].
Qed.

(** X19. A highlight can be applied. Let [applyGrammarHighlighting] have
    laid highlights over a connected element whose text [T] is not empty,
    for errors whose positions are integers, the element being either a
    form field whose [isContentEditable] is false, [T] its value, or an
    element whose [isContentEditable] is true and that has no [value]
    property, [T] its text content. For each highlight, as long as the
    text is still [T]: the
    highlight's range holds its error text; the call of [applySuggestion]
    that the popup's Apply button makes returns [true]; it writes [T]
    with that range replaced by the highlight's suggestion; it removes the
    highlight; and it sets the timer that checks the element again. *)
Theorem highlight_can_be_applied
    (positioned : GrammarCheck.grammar_error -> bool) (el : Dom.element)
    (o : overlay) (T : jsstring) (errors : list GrammarCheck.grammar_error)
    (hs : list highlight) (h : highlight) :
  Dom.isConnected el = true ->
  shows el T -> T <> [] ->
  errors <> [] -> Forall whole errors ->
  applyGrammarHighlighting positioned (Some el) o errors = Container hs ->
  In h hs ->
  exists pre post : jsstring,
    T = pre ++ dataset_error h ++ post
    /\ dataset_error h <> []
    /\ dataset_start h = Int (len pre)
    /\ dataset_end h = Int (len pre + len (dataset_error h))
    /\ let r := applySuggestion (Some el) (Container hs) (dataset_suggestion h)
                  (popup_startPos h) (popup_endPos h) in
       returned r = true
       /\ sets_text (pre ++ dataset_suggestion h ++ post) (effects r)
       /\ (exists left : list highlight,
             overlay_after r = Container left /\ ~ In h left /\ incl left hs)
       /\ timer r = Some 100.
Proof.
  intros Hconn Hshow Hne Herr Hwhole Hhl Hin.
  (* the highlight comes from one of the errors *)
  assert (Hfrom : exists err, In err errors /\ highlight_of positioned T err = Some h).
  { unfold applyGrammarHighlighting in Hhl.
    destruct errors as [|e0 errs]; [congruence|].
    rewrite Hconn in Hhl. cbn [negb] in Hhl.
    rewrite (shows_highlighted el T Hshow Hne) in Hhl.
    assert (HT : is_empty T = false) by (destruct T; [congruence | reflexivity]).
    rewrite HT in Hhl.
    destruct o; [discriminate| |]; injection Hhl as <-; apply in_omap; exact Hin. }
  destruct Hfrom as (err & Hinerr & Hh).
  pose proof (proj1 (List.Forall_forall _ _) Hwhole err Hinerr) as [[s Hs] [e He]].
  unfold highlight_of in Hh. rewrite Hs, He in Hh. cbn [num_lt num_le] in Hh.
  destruct (Z.ltb_spec s 0) as [|Hs0]; [discriminate|].
  destruct (Z.ltb_spec (len T) e) as [|HeT]; [discriminate|].
  destruct (Z.leb_spec e s) as [|Hse]; [discriminate|].
  cbn [orb] in Hh.
  destruct (is_empty (substring T (Int s) (Int e))) eqn:Hemp; [discriminate|].
  destruct (positioned err); [|discriminate].
  injection Hh as <-. cbn [dataset_error dataset_suggestion dataset_start dataset_end].
  destruct (around_range T s e Hs0 ltac:(lia) HeT) as (Hsplit & Hlpre & Hlmid).
  exists (take (Z.to_nat s) T), (drop (Z.to_nat e) T).
  split; [exact Hsplit|].
  split; [destruct (substring T (Int s) (Int e)); [discriminate | congruence]|].
  split; [rewrite Hlpre; reflexivity|].
  split; [rewrite Hlpre, Hlmid; f_equal; lia|].
  unfold popup_startPos, popup_endPos.
  cbn [dataset_start dataset_end or_zero].
  unfold applySuggestion. rewrite Hconn. cbn [negb].
  rewrite (shows_fullText el T Hshow Hne).
  assert (HT : is_empty T = false) by (destruct T; [congruence | reflexivity]).
  rewrite HT. cbn [num_lt num_le].
  destruct (Z.ltb_spec s 0) as [|_]; [lia|].
  destruct (Z.ltb_spec (len T) e) as [|_]; [lia|].
  destruct (Z.leb_spec e s) as [|_]; [lia|].
  cbn [orb]. rewrite DomFacts.is_text_node_never.
  assert (Hleft : exists left : list highlight,
             clearGrammarHighlightsForRange (Container hs) (Int s) (Int e)
             = Container left
             /\ ~ In {| dataset_error := substring T (Int s) (Int e);
                        dataset_suggestion := GrammarCheck.suggestion err;
                        dataset_start := Int s; dataset_end := Int e |} left
             /\ incl left hs).
  { eexists. split; [reflexivity|]. split.
    - rewrite filter_In. intros [_ Hk]. revert Hk.
      unfold overlaps. cbn [dataset_start dataset_end isNaN negb num_le andb].
      destruct (Z.leb_spec s e); [|lia]. discriminate.
    - intros x Hx. apply filter_In in Hx. exact (proj1 Hx). }
  destruct Hshow as [[Hc Hv]|(Hc & Hv & Ht)]; rewrite Hc;
    cbn [returned effects overlay_after timer].
  - repeat split; try exact Hleft.
    rewrite DomFacts.substring_prefix, DomFacts.substring_suffix by lia.
    eexists. left. reflexivity.
  - rewrite Ht. cbn [num_min num_max].
    replace (Z.max 0 (Z.min s (len T))) with s by lia.
    replace (Z.max s (Z.min e (len T))) with e by lia.
    repeat split; try exact Hleft.
    rewrite DomFacts.substring_prefix, DomFacts.substring_suffix by lia.
    eexists. right. reflexivity.
Qed.

Lemma highlight_can_be_applied_witness :
  applyGrammarHighlighting (fun _ => true)
    (Some (DomProps.textarea (lit "They was walking home"))) NoContainer [they_was]
  = Container [was_highlight]
  /\ effects (applySuggestion (Some (DomProps.textarea (lit "They was walking home")))
                (Container [was_highlight]) (lit "were") (Int 5) (Int 8))
     = [Dom.SetValue (lit "They were walking home");
        Dom.SetSelection (Int 9) (Int 9); Dom.Focus; Dom.Dispatch "input"]
  /\ returned (applySuggestion (Some (DomProps.textarea (lit "They was walking home")))
                 (Container [was_highlight]) (lit "were") (Int 5) (Int 8))
     = true.
Proof.
  assert (Hl : applyGrammarHighlighting (fun _ => true)
                 (Some (DomProps.textarea (lit "They was walking home")))
                 NoContainer [they_was]
               = Container [was_highlight]) by (vm_compute; reflexivity).
  split; [exact Hl|]. split; [vm_compute; reflexivity|].
  assert (Hw : Forall whole [they_was]).
  { constructor; [|constructor]. split; eexists; reflexivity. }
  destruct (highlight_can_be_applied (fun _ => true)
              (DomProps.textarea (lit "They was walking home")) NoContainer
              (lit "They was walking home") [they_was] [was_highlight] was_highlight
              eq_refl (or_introl (conj eq_refl eq_refl))
              ltac:(discriminate) ltac:(discriminate) Hw Hl
              (or_introl eq_refl))
    as (pre & post & _ & _ & _ & _ & Hret & _).
  exact Hret.
Defined.

(** Where the two functions read different texts, a highlight is laid
    and cannot be applied: on a text area whose [isContentEditable] is
    true, the highlight comes from the value, and [applySuggestion] reads
    the empty text content and gives up. *)
Example editable_textarea_not_applied :
  applyGrammarHighlighting (fun _ => true)
    (Some (editable_textarea (lit "They was walking home"))) NoContainer [they_was]
  = Container [was_highlight]
  /\ applySuggestion (Some (editable_textarea (lit "They was walking home")))
       (Container [was_highlight]) (lit "were") (Int 5) (Int 8)
     = {| effects := []; overlay_after := Container [was_highlight];
          timer := None; returned := false |}.
Proof. split; vm_compute; reflexivity. Qed.

(** ** applyDetailedSuggestion *)

Lemma find_loop_boundary (rest : element) :
  Forall (fun v => skipped v = false) rest ->
  forall (idx : nat) (cur p : Z) (i : nat) (off cl : Z),
    find_loop rest idx cur p = (Some (i, off), cl) ->
    (idx <= i)%nat
    /\ cur + len (concat (take (i - idx) rest)) + off = p.
Proof.
  induction 1 as [|v r Hv _ IH]; intros idx cur p i off cl; cbn [find_loop].
  - discriminate.
  - rewrite Hv.
    destruct ((cur <=? p) && (p <? cur + len v)) eqn:Hc.
    + intros [= <- <- _]. split; [lia|].
      rewrite Nat.sub_diag. cbn. unfold len. simpl length. lia.
    + intros Hf. destruct (IH _ _ _ _ _ _ Hf) as [Hi Hp].
      split; [lia|].
      replace (i - idx)%nat with (S (i - S idx)) by lia.
      cbn [take concat]. rewrite FuzzyFacts.len_app. lia.
Qed.

(** [substring] from the start and to the end, for any index at or after
    the start. *)
Lemma substring_upto (v : jsstring) (s : Z) :
  0 <= s -> substring v (Int 0) (Int s) = take (Z.to_nat s) v.
Proof.
  intros Hs. unfold substring, to_index.
  pose proof (TextNodesFacts.len_nonneg v) as Hv.
  replace (Z.min (Z.max 0 0) (len v)) with 0 by lia.
  replace (Z.min 0 (Z.min (Z.max s 0) (len v))) with 0 by lia.
  replace (Z.max 0 (Z.min (Z.max s 0) (len v))) with (Z.min s (len v)) by lia.
  rewrite Z.sub_0_r. change (Z.to_nat 0) with 0%nat. rewrite drop_0.
  destruct (Z.le_gt_cases s (len v)).
  - replace (Z.min s (len v)) with s by lia. reflexivity.
  - replace (Z.min s (len v)) with (len v) by lia.
    rewrite !take_ge by (unfold len in *; lia). reflexivity.
Qed.

Lemma substring_onward (v : jsstring) (e : Z) :
  0 <= e -> substring v (Int e) (Int (len v)) = drop (Z.to_nat e) v.
Proof.
  intros He. unfold substring, to_index.
  pose proof (TextNodesFacts.len_nonneg v) as Hv.
  replace (Z.min (Z.max (len v) 0) (len v)) with (len v) by lia.
  replace (Z.min (Z.min (Z.max e 0) (len v)) (len v)) with (Z.min e (len v)) by lia.
  replace (Z.max (Z.min (Z.max e 0) (len v)) (len v)) with (len v) by lia.
  destruct (Z.le_gt_cases e (len v)).
  - replace (Z.min e (len v)) with e by lia.
    apply take_ge. rewrite length_drop. unfold len in *. lia.
  - replace (Z.min e (len v)) with (len v) by lia.
    rewrite (drop_ge v (Z.to_nat e)) by (unfold len in *; lia).
    rewrite (drop_ge v (Z.to_nat (len v))) by (unfold len in *; lia).
    apply take_nil.
Qed.

(** X20. On a contenteditable element that is no form field,
    [applyDetailedSuggestion] cannot replace a mistake that ends at the
    end of the counted text or beyond: it returns [false] and changes
    nothing. A mistake that ends before the end is replaced through a
    [Range], and when no text node is blank the range runs from position
    [startIndex] of the text content to position [endIndex]. *)
Theorem applyDetailedSuggestion_contenteditable (el : Dom.element) (o : overlay)
    (suggestion : jsstring) (s e : Z) :
  Dom.isConnected el = true ->
  Dom.isContentEditable el = true ->
  is_form_field el = false ->
  suggestion <> [] ->
  0 <= s < e ->
  let nodes := Dom.text_nodes el in
  let r := applyDetailedSuggestion (Some el) o suggestion (Int s) (Int e) in
  (counted_length nodes <= e -> r = nothing o)
  /\ (e < counted_length nodes ->
      exists (i : nat) (off1 : Z) (j : nat) (off2 : Z),
        returned r = true
        /\ effects r = [Dom.RangeReplace i off1 j off2 suggestion]
        /\ (Forall (fun v => skipped v = false) nodes ->
            boundary nodes i off1 = s /\ boundary nodes j off2 = e)).
Proof.
  intros Hconn Hce Hform Hne Hse nodes r. subst r.
  unfold applyDetailedSuggestion. unfold is_form_field in Hform.
  rewrite Hconn, Hform, Hce. cbn [negb num_lt num_le].
  assert (Hs : is_empty suggestion = false)
    by (destruct suggestion; [congruence | reflexivity]).
  rewrite Hs.
  destruct (Z.ltb_spec s 0); [lia|]. destruct (Z.leb_spec e s); [lia|].
  cbn [orb]. fold nodes. unfold Dom.find_at. fold nodes.
  unfold findTextNodeAtPosition.
  destruct (Z.ltb_spec s 0); [lia|]. destruct (Z.ltb_spec e 0); [lia|].
  split.
  - intros Hend.
    pose proof (TextNodesMoreFacts.find_loop_beyond nodes 0 0 e ltac:(lia)) as Hb.
    rewrite Hb.
    destruct (find_loop nodes 0 0 s) as [[[i off]|] cl].
    + destruct (0 <? 0 + counted_length nodes); reflexivity.
    + destruct (0 <? cl); destruct (0 <? 0 + counted_length nodes); reflexivity.
  - intros Hend.
    destruct (TextNodesMoreFacts.find_loop_in_node nodes 0 0 s ltac:(lia))
      as (i & off1 & cl1 & v1 & Hf1 & _).
    destruct (TextNodesMoreFacts.find_loop_in_node nodes 0 0 e ltac:(lia))
      as (j & off2 & cl2 & v2 & Hf2 & _).
    rewrite Hf1, Hf2. cbn [node offset returned effects].
    exists i, off1, j, off2.
    split; [reflexivity|]. split; [reflexivity|].
    intros Hall. split.
    + destruct (find_loop_boundary nodes Hall 0 0 s i off1 cl1 Hf1) as [_ Hb].
      unfold boundary. rewrite Nat.sub_0_r in Hb. lia.
    + destruct (find_loop_boundary nodes Hall 0 0 e j off2 cl2 Hf2) as [_ Hb].
      unfold boundary. rewrite Nat.sub_0_r in Hb. lia.
Qed.

Lemma applyDetailedSuggestion_contenteditable_witness :
  applyDetailedSuggestion (Some (editable [lit "They was "; lit "walking"]))
    NoContainer (lit "strolling") (Int 9) (Int 16)
  = nothing NoContainer
  /\ effects (applyDetailedSuggestion (Some (editable [lit "They was "; lit "walking"]))
                NoContainer (lit "were") (Int 5) (Int 8))
     = [Dom.RangeReplace 0 5 0 8 (lit "were")].
Proof.
  assert (H0 : lit "strolling" <> []) by discriminate.
  assert (H1 : 0 <= 9 < 16) by lia.
  destruct (applyDetailedSuggestion_contenteditable
              (editable [lit "They was "; lit "walking"]) NoContainer
              (lit "strolling") 9 16 eq_refl eq_refl eq_refl H0 H1) as [Hfail _].
  split; [apply Hfail; vm_compute; discriminate | vm_compute; reflexivity].
Defined.

(** X21. On a connected input or text area, [applyDetailedSuggestion]
    never refuses a suggestion that is not empty for positions [0 <=
    startIndex < endIndex]: it writes the value with the range replaced,
    the range being cut to the value, so that a range that lies beyond
    the value appends the suggestion to it. *)
Theorem applyDetailedSuggestion_form_field (el : Dom.element) (o : overlay)
    (v suggestion : jsstring) (s e : Z) :
  Dom.isConnected el = true ->
  is_form_field el = true ->
  Dom.value el = Some v ->
  suggestion <> [] ->
  0 <= s < e ->
  let r := applyDetailedSuggestion (Some el) o suggestion (Int s) (Int e) in
  returned r = true
  /\ sets_text (take (Z.to_nat s) v ++ suggestion ++ drop (Z.to_nat e) v) (effects r)
  /\ timer r = Some 100
  /\ (len v <= s -> sets_text (v ++ suggestion) (effects r)).
Proof.
  intros Hconn Hform Hv Hne Hse r. subst r.
  unfold applyDetailedSuggestion. unfold is_form_field in Hform.
  rewrite Hconn, Hform, Hv. cbn [negb num_lt num_le].
  assert (Hs : is_empty suggestion = false)
    by (destruct suggestion; [congruence | reflexivity]).
  rewrite Hs.
  destruct (Z.ltb_spec s 0); [lia|]. destruct (Z.leb_spec e s); [lia|].
  cbn [orb].
  assert (Hor : Dom.or_string (Some v) [] = v).
  { unfold Dom.or_string. destruct v; reflexivity. }
  rewrite Hor.
  assert (Hafter : substring v
            (if len v <? e then num_min (Int e) (Int (len v)) else Int e)
            (Int (len v)) = drop (Z.to_nat e) v).
  { pose proof (TextNodesFacts.len_nonneg v).
    destruct (Z.ltb_spec (len v) e).
    - cbn [num_min]. replace (Z.min e (len v)) with (len v) by lia.
      rewrite substring_onward by lia.
      rewrite !drop_ge by (unfold len in *; lia). reflexivity.
    - apply substring_onward. lia. }
  cbn [returned effects timer].
  rewrite Hafter, substring_upto by lia.
  repeat split.
  - eexists. left. reflexivity.
  - intros Hbeyond. rewrite take_ge, drop_ge by (unfold len in *; lia).
    rewrite app_nil_r. eexists. left. reflexivity.
Qed.

Lemma applyDetailedSuggestion_form_field_witness :
  effects (applyDetailedSuggestion (Some (DomProps.textarea (lit "They was")))
             NoContainer (lit "were") (Int 20) (Int 23))
  = [Dom.SetValue (lit "They waswere"); Dom.SetSelection (Int 24) (Int 24);
     Dom.Focus; Dom.Dispatch "input"]
  /\ returned (applyDetailedSuggestion (Some (DomProps.textarea (lit "They was")))
                 NoContainer (lit "were") (Int 20) (Int 23)) = true.
Proof.
  assert (H0 : lit "were" <> []) by discriminate.
  assert (H1 : 0 <= 20 < 23) by lia.
  destruct (applyDetailedSuggestion_form_field (DomProps.textarea (lit "They was"))
              NoContainer (lit "They was") (lit "were") 20 23
              eq_refl eq_refl eq_refl H0 H1) as (Hret & _).
  split; [vm_compute; reflexivity | exact Hret].
Defined.

End HighlightingFacts.

(* ================================================================== *)
(** * Theorems: the popup                                              *)
(* ================================================================== *)

Module PopupFacts.
Import JS Popup PopupProps.

Lemma saveActiveModel_sync (m : model) (p : popup) :
  sync (saveActiveModel m p) !! lit "activeModel" = Some (name m).
Proof.
  unfold saveActiveModel.
  destruct (bool_decide (sync p !! lit "activeModel" = Some (name m))) eqn:H.
  - apply bool_decide_eq_true in H. exact H.
  - cbn. apply lookup_insert_eq.
Qed.

Lemma saveActiveModel_on (m : model) (p : popup) (m' : model) :
  on (saveActiveModel m p) m' = on p m'.
Proof.
  unfold saveActiveModel.
  destruct (bool_decide (sync p !! lit "activeModel" = Some (name m)));
    reflexivity.
Qed.

(** X22. From a popup in which no two toggles are checked, a [change] of
    the toggle of a model leaves that toggle checked and no other, whether
    the click checked it or tried to uncheck it, and the storage holds
    the model's name as [activeModel]. *)
Theorem change_selects_model (p : popup) (m : model) :
  at_most_one p -> present p m = true ->
  only (on_change m p) m
  /\ sync (on_change m p) !! lit "activeModel" = Some (name m).
Proof.
  intros Hone Hm. unfold on_change. rewrite Hm. cbn [negb].
  split; [|apply saveActiveModel_sync].
  intros m'. rewrite saveActiveModel_on. unfold on, with_checked. cbn [present checked].
  unfold set_checked at 1. rewrite bool_decide_eq_true_2 by reflexivity.
  destruct (checked p m) eqn:Hc; cbn [negb].
  - (* the click unchecked the one checked toggle *)
    assert (Hother : existsb
              (fun t => present p t && negb (bool_decide (t = m))
                        && set_checked m false (checked p) t) models = false).
    { apply not_true_is_false. intros Hex. apply existsb_exists in Hex.
      destruct Hex as (t & _ & Ht).
      apply andb_true_iff in Ht as [Ht Hct]. apply andb_true_iff in Ht as [Hpt Hne].
      apply negb_true_iff, bool_decide_eq_false in Hne.
      unfold set_checked in Hct. rewrite bool_decide_eq_false_2 in Hct by exact Hne.
      apply Hne, Hone; unfold on; [rewrite Hpt, Hct | rewrite Hm, Hc]; reflexivity. }
    rewrite Hother. unfold set_checked.
    destruct (bool_decide (m' = m)) eqn:Hd.
    + apply bool_decide_eq_true in Hd. subst m'. rewrite Hm. split; auto.
    + apply bool_decide_eq_false in Hd. split; [|intros ->; congruence].
      intros Hon. apply Hone; unfold on; [exact Hon | rewrite Hm, Hc; reflexivity].
  - destruct (bool_decide (m' = m)) eqn:Hd.
    + apply bool_decide_eq_true in Hd. subst m'. rewrite Hm. split; auto.
    + apply bool_decide_eq_false in Hd.
      destruct (present p m'); cbn; split; try discriminate; intros ->; congruence.
Qed.

Lemma change_selects_model_witness :
  only (on_change gemini typed) gemini
  /\ sync (on_change gemini typed) !! lit "activeModel" = Some (lit "gemini").
Proof.
  assert (Hone : at_most_one typed).
  { intros m m'. unfold on, typed. cbn.
    destruct m, m'; vm_compute; intros; congruence. }
  exact (change_selects_model typed gemini Hone eq_refl).
Defined.

(** Two toggles being checked, unchecking one of them stores its name as
    the active model while the other stays checked. *)
Example change_with_two_checked :
  let p := {| apiKeyInput := []; present := fun _ => true;
              checked := fun m => bool_decide (m = gemini) || bool_decide (m = claude);
              sync := ∅; outbox := [] |} in
  on (on_change gemini p) claude = true
  /\ on (on_change gemini p) gemini = false
  /\ sync (on_change gemini p) !! lit "activeModel" = Some (lit "gemini").
Proof. vm_compute. repeat split. Qed.

(** ** Saving, and opening the popup again *)

Lemma model_of_name (m : model) : model_of (name m) = Some m.
Proof. destruct m; vm_compute; reflexivity. Qed.

Lemma name_not_empty (m : model) : is_empty (name m) = false.
Proof. destruct m; reflexivity. Qed.

Lemma activeModel_of_only (p : popup) (m : model) :
  at_most_one p -> on p m = true -> activeModel p = m.
Proof.
  intros Hone Hm. unfold activeModel, models. cbn [fold_left].
  fold (on p gemini) (on p claude) (on p openai) (on p groq).
  destruct (on p groq) eqn:H4; [apply Hone; assumption|].
  destruct (on p openai) eqn:H3; [apply Hone; assumption|].
  destruct (on p claude) eqn:H2; [apply Hone; assumption|].
  destruct (on p gemini) eqn:H1; destruct m; congruence.
Qed.

(** X23. Saving a key and opening the popup again. When the input holds
    more than white space, the save button stores the trimmed key and the
    active model; a popup opened over that storage then shows the trimmed
    key and, the model's toggle being on the page, has that toggle
    checked and no other. The model stored is the checked one when no two
    are checked. Every message sent to a tab carries the same key and
    model, and a content script that receives it holds that key and
    reads that model as its active model. *)
Theorem save_then_open (inherited : jsstring -> bool) (tabs : option (list tab))
    (p : popup) (checked0 : model -> bool) :
  trim (apiKeyInput p) <> [] ->
  let key := trim (apiKeyInput p) in
  let saved := on_save tabs p in
  let reopened := on_load inherited (opened (present p) checked0 (sync saved)) in
  apiKeyInput reopened = key
  /\ (present p (activeModel p) = true -> only reopened (activeModel p))
  /\ (at_most_one p -> forall m : model, on p m = true -> activeModel p = m)
  /\ (exists sent : list (nat * Content.message),
        outbox saved = outbox p ++ sent
        /\ forall (t : nat) (msg : Content.message) (b : Content.browser),
             In (t, msg) sent ->
             msg = Content.API_KEY_UPDATED key (Some (name (activeModel p)))
             /\ Content.api_key (Content.on_message msg b) = key
             /\ Content.getActiveModel (Content.on_message msg b)
                = name (activeModel p)).
Proof.
  intros Hne key saved reopened. subst saved reopened.
  assert (Hk : is_empty key = false) by (subst key; destruct (trim _); [congruence | reflexivity]).
  unfold on_save. fold key. rewrite Hk.
  set (am := activeModel p).
  assert (Hget_key :
            (<[lit "activeModel" := name am]> (<[lit "googleApiKey" := key]> (sync p)))
              !! lit "googleApiKey" = Some key).
  { rewrite lookup_insert_ne by (vm_compute; discriminate). apply lookup_insert_eq. }
  assert (Hget_model :
            (<[lit "activeModel" := name am]> (<[lit "googleApiKey" := key]> (sync p)))
              !! lit "activeModel" = Some (name am)).
  { apply lookup_insert_eq. }
  cbn [sync outbox].
  split; [|split; [|split]].
  - unfold on_load, opened. cbn [sync apiKeyInput]. rewrite Hget_key, Hk. reflexivity.
  - intros Hp m'. unfold on, on_load, opened. cbn [sync present checked].
    rewrite Hget_model, name_not_empty, model_of_name, Hp.
    unfold set_checked.
    destruct (bool_decide (m' = am)) eqn:Hd.
    + apply bool_decide_eq_true in Hd. subst m'. rewrite Hp. split; auto.
    + apply bool_decide_eq_false in Hd.
      destruct (present p m'); cbn [andb]; split; try discriminate;
        intros E; congruence.
  - intros Hone m Hm. apply activeModel_of_only; assumption.
  - eexists. split; [reflexivity|].
    intros t msg b Hin. unfold notifyContentScripts in Hin.
    destruct tabs as [tabs|]; [|destruct Hin].
    apply in_map_iff in Hin as (x & [= _ <-] & _).
    split; [reflexivity|].
    unfold Content.on_message, Content.getActiveModel, Content.given.
    rewrite name_not_empty, Hk. cbn [Content.api_key Content.localStorage].
    rewrite lookup_insert_eq, name_not_empty. split; reflexivity.
Qed.

Lemma save_then_open_witness :
  trim (apiKeyInput typed) <> []
  /\ apiKeyInput
       (on_load (fun _ => false)
          (opened (present typed) (fun m => bool_decide (m = gemini))
             (sync (on_save (Some [{| tab_id := 7; tab_url := None |}]) typed))))
     = lit "AIza"
  /\ only
       (on_load (fun _ => false)
          (opened (present typed) (fun m => bool_decide (m = gemini))
             (sync (on_save (Some [{| tab_id := 7; tab_url := None |}]) typed))))
       claude.
Proof.
  assert (Hne : trim (apiKeyInput typed) <> []) by (vm_compute; discriminate).
  split; [exact Hne|].
  destruct (save_then_open (fun _ => false)
              (Some [{| tab_id := 7; tab_url := None |}]) typed
              (fun m => bool_decide (m = gemini)) Hne) as (Hin & Hon & _).
  split; [rewrite Hin; vm_compute; reflexivity | exact (Hon eq_refl)].
Defined.

End PopupFacts.

(* ================================================================== *)
(** * Theorems: the logo and its popup                                 *)
(* ================================================================== *)

Module LogoFacts.
Import JS Eff Api ApiProps Logo.
Import ApiFacts.
Local Open Scope eff_scope.

Lemma analyzeSentiment_returns (e : env) (text : jsstring) :
  exists s : sentiment_result, result (analyzeSentiment e text) = Ok s.
Proof.
  unfold analyzeSentiment. rewrite result_try_catch.
  destruct (result (analyzeSentiment_body e text)) as [s|err]; eauto.
Qed.

Lemma analyzeSentiment_one_request (e : env) (text : jsstring) :
  (length (requests (trace (analyzeSentiment e text))) <= 1)%nat.
Proof.
  rewrite analyzeSentiment_requests. apply GrammarCheckMoreFacts.sent_length.
Qed.

Lemma getGrammarSuggestions_one_request (e : env) (text : jsstring) :
  (length (requests (trace (getGrammarSuggestions e text))) <= 1)%nat.
Proof.
  rewrite getGrammarSuggestions_requests. apply GrammarCheckMoreFacts.sent_length.
Qed.

Lemma requests_console (l : level) (label : string) (t : list event) :
  requests (Console l label :: t) = requests t.
Proof. reflexivity. Qed.

Ltac tidy :=
  cbn [result snd trace fst console_log console_error emit ret];
  rewrite ?requests_console;
  change (requests []) with (@nil request);
  cbn [app]; rewrite ?app_nil_r.

(** What [showSuggestionsPopup] can show. *)
Lemma showSuggestionsPopup_shows (e : env) (suggestions : option (list jsstring))
    (info : Dom.sentence) :
  let call := showSuggestionsPopup e suggestions info in
  (exists v : view, result call = Ok v)
  /\ (length (requests (trace call)) <= 1)%nat
  /\ (result call = Ok NotEnoughText ->
      suggestions <> None /\ len (trim (Dom.text info)) < 10)
  /\ (len (trim (Dom.text info)) < 10 ->
      requests (trace call) = []
      /\ (suggestions = None -> result call = Ok (Unavailable analyzing))).
Proof.
  intros call. subst call. unfold showSuggestionsPopup.
  set (text := Dom.text info).
  assert (Hshort : is_empty (trim text) || (len (trim text) <? 10)
                   = (len (trim text) <? 10)).
  { destruct (trim text); [reflexivity|]. reflexivity. }
  rewrite Hshort.
  destruct (Z.ltb_spec (len (trim text)) 10) as [Hlt|Hge].
  - (* short *)
    destruct (Z.leb_spec 10 (len (trim text))) as [|_]; [lia|].
    destruct suggestions as [l|]; cbn [andb].
    + split; [eauto|]. split; [simpl; lia|]. split.
      * intros _. split; [discriminate | exact Hlt].
      * intros _. split; [reflexivity | discriminate].
    + split; [eauto|]. split; [simpl; lia|]. split.
      * discriminate.
      * intros _. split; reflexivity.
  - destruct (Z.leb_spec 10 (len (trim text))) as [_|]; [|lia].
    rewrite andb_false_r.
    destruct (analyzeSentiment_returns e text) as (s & Hs).
    pose proof (analyzeSentiment_one_request e text) as Hone.
    rewrite result_bind, requests_bind, Hs.
    split; [|split; [|split]].
    + destruct suggestions as [[|x l]|]; eauto.
    + destruct suggestions as [[|x l]|]; tidy; exact Hone.
    + destruct suggestions as [[|x l]|]; discriminate.
    + intros Hlt. lia.
Qed.

(** X24. A click on the logo of a connected element always ends with a
    popup and sends at most two requests. When the trimmed text has fewer
    than 10 code units it sends none, and the popup shows the note that
    no suggestions could be generated, with the tone still [Analyzing...];
    the note that asks for at least 10 characters is shown only when the
    call for suggestions has thrown and the element, read again, then
    holds fewer than 10. *)
Theorem click_shows (e1 e2 : env) (w : Dom.window) (element later : Dom.element) :
  Dom.isConnected element = true ->
  let text := Dom.text (Dom.getInputContent w (Some element)) in
  let call := on_click e1 e2 w element later in
  (exists v : view, result call = Ok (Some v))
  /\ (length (requests (trace call)) <= 2)%nat
  /\ (len (trim text) < 10 ->
      result call = Ok (Some (Unavailable analyzing))
      /\ requests (trace call) = [])
  /\ (result call = Ok (Some NotEnoughText) ->
      10 <= len (trim text)
      /\ (exists err : JS.error, result (getGrammarSuggestions e1 text) = Throw err)
      /\ len (trim (Dom.text (Dom.getInputContent w (Some later)))) < 10).
Proof.
  intros Hconn text call. subst call. unfold on_click. rewrite Hconn. cbn [negb].
  fold text.
  set (info := Dom.getInputContent w (Some element)).
  set (info' := Dom.getInputContent w (Some later)).
  assert (Henough : negb (is_empty (trim text)) && (10 <=? len (trim text))
                    = (10 <=? len (trim text))).
  { destruct (trim text); reflexivity. }
  rewrite Henough.
  rewrite result_bind, requests_bind. tidy.
  rewrite result_try_catch, requests_try_catch.
  destruct (Z.leb_spec 10 (len (trim text))) as [Hge|Hlt].
  - (* enough text: the call for suggestions is made *)
    rewrite !result_bind, !requests_bind. tidy.
    pose proof (getGrammarSuggestions_one_request e1 text) as Hg1.
    destruct (result (getGrammarSuggestions e1 text)) as [suggestions|err] eqn:Hg.
    + destruct (showSuggestionsPopup_shows e2 (Some suggestions) info)
        as ((v & Hv) & Hone & Hnot & _).
      tidy. rewrite ?result_bind, ?requests_bind, ?Hv. tidy.
      split; [eauto|]. split; [rewrite length_app; lia|].
      split; [lia|].
      intros [= ->]. destruct (Hnot Hv) as [_ Hshort].
      unfold info in Hshort. fold text in Hshort. lia.
    + destruct (showSuggestionsPopup_shows e2 (Some []) info')
        as ((v & Hv) & Hone & Hnot & _).
      tidy. rewrite ?result_bind, ?requests_bind, ?Hv. tidy.
      split; [eauto|]. split; [rewrite length_app; lia|].
      split; [lia|].
      intros [= ->]. destruct (Hnot Hv) as [_ Hshort].
      split; [exact Hge|]. split; [eauto | exact Hshort].
  - destruct (showSuggestionsPopup_shows e2 None info)
      as (_ & _ & _ & Hshort).
    destruct (Hshort Hlt) as [Hreq Hres].
    rewrite !result_bind, !requests_bind, Hreq, (Hres eq_refl). tidy.
    split; [eauto|]. split; [simpl; lia|].
    split; [intros _; split; reflexivity|].
    discriminate.
Qed.

Lemma click_shows_witness :
  Dom.isConnected (DomProps.textarea (lit "Hi there")) = true
  /\ result (on_click offline offline DomProps.plain_page
               (DomProps.textarea (lit "Hi there")) (DomProps.textarea (lit "Hi there")))
     = Ok (Some (Unavailable analyzing))
  /\ requests (trace (on_click offline offline DomProps.plain_page
                        (DomProps.textarea (lit "Hi there"))
                        (DomProps.textarea (lit "Hi there")))) = [].
Proof.
  assert (Hc : Dom.isConnected (DomProps.textarea (lit "Hi there")) = true)
    by reflexivity.
  split; [exact Hc|].
  destruct (click_shows offline offline DomProps.plain_page
              (DomProps.textarea (lit "Hi there"))
              (DomProps.textarea (lit "Hi there")) Hc) as (_ & _ & Hshort & _).
  apply Hshort. vm_compute. reflexivity.
Defined.

(** ** Without a key *)

Lemma trim_start_idempotent (s : jsstring) :
  trim_start (trim_start s) = trim_start s.
Proof.
  induction s as [|c r IH]; [reflexivity|]. simpl.
  destruct (is_space c) eqn:Hc; [exact IH|]. simpl. rewrite Hc. reflexivity.
Qed.

Lemma trim_end_idempotent (s : jsstring) :
  trim_end (trim_end s) = trim_end s.
Proof.
  unfold trim_end. rewrite rev_involutive, trim_start_idempotent. reflexivity.
Qed.

Lemma trim_idempotent (s : jsstring) : trim (trim s) = trim s.
Proof.
  unfold trim.
  assert (Hfix : trim_start (trim_end (trim_start s)) = trim_end (trim_start s)).
  { destruct (DomFacts.trim_end_split (trim_start s)) as (trail & Hs & _).
    destruct (trim_end (trim_start s)) as [|c r] eqn:He; [reflexivity|].
    simpl in Hs. simpl.
    rewrite (DomFacts.trim_start_head s c _ Hs). reflexivity. }
  rewrite Hfix. apply trim_end_idempotent.
Qed.

Lemma getGrammarSuggestions_no_key (e : env) (text : jsstring) :
  result (getApiKeyWithRetry_default e) = Ok [] ->
  result (getGrammarSuggestions e text) = Ok [no_key_message]
  /\ requests (trace (getGrammarSuggestions e text)) = [].
Proof.
  intros Hk. split.
  - unfold getGrammarSuggestions, getGrammarSuggestions_body.
    rewrite result_try_catch, !result_bind. tidy. rewrite Hk.
    cbn [is_empty]. rewrite result_bind. reflexivity.
  - rewrite getGrammarSuggestions_requests. unfold sent. rewrite Hk. reflexivity.
Qed.

Lemma analyzeSentiment_no_key (e : env) (text : jsstring) :
  result (getApiKeyWithRetry_default e) = Ok [] ->
  result (analyzeSentiment e text) = Ok neutral
  /\ requests (trace (analyzeSentiment e text)) = [].
Proof.
  intros Hk. split.
  - unfold analyzeSentiment, analyzeSentiment_body.
    rewrite result_try_catch, !result_bind. rewrite Hk.
    cbn [is_empty]. rewrite result_bind. reflexivity.
  - rewrite analyzeSentiment_requests. unfold sent. rewrite Hk. reflexivity.
Qed.



(** On a contenteditable element that has a [value], such as a button,
    the click reads the empty value: no message is offered, and the popup
    says that no suggestion is available. *)
Example click_on_editable_button :
  result (on_click offline offline DomProps.plain_page
            (DomProps.editable_button (lit "Send it now please"))
            (DomProps.editable_button (lit "Send it now please")))
  = Ok (Some (Unavailable analyzing))
  /\ requests (trace (on_click offline offline DomProps.plain_page
                        (DomProps.editable_button (lit "Send it now please"))
                        (DomProps.editable_button (lit "Send it now please"))))
     = [].
Proof. split; vm_compute; reflexivity. Qed.

End LogoFacts.

(* ================================================================== *)
(** * Theorems: checking an element again                              *)
(* ================================================================== *)

Module CheckingFacts.
Import JS Eff Api ApiProps GrammarCheck Highlighting Checking.
Import ApiFacts GrammarCheckFacts.

Section Clock.
Variable clock : nat -> Z.

Lemma checkGrammar_requests (e : env) (w : world) (text : jsstring) :
  (length (requests (checkGrammar clock e w text).1.1) <= 1)%nat.
Proof.
  unfold checkGrammar. destruct (is_empty text || (len (trim text) <? 10)).
  { cbn. lia. }
  assert (Hfresh : forall w0,
            (length (requests (check_fresh clock e w0 text).1.1) <= 1)%nat).
  { intros w0.
    destruct (check_fresh_stores clock e w0 text)
      as (td & fields & mistakes & Hc & _ & ->).
    cbn [fst snd]. rewrite !requests_app, warnings_quiet, app_nil_r.
    change (requests [Console Info _]) with (@nil request). cbn [app].
    replace td with (trace (checkGrammarWithDetails e text)) by (rewrite Hc; reflexivity).
    rewrite checkGrammarWithDetails_requests.
    apply GrammarCheckMoreFacts.sent_length. }
  destruct (grammarCheckCache w !! text) as [c|]; [|apply Hfresh].
  cbn [Date_now]. destruct (_ - _ <? CACHE_EXPIRY_MS); [cbn; lia | apply Hfresh].
Qed.

(** What a highlight of [highlight_of] marks. *)
Lemma highlight_of_marks (positioned : grammar_error -> bool) (text : jsstring)
    (err : grammar_error) (h : highlight) :
  highlight_of positioned text err = Some h ->
  dataset_error h = substring text (dataset_start h) (dataset_end h)
  /\ dataset_error h <> []
  /\ dataset_suggestion h = suggestion err.
Proof.
  unfold highlight_of.
  destruct (num_lt _ _ || num_lt _ _ || num_le _ _); [discriminate|].
  destruct (is_empty (substring text (startPos err) (endPos err))) eqn:He;
    [discriminate|].
  destruct (positioned err); [|discriminate].
  intros [= <-]. cbn. repeat split.
  destruct (substring text (startPos err) (endPos err)); [discriminate | congruence].
Qed.

Lemma applyGrammarHighlighting_marks (positioned : grammar_error -> bool)
    (el : Dom.element) (o : overlay) (errors : list grammar_error) :
  applyGrammarHighlighting positioned (Some el) o errors = o
  \/ exists hs : list highlight,
       applyGrammarHighlighting positioned (Some el) o errors = Container hs
       /\ errors <> []
       /\ forall h : highlight, In h hs ->
            dataset_error h
            = substring (element_text el) (dataset_start h) (dataset_end h)
            /\ dataset_error h <> [].
Proof.
  unfold applyGrammarHighlighting.
  destruct errors as [|e0 errs]; [left; reflexivity|].
  destruct (negb (Dom.isConnected el)); [left; reflexivity|].
  fold (element_text el).
  assert (Hall : exists hs : list highlight,
            (if is_empty (element_text el) then Container []
             else Container (omap (highlight_of positioned (element_text el)) (e0 :: errs)))
            = Container hs
            /\ e0 :: errs <> []
            /\ forall h : highlight, In h hs ->
                 dataset_error h
                 = substring (element_text el) (dataset_start h) (dataset_end h)
                 /\ dataset_error h <> []).
  { destruct (is_empty (element_text el)).
    - exists []. split; [reflexivity|]. split; [discriminate|]. intros h [].
    - eexists. split; [reflexivity|]. split; [discriminate|].
      intros h Hin. apply HighlightingFacts.in_omap in Hin as (err & _ & Hh).
      destruct (highlight_of_marks positioned _ err h Hh) as (H1 & H2 & _).
      split; assumption. }
  destruct o; [left; reflexivity | right; exact Hall | right; exact Hall].
Qed.

(** X26. The check that runs one second after the last input sends at
    most one request, and it either leaves the highlights as they were
    or, [checkGrammar] having returned at least one error, lays new ones,
    each of which marks its error text in the element's text of that
    moment. It never takes highlights away when the check finds no
    error: they stay as they were, also when the text has become shorter
    than 10 code units or no key is set. The check that follows an
    applied suggestion does empty the container when [checkGrammar]
    returns no error for a text of at least 10. *)
Theorem debouncedCheck_overlay (positioned : grammar_error -> bool) (e : env)
    (w : world) (element later : Dom.element) (o : overlay) :
  let checked := checkGrammar clock e w (element_text element) in
  let r := debouncedCheck clock positioned e w element later o in
  (length (requests r.1.1) <= 1)%nat
  /\ (r.1.2 = o
      \/ exists hs : list highlight,
           r.1.2 = Container hs
           /\ checked.1.2 <> []
           /\ forall h : highlight, In h hs ->
                dataset_error h
                = substring (element_text later) (dataset_start h) (dataset_end h)
                /\ dataset_error h <> [])
  /\ (checked.1.2 = [] -> r.1.2 = o)
  /\ (checked.1.2 = [] -> Dom.isConnected element = true ->
      10 <= len (trim (element_text element)) ->
      (checkAndReapplyGrammarHighlighting clock positioned e w (Some element) later o).1.2
      = clear o)
  /\ (len (trim (element_text element)) < 10 -> r = ([], o, w))
  /\ (match config_getApiKey e with
      | Some getApiKey => getApiKey 0%nat = []
      | None => True
      end ->
      requests r.1.1 = [] /\ r.1.2 = o /\ r.2 = w).
Proof.
  intros checked r. subst checked r.
  assert (Hshort : len (trim (element_text element)) < 10 ->
                   debouncedCheck clock positioned e w element later o = ([], o, w)).
  { intros Hlt. unfold debouncedCheck.
    destruct (Z.leb_spec 10 (len (trim (element_text element)))); [lia | reflexivity]. }
  assert (Hnokey : match config_getApiKey e with
                   | Some getApiKey => getApiKey 0%nat = []
                   | None => True
                   end ->
                   requests (debouncedCheck clock positioned e w element later o).1.1 = []
                   /\ (debouncedCheck clock positioned e w element later o).1.2 = o
                   /\ (debouncedCheck clock positioned e w element later o).2 = w).
  { intros Hk. unfold debouncedCheck.
    destruct (10 <=? len (trim (element_text element))); [|repeat split].
    destruct (config_getApiKey e) as [getApiKey|]; [rewrite Hk|]; repeat split. }
  cut ((length (requests (debouncedCheck clock positioned e w element later o).1.1) <= 1)%nat
       /\ ((debouncedCheck clock positioned e w element later o).1.2 = o
           \/ exists hs : list highlight,
                (debouncedCheck clock positioned e w element later o).1.2 = Container hs
                /\ (checkGrammar clock e w (element_text element)).1.2 <> []
                /\ forall h : highlight, In h hs ->
                     dataset_error h
                     = substring (element_text later) (dataset_start h) (dataset_end h)
                     /\ dataset_error h <> [])
       /\ ((checkGrammar clock e w (element_text element)).1.2 = [] ->
           (debouncedCheck clock positioned e w element later o).1.2 = o)
       /\ ((checkGrammar clock e w (element_text element)).1.2 = [] ->
           Dom.isConnected element = true ->
           10 <= len (trim (element_text element)) ->
           (checkAndReapplyGrammarHighlighting clock positioned e w (Some element)
              later o).1.2 = clear o)).
  { intros (H1 & H2 & H3 & H4). repeat split; try assumption; apply Hnokey; assumption. }
  clear Hshort Hnokey. unfold debouncedCheck.
  pose proof (checkGrammar_requests e w (element_text element)) as Hreq.
  destruct (checkGrammar clock e w (element_text element)) as [[t errors] w'] eqn:Hc.
  cbn [fst snd] in *.
  assert (Hlast : errors = [] -> Dom.isConnected element = true ->
                  10 <= len (trim (element_text element)) ->
                  (checkAndReapplyGrammarHighlighting clock positioned e w
                     (Some element) later o).1.2 = clear o).
  { intros -> Hconn Hlen. unfold checkAndReapplyGrammarHighlighting.
    rewrite Hconn, Hc. cbn [negb].
    destruct (Z.ltb_spec (len (trim (element_text element))) 10); [lia|].
    reflexivity. }
  destruct (10 <=? len (trim (element_text element)));
    [|cbn; repeat split; auto; lia].
  destruct (negb _); [cbn; repeat split; auto; lia|].
  cbn [fst snd].
  split; [exact Hreq|].
  destruct (Dom.isConnected later); [|repeat split; auto].
  split; [|split; [|exact Hlast]].
  - destruct (applyGrammarHighlighting_marks positioned later o errors)
      as [Hsame|(hs & Hhs & Hne & Hmarks)]; [left; exact Hsame|].
    right. exists hs. repeat split; try assumption; apply Hmarks; assumption.
  - intros ->. destruct o; reflexivity.
Qed.

End Clock.

(** The text has been corrected and no key is set any more: the highlight
    of an earlier check stays. *)
Example stale_highlight_stays :
  (debouncedCheck (fun _ => 0) (fun _ => true) offline initial
     (DomProps.textarea (lit "They were walking home"))
     (DomProps.textarea (lit "They were walking home"))
     (Container [HighlightingProps.was_highlight])).1.2
  = Container [HighlightingProps.was_highlight].
Proof. vm_compute. reflexivity. Qed.

End CheckingFacts.

(* ================================================================== *)
(** * Theorems: plain sentences pass the cleaning unchanged            *)
(* ================================================================== *)

Module CleanFacts.
Import JS Eff Api ApiProps CleanProps.

(** ** What [ordinary] and [is_terminal] exclude *)

Lemma ordinary_facts (c : N) :
  ordinary c = true ->
  c <> 42%N /\ c <> 58%N /\ c <> 40%N /\ c <> 91%N /\ c <> 93%N /\ c <> 46%N
  /\ (is_space c = true -> c = 32%N).
Proof.
  unfold ordinary. intros H. apply andb_true_iff in H as [H1 H2].
  apply negb_true_iff in H1.
  repeat (apply orb_false_iff in H1 as [H1 ?]).
  repeat match goal with H : (_ =? _)%N = false |- _ => apply N.eqb_neq in H end.
  repeat split; try assumption.
  intros Hs. rewrite Hs in H2. cbn in H2. apply N.eqb_eq in H2. exact H2.
Qed.

Lemma terminal_facts (t : N) :
  is_terminal t = true ->
  t <> 42%N /\ t <> 58%N /\ t <> 40%N /\ t <> 91%N /\ t <> 93%N
  /\ is_space t = false /\ is_quote t = false.
Proof.
  unfold is_terminal. intros H.
  apply orb_true_iff in H as [H|H]; [apply orb_true_iff in H as [H|H]|];
    apply N.eqb_eq in H; subst t; repeat split; discriminate.
Qed.

(** ** Each step of [clean_line] on a text it has no rule for *)

Lemma remove_bold_same (s : jsstring) :
  Forall (fun c => c <> 42%N) s -> remove_bold s = s.
Proof.
  induction 1 as [|a r Ha Hr IH]; [reflexivity|].
  cbn [remove_bold]. destruct r as [|b r']; [reflexivity|].
  destruct (N.eqb_spec a 42); [congruence|]. cbn [andb]. rewrite IH. reflexivity.
Qed.

Lemma drop_until_none (c : N) (s : jsstring) :
  Forall (fun x => x <> c) s -> drop_until c s = [].
Proof.
  induction 1 as [|x r Hx _ IH]; [reflexivity|]. simpl.
  destruct (N.eqb_spec x c); [congruence | exact IH].
Qed.

Lemma upper_colon (b : N) : upper b = 58%N -> b = 58%N.
Proof.
  unfold upper. destruct ((97 <=? b) && (b <=? 122))%N eqn:H; [|auto].
  apply andb_true_iff in H as [H1 H2].
  apply N.leb_le in H1. intros E. lia.
Qed.

Lemma strip_prefix_ci_colon (p : jsstring) :
  forall x r : jsstring,
    strip_prefix_ci p x = Some r -> In 58%N p -> In 58%N x.
Proof.
  induction p as [|a p IH]; intros x r; simpl; [intros _ []|].
  destruct x as [|b x]; [discriminate|].
  destruct (N.eqb_spec (upper a) (upper b)) as [E|]; [|discriminate].
  intros H [Ha|Hin].
  - subst a. left. apply upper_colon. symmetry. exact E.
  - right. exact (IH x r H Hin).
Qed.

Lemma strip_prefix_ci_rest (p : jsstring) :
  forall x r : jsstring,
    strip_prefix_ci p x = Some r -> exists pre : jsstring, x = pre ++ r.
Proof.
  induction p as [|a p IH]; intros x r; simpl.
  - intros [= ->]. exists []. reflexivity.
  - destruct x as [|b x]; [discriminate|].
    destruct (upper a =? upper b)%N; [|discriminate].
    intros H. destruct (IH x r H) as (pre & ->). exists (b :: pre). reflexivity.
Qed.

Lemma no_colon_not_in (s : jsstring) :
  Forall (fun c => c <> 58%N) s -> ~ In 58%N s.
Proof.
  intros H Hin. apply (proj1 (List.Forall_forall _ _) H 58%N Hin). reflexivity.
Qed.

Lemma strip_label_same (s : jsstring) :
  Forall (fun c => c <> 58%N) s -> strip_label s = s.
Proof.
  intros H. pose proof (no_colon_not_in s H) as Hno.
  unfold strip_label, label_corrected, label_alternative, label_any.
  destruct (strip_prefix_ci (lit "Grammatically corrected version:") s) as [r|] eqn:H1.
  { exfalso. apply Hno. apply (strip_prefix_ci_colon _ s r H1).
    change (lit "Grammatically corrected version:")
      with (lit "Grammatically corrected version" ++ [58%N]).
    apply in_or_app. right. left. reflexivity. }
  destruct (strip_prefix_ci (lit "Alternative version ") s) as [[|c r]|] eqn:H2.
  - destruct s as [|c0 r0]; [reflexivity|].
    inversion H as [|? ? Hc Hr]; subst.
    destruct (N.eqb_spec c0 58); [congruence|].
    unfold skip_non_colon. rewrite (drop_until_none 58 r0 Hr). reflexivity.
  - assert (Hr : ~ In 58%N r).
    { destruct (strip_prefix_ci_rest _ s _ H2) as (pre & Hs).
      intros Hin. apply Hno. rewrite Hs. apply in_or_app. right. right. exact Hin. }
    assert (Hnone : (if is_digit c
                     then match skip_digits r with
                          | x :: rest => if (x =? 58)%N then Some rest else None
                          | [] => None
                          end
                     else None) = None).
    { destruct (is_digit c); [|reflexivity].
      destruct (ApiFacts.skip_digits_spec r) as (ds & Hds & _).
      destruct (skip_digits r) as [|x rest]; [reflexivity|].
      destruct (N.eqb_spec x 58) as [->|]; [|reflexivity].
      exfalso. apply Hr. rewrite Hds. apply in_or_app. right. left. reflexivity. }
    rewrite Hnone.
    destruct s as [|c0 r0]; [reflexivity|].
    inversion H as [|? ? Hc Hr0]; subst.
    destruct (N.eqb_spec c0 58); [congruence|].
    unfold skip_non_colon. rewrite (drop_until_none 58 r0 Hr0). reflexivity.
  - destruct s as [|c0 r0]; [reflexivity|].
    inversion H as [|? ? Hc Hr]; subst.
    destruct (N.eqb_spec c0 58); [congruence|].
    unfold skip_non_colon. rewrite (drop_until_none 58 r0 Hr). reflexivity.
Qed.

Lemma paren_match_none (s : jsstring) :
  Forall (fun c => c <> 40%N) s -> paren_match s = None.
Proof.
  intros H. unfold paren_match.
  destruct (DomFacts.trim_start_split s) as (lead & Hs & _).
  destruct (trim_start s) as [|c r]; [reflexivity|].
  assert (Hc : c <> 40%N).
  { apply (proj1 (List.Forall_forall _ _) H). rewrite Hs.
    apply in_or_app. right. left. reflexivity. }
  destruct (N.eqb_spec c 40); [congruence | reflexivity].
Qed.

Lemma remove_parens_same (s : jsstring) :
  Forall (fun c => c <> 40%N) s -> remove_parens s = s.
Proof.
  unfold remove_parens. induction 1 as [|c r Hc Hr IH]; [reflexivity|].
  cbn [remove_parens_from].
  rewrite (paren_match_none (c :: r)) by (constructor; assumption).
  rewrite IH. reflexivity.
Qed.

Lemma remove_brackets_same (s : jsstring) :
  Forall (fun c => c <> 91%N /\ c <> 93%N) s -> remove_brackets s = s.
Proof.
  unfold remove_brackets. induction 1 as [|c r [H1 H2] _ IH]; [reflexivity|].
  simpl. destruct (N.eqb_spec c 91); [congruence|].
  destruct (N.eqb_spec c 93); [congruence|]. simpl. rewrite IH. reflexivity.
Qed.

Lemma cut_explanation_same (body : jsstring) (t : N) :
  Forall (fun c => c <> 46%N) body -> cut_explanation (body ++ [t]) = body ++ [t].
Proof.
  induction 1 as [|c r Hc _ IH].
  - cbn. rewrite andb_false_r. reflexivity.
  - cbn [app cut_explanation]. destruct (N.eqb_spec c 46); [congruence|].
    cbn [andb]. rewrite IH. reflexivity.
Qed.

Lemma strip_quotes_same (c : N) (body : jsstring) (t : N) :
  is_quote c = false -> is_quote t = false ->
  strip_quotes (c :: body ++ [t]) = c :: body ++ [t].
Proof.
  intros Hc Ht. unfold strip_quotes. rewrite Hc.
  change (c :: body ++ [t]) with ((c :: body) ++ [t]).
  rewrite rev_app_distr. cbn [rev app]. rewrite Ht. reflexivity.
Qed.

Lemma trim_same (c : N) (body : jsstring) (t : N) :
  is_space c = false -> is_space t = false ->
  trim (c :: body ++ [t]) = c :: body ++ [t].
Proof.
  intros Hc Ht. unfold trim, trim_end. cbn [trim_start]. rewrite Hc.
  change (c :: body ++ [t]) with ((c :: body) ++ [t]).
  rewrite rev_app_distr. cbn [rev app trim_start]. rewrite Ht.
  change (t :: rev body ++ [c]) with ([t] ++ rev (c :: body)).
  rewrite rev_app_distr, rev_involutive. reflexivity.
Qed.

Lemma collapse_spaces_same (s : jsstring) :
  Forall (fun c => is_space c = true -> c = 32%N) s ->
  single_spaced s = true ->
  forall in_run : bool,
    (in_run = true -> match s with c :: _ => is_space c = false | [] => True end) ->
    collapse_spaces in_run s = s.
Proof.
  induction 1 as [|c r Hc _ IH]; intros Hsingle in_run Hrun; [reflexivity|].
  cbn [collapse_spaces].
  assert (Hr : single_spaced r = true).
  { cbn [single_spaced] in Hsingle. destruct r; [reflexivity|].
    apply andb_true_iff in Hsingle as [_ H]. exact H. }
  destruct (is_space c) eqn:Hs.
  - destruct in_run; [specialize (Hrun eq_refl); cbn in Hrun; congruence|].
    rewrite (Hc eq_refl). f_equal. apply IH; [exact Hr|].
    intros _. destruct r as [|b r']; [exact I|].
    cbn [single_spaced] in Hsingle. apply andb_true_iff in Hsingle as [H _].
    rewrite Hs in H. cbn in H. apply negb_true_iff in H. exact H.
  - f_equal. apply IH; [exact Hr | discriminate].
Qed.

Lemma ensure_terminal_same (s : jsstring) (t : N) :
  is_terminal t = true -> ensure_terminal (s ++ [t]) = s ++ [t].
Proof.
  intros Ht. unfold ensure_terminal, ends_with_terminal.
  rewrite rev_app_distr. cbn [rev app]. rewrite Ht. reflexivity.
Qed.

(** A plain sentence passes every step unchanged. *)
Lemma clean_plain_sentence (ds : jsstring) (w : N) (s : jsstring) :
  ds <> [] -> Forall (fun c => is_digit c = true) ds -> is_space w = true ->
  plain_sentence s ->
  numbered (ds ++ [46%N; w] ++ s) = Some s
  /\ clean_line (ds ++ [46%N; w] ++ s) = s.
Proof.
  intros Hne Hds Hw (c & body & t & Hs & Hcs & Hcq & Hco & Hbody & Ht & Hsingle).
  assert (Hnum : numbered (ds ++ [46%N; w] ++ s) = Some s).
  { apply ApiFacts.numbered_spec. exists ds, w. repeat split; assumption. }
  split; [exact Hnum|].
  destruct (terminal_facts t Ht) as (T1 & T2 & T3 & T4 & T5 & T6 & T7).
  assert (Hall : Forall (fun x => ordinary x = true) (c :: body)).
  { constructor; [exact Hco|]. apply List.Forall_forall.
    intros x Hx. exact (proj1 (forallb_forall _ _) Hbody x Hx). }
  assert (Hchars : forall P : N -> Prop,
             (forall x, ordinary x = true -> P x) -> P t -> Forall P s).
  { intros P HP HPt. rewrite Hs. change (c :: body ++ [t]) with ((c :: body) ++ [t]).
    apply Forall_app. split.
    - eapply List.Forall_impl; [|exact Hall]. exact HP.
    - constructor; [exact HPt | constructor]. }
  unfold clean_line, strip_number. rewrite Hnum. cbn [default from_option id].
  rewrite remove_bold_same
    by (apply Hchars; [intros x Hx; apply (ordinary_facts x Hx) | exact T1]).
  rewrite strip_label_same
    by (apply Hchars; [intros x Hx; apply (ordinary_facts x Hx) | exact T2]).
  rewrite remove_parens_same
    by (apply Hchars; [intros x Hx; apply (ordinary_facts x Hx) | exact T3]).
  rewrite remove_brackets_same
    by (apply Hchars; [intros x Hx; split; apply (ordinary_facts x Hx) | split; assumption]).
  assert (Hbp : Forall (fun x => x <> 46%N) (c :: body)).
  { eapply List.Forall_impl; [|exact Hall]. intros x Hx. apply (ordinary_facts x Hx). }
  rewrite Hs. change (c :: body ++ [t]) with ((c :: body) ++ [t]).
  rewrite (cut_explanation_same (c :: body) t Hbp).
  change ((c :: body) ++ [t]) with (c :: body ++ [t]).
  rewrite (strip_quotes_same c body t Hcq T7).
  rewrite (trim_same c body t Hcs T6).
  rewrite collapse_spaces_same.
  - change (c :: body ++ [t]) with ((c :: body) ++ [t]).
    apply ensure_terminal_same. exact Ht.
  - rewrite <- Hs. apply Hchars.
    + intros x Hx. apply (ordinary_facts x Hx).
    + intros E. congruence.
  - rewrite <- Hs. exact Hsingle.
  - discriminate.
Qed.

(** ** The lines of a listing *)

Lemma split_lines_line (l rest : jsstring) :
  Forall (fun c => c <> 10%N) l ->
  split_lines (l ++ 10%N :: rest) = l :: split_lines rest.
Proof.
  induction 1 as [|c r Hc _ IH]; [reflexivity|].
  cbn [app split_lines]. destruct (N.eqb_spec c 10); [congruence|].
  rewrite IH. reflexivity.
Qed.

Lemma split_lines_last (l : jsstring) :
  Forall (fun c => c <> 10%N) l -> split_lines l = [l].
Proof.
  induction 1 as [|c r Hc _ IH]; [reflexivity|].
  cbn [split_lines]. destruct (N.eqb_spec c 10); [congruence|].
  rewrite IH. reflexivity.
Qed.

Lemma split_join_lines (lines : list jsstring) :
  lines <> [] ->
  Forall (Forall (fun c => c <> 10%N)) lines ->
  split_lines (join_lines lines) = lines.
Proof.
  intros Hne H. induction H as [|l rest Hl Hrest IH]; [congruence|].
  cbn [join_lines]. destruct rest as [|l' rest'].
  - apply split_lines_last. exact Hl.
  - rewrite split_lines_line by exact Hl. f_equal. apply IH. discriminate.
Qed.

Lemma digit_not_feed (c : N) : is_digit c = true -> c <> 10%N.
Proof. intros H ->. discriminate H. Qed.

Lemma item_one_line (it : jsstring * jsstring) :
  plain_item it -> Forall (fun c => c <> 10%N) (item it).
Proof.
  intros (_ & Hds & (c & body & t & Hs & Hcs & _ & Hco & Hbody & Ht & _)).
  unfold item. apply Forall_app. split.
  - eapply List.Forall_impl; [|exact Hds]. exact digit_not_feed.
  - apply Forall_app. split; [repeat constructor; discriminate|].
    rewrite Hs. constructor; [intros ->; discriminate Hcs|].
    apply Forall_app. split.
    + apply List.Forall_forall. intros x Hx E. subst x.
      pose proof (proj1 (forallb_forall _ _) Hbody _ Hx) as Ho.
      destruct (ordinary_facts _ Ho) as (_ & _ & _ & _ & _ & _ & Hsp).
      specialize (Hsp eq_refl). discriminate Hsp.
    + constructor; [|constructor]. intros ->. discriminate Ht.
Qed.

Lemma numbered_lines_listing (items : list (jsstring * jsstring)) :
  Forall plain_item items ->
  List.map clean_line (numbered_lines (listing items)) = List.map snd items.
Proof.
  intros H. unfold numbered_lines, listing.
  destruct items as [|it0 its]; [reflexivity|].
  rewrite split_join_lines.
  - induction H as [|it rest Hit _ IH]; [reflexivity|].
    destruct Hit as (Hne & Hds & Hplain).
    destruct (clean_plain_sentence (fst it) 32 (snd it) Hne Hds eq_refl Hplain)
      as [Hnum Hclean].
    assert (Hsome : is_Some (numbered (item it))).
    { unfold item. change (lit ". " ++ snd it) with ([46%N; 32%N] ++ snd it).
      rewrite Hnum. eauto. }
    cbn [List.map List.filter]. rewrite (bool_decide_eq_true_2 _ Hsome).
    cbn [List.map]. f_equal; [|exact IH].
    unfold item. change (lit ". " ++ snd it) with ([46%N; 32%N] ++ snd it).
    exact Hclean.
  - discriminate.
  - apply List.Forall_forall. intros l Hl. apply in_map_iff in Hl as (it & <- & Hin).
    apply item_one_line. exact (proj1 (List.Forall_forall _ _) H it Hin).
Qed.

(** X27. Plain sentences pass the cleaning unchanged. When the hosted
    model answers with a numbered list and nothing else, each item being
    digits, a period, a space and a plain sentence (no asterisk, colon,
    opening parenthesis, square bracket or inner period, single spaces,
    no quote in front, a final ['.'], ['!'] or ['?']),
    [getGrammarSuggestions] returns exactly these sentences, in order. *)
Theorem plain_suggestions_unchanged (e : env) (text : jsstring)
    (items : list (jsstring * jsstring)) :
  replies e (suggestions_prompt text) 30000 (listing items) ->
  Forall plain_item items ->
  result (getGrammarSuggestions e text) = Ok (List.map snd items).
Proof.
  intros Hreply Hitems.
  rewrite (ApiFacts.getGrammarSuggestions_reply e text _ Hreply).
  f_equal. apply numbered_lines_listing. exact Hitems.
Qed.

Lemma plain_suggestions_unchanged_witness :
  Forall plain_item two_sentences
  /\ result (getGrammarSuggestions
               (answering (listing two_sentences) (fun _ => Throw SyntaxError))
               (lit "They was walking home"))
     = Ok [lit "They were walking home."; lit "Weren't they walking home?"].
Proof.
  assert (Hitems : Forall plain_item two_sentences).
  { constructor; [|constructor; [|constructor]].
    - split; [discriminate|]. split; [repeat constructor|].
      exists 84%N, (lit "hey were walking home"), 46%N.
      repeat split; reflexivity.
    - split; [discriminate|]. split; [repeat constructor|].
      exists 87%N, (lit "eren't they walking home"), 63%N.
      repeat split; reflexivity. }
  split; [exact Hitems|].
  exact (plain_suggestions_unchanged _ (lit "They was walking home") two_sentences
           (ApiFacts.answering_replies _ _ _ _) Hitems).
Defined.

(** A sentence with a colon is not plain: what stands before the colon is
    taken for a label and dropped. *)
Example colon_cuts_sentence :
  clean_line (lit "1. Remember this: be kind.") = lit "be kind.".
Proof. vm_compute. reflexivity. Qed.

End CleanFacts.

(* ================================================================== *)
(** * Theorems: the check behind the debounce                          *)
(* ================================================================== *)

Module TypingFacts.
Import JS Eff Api GrammarCheck Highlighting Checking Typing.

Section Clock.
Variable clock : nat -> Z.

Lemma debouncedCheck_requests (s : seen) (w : world) (o : overlay) :
  (length (requests
             (debouncedCheck clock (positioned s) (env s) w (element s) (later s) o).1.1)
   <= 1)%nat.
Proof.
  unfold debouncedCheck.
  pose proof (CheckingFacts.checkGrammar_requests clock (env s) w
                (element_text (element s))) as Hreq.
  destruct (checkGrammar clock (env s) w (element_text (element s)))
    as [[t errors] w'].
  destruct (10 <=? len (trim (element_text (element s)))); [|cbn; lia].
  destruct (negb _); [cbn; lia | exact Hreq].
Qed.

Lemma checks_requests (runs : list (Z * seen)) :
  forall (w : world) (o : overlay),
    (length (requests (checks clock runs w o).1.1) <= length runs)%nat.
Proof.
  induction runs as [|[time s] rest IH]; intros w o; [cbn; lia|].
  cbn [checks].
  pose proof (debouncedCheck_requests s w o) as H1.
  destruct (debouncedCheck clock (positioned s) (env s) w (element s) (later s) o)
    as [[t o'] w'].
  specialize (IH w' o').
  destruct (checks clock rest w' o') as [[t' o''] w''].
  cbn [fst snd length] in *. rewrite ApiFacts.requests_app, length_app. lia.
Qed.

(** X28. Typing costs at most one request per pause. The events of an
    element that is being checked lead to no more requests than there
    are events; and a burst of events, each less than a second after the
    one before, leads to a single run of the check, which finds the
    element as it is a second after the last event and sends at most one
    request. *)
Theorem burst_costs_one_request (events : list (Z * seen)) (w : world)
    (o : overlay) :
  (length (requests (on_events clock events w o).1.1) <= length events)%nat
  /\ (forall (t0 : Z) (s0 : seen) (rest : list (Z * seen)),
        events = (t0, s0) :: rest ->
        Timeline.burst seen 1000 events ->
        let final := snd (List.last rest (t0, s0)) in
        on_events clock events w o
        = checks clock [(fst (List.last rest (t0, s0)) + 1000, final)] w o
        /\ (length (requests (on_events clock events w o).1.1) <= 1)%nat).
Proof.
  split.
  - unfold on_events.
    pose proof (TimelineFacts.invocations_fresh_length seen events 1000) as Hruns.
    pose proof (checks_requests
                  (Timeline.invocations seen Utils.debouncedCheck None events) w o)
      as Hreq.
    unfold Utils.debouncedCheck in *. lia.
  - intros t0 s0 rest -> Hburst final.
    assert (Hrun : Timeline.invocations seen Utils.debouncedCheck None ((t0, s0) :: rest)
                   = [(fst (List.last rest (t0, s0)) + 1000, final)]).
    { cbn [Timeline.invocations]. unfold Timeline.fired, Utils.debouncedCheck.
      cbn [Utils.debounce Utils.timer app].
      apply (TimelineFacts.invocations_burst seen 1000 rest t0 s0 (Utils.debounce 1000));
        [reflexivity | exact Hburst]. }
    unfold on_events. rewrite Hrun. split; [reflexivity|].
    apply (checks_requests [(fst (List.last rest (t0, s0)) + 1000, final)] w o).
Qed.

End Clock.

(** Three key strokes within a second of each other: one run, a second
    after the last. *)
Example burst_of_three :
  let typing (v : string) :=
    {| env := ApiProps.offline;
       element := DomProps.textarea (lit v);
       later := DomProps.textarea (lit v);
       positioned := fun _ => true |} in
  let events := [(0, typing "They was walkin"%string);
                 (400, typing "They was walking"%string);
                 (900, typing "They was walking h"%string)] in
  Timeline.burst seen 1000 events
  /\ Timeline.invocations seen Utils.debouncedCheck None events
     = [(1900, typing "They was walking h"%string)].
Proof. vm_compute. repeat split; discriminate. Qed.

End TypingFacts.

(* ================================================================== *)
(** * Theorems: how replies are parsed                               *)
(* ================================================================== *)

Module ParsingFacts.
Import JS Eff Api ApiProps CleanProps ParsingProps.

Lemma numbered_prefix (p x : jsstring) :
  number_prefix p -> numbered (p ++ x) = Some x.
Proof.
  intros (ds & w & Hne & Hds & Hw & ->). apply ApiFacts.numbered_spec.
  exists ds, w. repeat split; try assumption.
  rewrite <- app_assoc. reflexivity.
Qed.

Lemma clean_line_prefix (p x : jsstring) :
  number_prefix p ->
  clean_line (p ++ x) =
  ensure_terminal
    (collapse_spaces false
       (trim (strip_quotes (cut_explanation (remove_brackets
          (remove_parens (strip_label (remove_bold x)))))))).
Proof.
  intros Hp. unfold clean_line, strip_number.
  rewrite (numbered_prefix p x Hp). reflexivity.
Qed.

(** ** What a plain sentence is made of *)

Lemma plain_chars (s : jsstring) :
  plain_sentence s ->
  Forall (fun x => x <> 42%N /\ x <> 58%N /\ x <> 40%N /\ x <> 91%N /\ x <> 93%N
                   /\ (is_space x = true -> x = 32%N)) s.
Proof.
  intros (c & body & t & -> & Hcs & Hcq & Hco & Hbody & Ht & Hsingle).
  destruct (CleanFacts.terminal_facts t Ht) as (T1 & T2 & T3 & T4 & T5 & T6 & T7).
  assert (Ho : forall x, ordinary x = true ->
                 x <> 42%N /\ x <> 58%N /\ x <> 40%N /\ x <> 91%N /\ x <> 93%N
                 /\ (is_space x = true -> x = 32%N)).
  { intros x Hx. destruct (CleanFacts.ordinary_facts x Hx) as (A & B & C & D & E & _ & G).
    repeat split; assumption. }
  constructor; [exact (Ho c Hco)|].
  apply Forall_app. split.
  - apply List.Forall_forall. intros x Hx.
    exact (Ho x (proj1 (forallb_forall _ _) Hbody x Hx)).
  - constructor; [|constructor]. repeat split; try assumption. congruence.
Qed.

Lemma Forall_weaken {A} (P Q : A -> Prop) (l : list A) :
  Forall P l -> (forall x, P x -> Q x) -> Forall Q l.
Proof. intros H HPQ. eapply List.Forall_impl; [exact HPQ | exact H]. Qed.

(** The last steps leave a plain sentence as it is. *)
Lemma plain_finish (s : jsstring) :
  plain_sentence s ->
  ensure_terminal (collapse_spaces false (trim (strip_quotes s))) = s.
Proof.
  intros Hs. pose proof (plain_chars s Hs) as Hch.
  destruct Hs as (c & body & t & Hs & Hcs & Hcq & Hco & Hbody & Ht & Hsingle).
  destruct (CleanFacts.terminal_facts t Ht) as (_ & _ & _ & _ & _ & T6 & T7).
  rewrite Hs.
  rewrite (CleanFacts.strip_quotes_same c body t Hcq T7).
  rewrite (CleanFacts.trim_same c body t Hcs T6).
  rewrite CleanFacts.collapse_spaces_same.
  - change (c :: body ++ [t]) with ((c :: body) ++ [t]).
    apply CleanFacts.ensure_terminal_same. exact Ht.
  - rewrite <- Hs. apply (Forall_weaken _ _ _ Hch). tauto.
  - rewrite <- Hs. exact Hsingle.
  - discriminate.
Qed.

Lemma plain_cut (s : jsstring) : plain_sentence s -> cut_explanation s = s.
Proof.
  intros (c & body & t & -> & Hcs & Hcq & Hco & Hbody & Ht & Hsingle).
  change (c :: body ++ [t]) with ((c :: body) ++ [t]).
  apply CleanFacts.cut_explanation_same.
  constructor.
  - apply (CleanFacts.ordinary_facts c Hco).
  - apply List.Forall_forall. intros x Hx.
    apply (CleanFacts.ordinary_facts x (proj1 (forallb_forall _ _) Hbody x Hx)).
Qed.

Lemma plain_head (s : jsstring) :
  plain_sentence s ->
  exists (c : N) (r : jsstring), s = c :: r /\ is_space c = false.
Proof.
  intros (c & body & t & -> & Hcs & _). eauto.
Qed.

(** ** The decorations, one step each *)

Lemma remove_bold_app (s r : jsstring) :
  Forall (fun c => c <> 42%N) s -> remove_bold (s ++ r) = s ++ remove_bold r.
Proof.
  induction 1 as [|a s Ha _ IH]; [reflexivity|].
  cbn [app remove_bold]. destruct (N.eqb_spec a 42) as [|_]; [congruence|].
  cbn [andb]. rewrite <- IH.
  destruct (s ++ r) as [|b x] eqn:E; [|reflexivity].
  reflexivity.
Qed.

Lemma trim_start_blank (ws s : jsstring) :
  blank ws -> trim_start (ws ++ s) = trim_start s.
Proof.
  unfold blank. induction ws as [|w ws IH]; [reflexivity|].
  cbn [forallb app trim_start]. intros H. apply andb_true_iff in H as [Hw Hws].
  rewrite Hw. exact (IH Hws).
Qed.

Lemma trim_start_head_same (c : N) (r : jsstring) :
  is_space c = false -> trim_start (c :: r) = c :: r.
Proof. intros H. cbn [trim_start]. rewrite H. reflexivity. Qed.

(** The first colon of a text is where its label ends, whichever of the
    three alternatives of the expression recognises it. *)
Lemma strip_prefix_ci_to_colon (p0 : jsstring) :
  Forall (fun c => c <> 58%N) p0 ->
  forall (l r rest : jsstring),
    Forall (fun c => c <> 58%N) l ->
    strip_prefix_ci (p0 ++ [58%N]) (l ++ 58%N :: r) = Some rest -> rest = r.
Proof.
  induction 1 as [|a p0 Ha _ IH]; intros l r rest Hl.
  - destruct l as [|b l]; cbn [app strip_prefix_ci].
    + change (upper 58 =? upper 58)%N with true. cbv iota. congruence.
    + inversion Hl as [|? ? Hb _]; subst.
      destruct (N.eqb_spec (upper 58) (upper b)) as [E|]; [|discriminate].
      exfalso. apply Hb. apply CleanFacts.upper_colon. symmetry. exact E.
  - destruct l as [|b l]; cbn [app strip_prefix_ci].
    + destruct (N.eqb_spec (upper a) (upper 58)) as [E|]; [|discriminate].
      exfalso. apply Ha. apply CleanFacts.upper_colon. exact E.
    + inversion Hl as [|? ? Hb Hl']; subst.
      destruct (upper a =? upper b)%N; [|discriminate].
      apply IH. exact Hl'.
Qed.

Lemma first_colon_unique (a b r r' : jsstring) :
  Forall (fun c => c <> 58%N) a -> Forall (fun c => c <> 58%N) b ->
  a ++ 58%N :: r = b ++ 58%N :: r' -> r = r'.
Proof.
  intros Ha. revert b. induction Ha as [|x a Hx _ IH]; intros b Hb.
  - destruct Hb as [|y b Hy _]; cbn [app].
    + congruence.
    + intros [= E _]. congruence.
  - destruct Hb as [|y b Hy Hb]; cbn [app].
    + intros [= E _]. congruence.
    + intros [= _ E]. exact (IH b Hb E).
Qed.

Lemma strip_label_label (l r : jsstring) :
  l <> [] -> Forall (fun c => c <> 58%N) l ->
  strip_label (l ++ 58%N :: r) = trim_start r.
Proof.
  intros Hne Hl. unfold strip_label.
  destruct (label_corrected (l ++ 58%N :: r)) as [rest|] eqn:H1.
  { unfold label_corrected in H1.
    change (lit "Grammatically corrected version:")
      with (lit "Grammatically corrected version" ++ [58%N]) in H1.
    apply strip_prefix_ci_to_colon in H1; [subst; reflexivity| |exact Hl].
    apply List.Forall_forall. intros x Hx E. subst x. vm_compute in Hx.
    repeat (destruct Hx as [Hx|Hx]; [discriminate Hx|]). exact Hx. }
  destruct (label_alternative (l ++ 58%N :: r)) as [rest|] eqn:H2.
  { unfold label_alternative in H2.
    destruct (strip_prefix_ci (lit "Alternative version ") (l ++ 58%N :: r))
      as [[|c x]|] eqn:H3; try discriminate.
    destruct (is_digit c) eqn:Hc; [|discriminate].
    destruct (skip_digits x) as [|y rest'] eqn:Hx; [discriminate|].
    destruct (N.eqb_spec y 58) as [->|]; [|discriminate].
    injection H2 as <-.
    destruct (CleanFacts.strip_prefix_ci_rest _ _ _ H3) as (pre & Hpre).
    destruct (ApiFacts.skip_digits_spec x) as (ds & Hds & Hdig & _).
    rewrite Hx in Hds.
    assert (Hnocolon : Forall (fun c0 => c0 <> 58%N) (pre ++ c :: ds)).
    { apply Forall_app. split.
      - (* the prefix matched a pattern without colon *)
        apply List.Forall_forall. intros z Hz E. subst z.
        assert (Hin : In 58%N (lit "Alternative version ")).
        { clear - H3 Hz Hpre. revert H3 Hz. rewrite Hpre.
          generalize (lit "Alternative version ").
          clear Hpre. revert x.
          induction pre as [|b pre IH]; intros x p H3 Hz; [destruct Hz|].
          destruct p as [|a p]; cbn [app strip_prefix_ci] in H3.
          - exfalso.
            pose proof (f_equal (fun o => match o with
                                          | Some y => length y
                                          | None => 0%nat
                                          end) H3) as Hlen.
            cbn [length] in Hlen. rewrite length_app in Hlen.
            cbn [length] in Hlen. lia.
          - destruct (N.eqb_spec (upper a) (upper b)) as [E|]; [|discriminate].
            destruct Hz as [->|Hz].
            + left. apply CleanFacts.upper_colon. exact E.
            + right. exact (IH x p H3 Hz). }
        vm_compute in Hin.
        repeat (destruct Hin as [Hin|Hin]; [discriminate Hin|]). exact Hin.
      - constructor; [intros ->; discriminate Hc|].
        eapply List.Forall_impl; [|exact Hdig].
        intros z Hz ->. discriminate Hz. }
    f_equal. symmetry.
    apply (first_colon_unique l (pre ++ c :: ds) r rest' Hl Hnocolon).
    rewrite Hpre, Hds. rewrite <- app_assoc. reflexivity. }
  unfold label_any.
  destruct l as [|c0 l0]; [congruence|].
  inversion Hl as [|? ? Hc0 Hl0]; subst.
  cbn [app]. destruct (N.eqb_spec c0 58); [congruence|].
  unfold skip_non_colon. rewrite (ApiFacts.drop_until_app 58 l0 r Hl0). reflexivity.
Qed.

Lemma paren_match_space (x : N) (rest : jsstring) :
  is_space x = true -> paren_match rest = None -> paren_match (x :: rest) = None.
Proof.
  unfold paren_match. cbn [trim_start]. intros -> H.
  destruct (trim_start rest) as [|c r]; [reflexivity|].
  destruct (c =? 40)%N; [|reflexivity].
  destruct r as [|y r']; [reflexivity|].
  destruct (y =? 41)%N; [reflexivity|].
  destruct (skip_to_close (y :: r')); [reflexivity | discriminate].
Qed.

Lemma paren_match_within (v : jsstring) (z : N) (tail : jsstring) :
  Forall (fun c => c <> 40%N) v -> z <> 40%N -> is_space z = false ->
  paren_match (v ++ z :: tail) = None.
Proof.
  intros Hv Hz Hzs. induction Hv as [|x v Hx _ IH]; cbn [app].
  - unfold paren_match. cbn [trim_start]. rewrite Hzs.
    destruct (N.eqb_spec z 40); [congruence | reflexivity].
  - destruct (is_space x) eqn:Hxs.
    + apply paren_match_space; assumption.
    + unfold paren_match. cbn [trim_start]. rewrite Hxs.
      destruct (N.eqb_spec x 40); [congruence | reflexivity].
Qed.

Lemma remove_parens_within (v : jsstring) (z : N) (tail : jsstring) :
  Forall (fun c => c <> 40%N) v -> z <> 40%N -> is_space z = false ->
  remove_parens_from 0 (v ++ z :: tail) = v ++ z :: remove_parens_from 0 tail.
Proof.
  intros Hv Hz Hzs. induction Hv as [|x v Hx Hv IH]; cbn [app].
  - cbn [remove_parens_from].
    pose proof (paren_match_within [] z tail (List.Forall_nil _) Hz Hzs) as H.
    cbn [app] in H. rewrite H. reflexivity.
  - cbn [remove_parens_from].
    change (x :: v ++ z :: tail) with ((x :: v) ++ z :: tail).
    rewrite (paren_match_within (x :: v) z tail
               (List.Forall_cons (fun c => c <> 40%N) x v Hx Hv) Hz Hzs).
    cbn [app]. rewrite IH. reflexivity.
Qed.

Lemma remove_parens_from_all (r : jsstring) :
  remove_parens_from (length r) r = [].
Proof. induction r as [|c r IH]; [reflexivity | exact IH]. Qed.

Lemma remove_parens_note (ws n : jsstring) :
  blank ws -> note_text n ->
  remove_parens_from 0 (ws ++ 40%N :: n ++ [41%N]) = [].
Proof.
  intros Hws (Hne & Hn).
  assert (Hm : paren_match (ws ++ 40%N :: n ++ [41%N])
               = Some (length (ws ++ 40%N :: n ++ [41%N]))).
  { unfold paren_match. rewrite (trim_start_blank ws _ Hws).
    cbn [trim_start]. change (is_space 40) with false. cbv iota.
    change (40 =? 40)%N with true. cbv iota.
    destruct n as [|y n']; [congruence|].
    inversion Hn as [|? ? (Hy & _) Hn']; subst.
    cbn [app]. destruct (N.eqb_spec y 41); [congruence|].
    unfold skip_to_close.
    change (y :: n' ++ [41%N]) with ((y :: n') ++ 41%N :: []).
    rewrite ApiFacts.drop_until_app.
    - rewrite Nat.sub_0_r. reflexivity.
    - eapply List.Forall_impl; [|exact Hn]. intros a Ha. apply Ha. }
  destruct (ws ++ 40%N :: n ++ [41%N]) as [|c r] eqn:E.
  { destruct ws; discriminate E. }
  cbn [remove_parens_from]. rewrite Hm. cbn [length].
  apply remove_parens_from_all.
Qed.

Lemma cut_explanation_keep (pre : jsstring) (t : N) (tail : jsstring) :
  Forall (fun c => c <> 46%N) pre -> explanation_tail tail = false ->
  cut_explanation (pre ++ t :: tail) = pre ++ t :: cut_explanation tail.
Proof.
  intros Hpre Htail. induction Hpre as [|c pre Hc _ IH]; cbn [app cut_explanation].
  - rewrite Htail, andb_false_r. reflexivity.
  - destruct (N.eqb_spec c 46); [congruence|]. cbn [andb]. rewrite IH. reflexivity.
Qed.

Lemma cut_explanation_cut (pre tail : jsstring) :
  Forall (fun c => c <> 46%N) pre -> explanation_tail tail = true ->
  cut_explanation (pre ++ 46%N :: tail) = pre ++ [46%N].
Proof.
  intros Hpre Htail. induction Hpre as [|c pre Hc _ IH]; cbn [app cut_explanation].
  - rewrite Htail. reflexivity.
  - destruct (N.eqb_spec c 46); [congruence|]. cbn [andb]. rewrite IH. reflexivity.
Qed.

Lemma letter_not_space (c : N) : is_letter c = true -> is_space c = false.
Proof.
  unfold is_letter. intros H.
  apply orb_true_iff in H as [H|H]; apply andb_true_iff in H as [H1 H2];
    apply N.leb_le in H1, H2; unfold is_space;
    repeat match goal with
           | |- context [(?a <=? ?b)%N] => destruct (N.leb_spec a b); try lia
           | |- context [(?a =? ?b)%N] => destruct (N.eqb_spec a b); try lia
           end; reflexivity.
Qed.

Lemma ordinary_no_period (r : jsstring) :
  forallb ordinary r = true -> no_period r = true.
Proof.
  unfold no_period. intros H. apply forallb_forall. intros x Hx.
  destruct (CleanFacts.ordinary_facts x (proj1 (forallb_forall _ _) H x Hx))
    as (_ & _ & _ & _ & _ & Hp & _).
  destruct (N.eqb_spec x 46); [congruence | reflexivity].
Qed.

Lemma explanation_tail_text (ws x : jsstring) :
  ws <> [] -> blank ws -> explanation_text x ->
  explanation_tail (ws ++ x) = true.
Proof.
  intros Hne Hws (c & r & -> & Hc & Hr).
  unfold explanation_tail.
  destruct ws as [|w ws']; [congruence|].
  pose proof Hws as Hws0. unfold blank in Hws0. cbn [forallb] in Hws0.
  apply andb_true_iff in Hws0 as [Hw _].
  change ((w :: ws') ++ c :: r) with (w :: ws' ++ c :: r).
  cbv iota. rewrite Hw. cbn [andb].
  change (w :: ws' ++ c :: r) with ((w :: ws') ++ c :: r).
  rewrite (trim_start_blank (w :: ws') _ Hws).
  rewrite (trim_start_head_same c r (letter_not_space c Hc)).
  rewrite Hc, (ordinary_no_period r Hr). reflexivity.
Qed.

Lemma strip_quotes_pair (q q' : N) (s : jsstring) :
  is_quote q = true -> is_quote q' = true ->
  strip_quotes (q :: s ++ [q']) = s.
Proof.
  intros Hq Hq'. unfold strip_quotes. rewrite Hq.
  rewrite rev_app_distr. cbn [rev app]. rewrite Hq'. apply rev_involutive.
Qed.

Lemma blank_chars (ws : jsstring) :
  blank ws -> Forall (fun c => is_space c = true) ws.
Proof.
  unfold blank. intros H. apply List.Forall_forall. intros c Hc.
  exact (proj1 (forallb_forall _ _) H c Hc).
Qed.

(** The first five steps leave a plain sentence as it is. *)
Lemma plain_steps (s : jsstring) :
  plain_sentence s ->
  remove_bold s = s /\ strip_label s = s /\ remove_parens s = s
  /\ remove_brackets s = s /\ cut_explanation s = s.
Proof.
  intros Hs. pose proof (plain_chars s Hs) as Hch.
  split; [apply CleanFacts.remove_bold_same, (Forall_weaken _ _ _ Hch); tauto|].
  split; [apply CleanFacts.strip_label_same, (Forall_weaken _ _ _ Hch); tauto|].
  split; [apply CleanFacts.remove_parens_same, (Forall_weaken _ _ _ Hch); tauto|].
  split; [apply CleanFacts.remove_brackets_same, (Forall_weaken _ _ _ Hch); tauto|].
  apply plain_cut. exact Hs.
Qed.

Ltac chars Hch :=
  repeat first
    [ apply Forall_app; split
    | apply List.Forall_cons
    | apply List.Forall_nil
    | solve [apply (Forall_weaken _ _ _ Hch); tauto]
    | match goal with
      | Hb : blank ?ws |- Forall _ ?ws =>
          solve [apply (Forall_weaken _ _ _ (blank_chars ws Hb));
                 intros ? Hc; repeat split; intros ->; discriminate Hc]
      end
    | match goal with
      | H : Forall _ ?l |- Forall _ ?l => solve [apply (Forall_weaken _ _ _ H); tauto]
      end
    | discriminate
    | split ].

(** ** A plain sentence in one decoration *)

Section Decorations.
Variables (p s : jsstring).
Hypothesis Hp : number_prefix p.
Hypothesis Hs : plain_sentence s.

Lemma clean_bare : clean_line (p ++ s) = s.
Proof.
  rewrite (clean_line_prefix p _ Hp).
  destruct (plain_steps s Hs) as (-> & -> & -> & -> & ->).
  apply plain_finish, Hs.
Qed.

Lemma clean_bold : clean_line (p ++ [42%N; 42%N] ++ s ++ [42%N; 42%N]) = s.
Proof.
  rewrite (clean_line_prefix p _ Hp).
  pose proof (plain_chars s Hs) as Hch.
  cbn [app remove_bold]. change (42 =? 42)%N with true. cbn [andb].
  rewrite remove_bold_app by (chars Hch).
  cbn [remove_bold]. change (42 =? 42)%N with true. cbn [andb].
  rewrite app_nil_r.
  destruct (plain_steps s Hs) as (_ & -> & -> & -> & ->).
  apply plain_finish, Hs.
Qed.

Lemma clean_label (l ws : jsstring) :
  label_text l -> blank ws -> clean_line (p ++ l ++ [58%N] ++ ws ++ s) = s.
Proof.
  intros (Hne & Hl) Hws.
  rewrite (clean_line_prefix p _ Hp).
  pose proof (plain_chars s Hs) as Hch.
  rewrite CleanFacts.remove_bold_same by (chars Hch).
  cbn [app]. rewrite strip_label_label; [|exact Hne|chars Hch].
  rewrite (trim_start_blank ws s Hws).
  destruct (plain_head s Hs) as (c & r & E & Hc).
  rewrite E, (trim_start_head_same c r Hc), <- E.
  destruct (plain_steps s Hs) as (_ & _ & -> & -> & ->).
  apply plain_finish, Hs.
Qed.

Lemma clean_note (ws n : jsstring) :
  blank ws -> note_text n ->
  clean_line (p ++ s ++ ws ++ [40%N] ++ n ++ [41%N]) = s.
Proof.
  intros Hws Hn. pose proof Hn as (Hne & Hnn).
  rewrite (clean_line_prefix p _ Hp).
  pose proof (plain_chars s Hs) as Hch.
  rewrite CleanFacts.remove_bold_same by (chars Hch).
  rewrite CleanFacts.strip_label_same by (chars Hch).
  destruct Hs as (c & body & t & E & Hcs & Hcq & Hco & Hbody & Ht & Hsingle).
  destruct (CleanFacts.terminal_facts t Ht) as (_ & _ & T3 & _ & _ & T6 & _).
  assert (Hv : Forall (fun x => x <> 40%N) (c :: body)).
  { rewrite E in Hch. change (c :: body ++ [t]) with ((c :: body) ++ [t]) in Hch.
    apply Forall_app in Hch as [Hch _]. apply (Forall_weaken _ _ _ Hch). tauto. }
  unfold remove_parens. rewrite E.
  change ((c :: body ++ [t]) ++ ws ++ [40%N] ++ n ++ [41%N])
    with (c :: (body ++ [t]) ++ ws ++ 40%N :: n ++ [41%N]).
  rewrite <- app_assoc.
  change (c :: body ++ [t] ++ ws ++ 40%N :: n ++ [41%N])
    with ((c :: body) ++ t :: ws ++ 40%N :: n ++ [41%N]).
  rewrite (remove_parens_within (c :: body) t _ Hv T3 T6).
  rewrite (remove_parens_note ws n Hws Hn).
  change ((c :: body) ++ [t]) with (c :: body ++ [t]). rewrite <- E.
  assert (Hs' : plain_sentence s).
  { exists c, body, t. repeat split; assumption. }
  destruct (plain_steps s Hs') as (_ & _ & _ & -> & ->).
  apply plain_finish, Hs'.
Qed.

Lemma clean_brackets : clean_line (p ++ [91%N] ++ s ++ [93%N]) = s.
Proof.
  rewrite (clean_line_prefix p _ Hp).
  pose proof (plain_chars s Hs) as Hch.
  rewrite CleanFacts.remove_bold_same by (chars Hch).
  rewrite CleanFacts.strip_label_same by (chars Hch).
  rewrite CleanFacts.remove_parens_same by (chars Hch).
  assert (Hb : remove_brackets ([91%N] ++ s ++ [93%N]) = s).
  { unfold remove_brackets. cbn [app List.filter]. change (91 =? 91)%N with true.
    cbn [orb negb]. rewrite List.filter_app. cbn [List.filter].
    change (93 =? 91)%N with false. change (93 =? 93)%N with true. cbn [orb negb].
    rewrite app_nil_r.
    apply (CleanFacts.remove_brackets_same s). chars Hch. }
  rewrite Hb.
  destruct (plain_steps s Hs) as (_ & _ & _ & _ & ->).
  apply plain_finish, Hs.
Qed.

Lemma clean_quotes (q q' : N) :
  is_quote q = true -> is_quote q' = true ->
  clean_line (p ++ [q] ++ s ++ [q']) = s.
Proof.
  intros Hq Hq'.
  assert (Hqc : forall x, is_quote x = true ->
                  x <> 42%N /\ x <> 58%N /\ x <> 40%N /\ x <> 91%N /\ x <> 93%N
                  /\ x <> 46%N /\ is_space x = false).
  { intros x Hx. unfold is_quote in Hx.
    apply orb_true_iff in Hx as [Hx|Hx]; apply N.eqb_eq in Hx; subst x;
      repeat split; discriminate. }
  destruct (Hqc q Hq) as (A1 & A2 & A3 & A4 & A5 & A6 & A7).
  destruct (Hqc q' Hq') as (B1 & B2 & B3 & B4 & B5 & B6 & B7).
  rewrite (clean_line_prefix p _ Hp).
  pose proof (plain_chars s Hs) as Hch.
  rewrite CleanFacts.remove_bold_same by (chars Hch; assumption).
  rewrite CleanFacts.strip_label_same by (chars Hch; assumption).
  rewrite CleanFacts.remove_parens_same by (chars Hch; assumption).
  rewrite CleanFacts.remove_brackets_same by (chars Hch; assumption).
  destruct Hs as (c & body & t & E & Hcs & Hcq & Hco & Hbody & Ht & Hsingle).
  assert (Hpre : Forall (fun x => x <> 46%N) (q :: c :: body)).
  { constructor; [exact A6|]. constructor.
    - apply (CleanFacts.ordinary_facts c Hco).
    - apply List.Forall_forall. intros x Hx.
      apply (CleanFacts.ordinary_facts x (proj1 (forallb_forall _ _) Hbody x Hx)). }
  assert (Hcut : cut_explanation ([q] ++ s ++ [q']) = [q] ++ s ++ [q']).
  { rewrite E.
    change ([q] ++ (c :: body ++ [t]) ++ [q']) with (q :: c :: (body ++ [t]) ++ [q']).
    rewrite <- app_assoc.
    change (q :: c :: body ++ [t] ++ [q']) with ((q :: c :: body) ++ t :: [q']).
    rewrite (cut_explanation_keep (q :: c :: body) t [q'] Hpre).
    - cbn [cut_explanation]. destruct (N.eqb_spec q' 46); [congruence | reflexivity].
    - cbn [explanation_tail]. rewrite B7. reflexivity. }
  rewrite Hcut. cbn [app]. rewrite (strip_quotes_pair q q' s Hq Hq').
  assert (Hs' : plain_sentence s).
  { exists c, body, t. repeat split; assumption. }
  assert (Hfin : ensure_terminal (collapse_spaces false (trim (strip_quotes s))) = s)
    by (apply plain_finish, Hs').
  rewrite E in Hfin at 1.
  destruct (CleanFacts.terminal_facts t Ht) as (_ & _ & _ & _ & _ & _ & T7).
  rewrite (CleanFacts.strip_quotes_same c body t Hcq T7), <- E in Hfin.
  exact Hfin.
Qed.

Lemma clean_explanation (ws x : jsstring) :
  ws <> [] -> blank ws -> explanation_text x ->
  (exists s0 : jsstring, s = s0 ++ [46%N]) ->
  clean_line (p ++ s ++ ws ++ x) = s.
Proof.
  intros Hne Hws Hx (s0 & Hend).
  rewrite (clean_line_prefix p _ Hp).
  pose proof (plain_chars s Hs) as Hch.
  assert (Hxc : Forall (fun y => y <> 42%N /\ y <> 58%N /\ y <> 40%N
                                 /\ y <> 91%N /\ y <> 93%N) x).
  { destruct Hx as (c & r & -> & Hc & Hr). constructor.
    - unfold is_letter in Hc.
      apply orb_true_iff in Hc as [Hc|Hc]; apply andb_true_iff in Hc as [H1 H2];
        apply N.leb_le in H1, H2; repeat split; lia.
    - apply List.Forall_forall. intros y Hy.
      destruct (CleanFacts.ordinary_facts y (proj1 (forallb_forall _ _) Hr y Hy))
        as (A & B & C & D & E & _).
      repeat split; assumption. }
  rewrite CleanFacts.remove_bold_same by (chars Hch).
  rewrite CleanFacts.strip_label_same by (chars Hch).
  rewrite CleanFacts.remove_parens_same by (chars Hch).
  rewrite CleanFacts.remove_brackets_same by (chars Hch).
  destruct Hs as (c & body & t & E & Hcs & Hcq & Hco & Hbody & Ht & Hsingle).
  assert (Et : t = 46%N).
  { rewrite E in Hend.
    change (c :: body ++ [t]) with ((c :: body) ++ [t]) in Hend.
    apply app_inj_tail in Hend as [_ Ht']. exact Ht'. }
  assert (Hpre : Forall (fun y => y <> 46%N) (c :: body)).
  { constructor.
    - apply (CleanFacts.ordinary_facts c Hco).
    - apply List.Forall_forall. intros y Hy.
      apply (CleanFacts.ordinary_facts y (proj1 (forallb_forall _ _) Hbody y Hy)). }
  assert (Hcut : cut_explanation (s ++ ws ++ x) = s).
  { rewrite E, Et.
    change ((c :: body ++ [46%N]) ++ ws ++ x) with (c :: (body ++ [46%N]) ++ ws ++ x).
    rewrite <- app_assoc.
    change (c :: body ++ [46%N] ++ ws ++ x) with ((c :: body) ++ 46%N :: ws ++ x).
    rewrite (cut_explanation_cut (c :: body) (ws ++ x) Hpre
               (explanation_tail_text ws x Hne Hws Hx)).
    reflexivity. }
  rewrite Hcut. apply plain_finish.
  exists c, body, t. repeat split; assumption.
Qed.

End Decorations.

(** ** What every cleaned line looks like *)

Lemma collapse_head (s : jsstring) :
  match collapse_spaces true s with
  | c :: _ => is_space c = false
  | [] => True
  end.
Proof.
  induction s as [|c r IH]; cbn [collapse_spaces]; [exact I|].
  destruct (is_space c) eqn:Hc; [exact IH | exact Hc].
Qed.

Lemma collapse_single (s : jsstring) :
  forall b : bool, single_spaced (collapse_spaces b s) = true.
Proof.
  induction s as [|c r IH]; intros b; cbn [collapse_spaces]; [reflexivity|].
  destruct (is_space c) eqn:Hc.
  - destruct b; [apply IH|].
    cbn [single_spaced]. pose proof (collapse_head r) as Hh.
    specialize (IH true).
    destruct (collapse_spaces true r) as [|x rest]; [reflexivity|].
    rewrite Hh, andb_false_r. exact IH.
  - cbn [single_spaced]. specialize (IH false).
    destruct (collapse_spaces false r) as [|x rest]; [reflexivity|].
    rewrite Hc. exact IH.
Qed.

Lemma collapse_only_spaces (s : jsstring) :
  forall b : bool,
    Forall (fun c => is_space c = true -> c = 32%N) (collapse_spaces b s).
Proof.
  induction s as [|c r IH]; intros b; cbn [collapse_spaces]; [constructor|].
  destruct (is_space c) eqn:Hc.
  - destruct b; [apply IH|]. constructor; [reflexivity | apply IH].
  - constructor; [congruence | apply IH].
Qed.

Lemma single_spaced_snoc (s : jsstring) (t : N) :
  single_spaced s = true -> is_space t = false -> single_spaced (s ++ [t]) = true.
Proof.
  intros Hs Ht. induction s as [|a r IH]; [reflexivity|].
  destruct r as [|b r'].
  - cbn [app single_spaced]. rewrite Ht, andb_false_r. reflexivity.
  - change (single_spaced (a :: b :: r' ++ [t]) = true).
    change (negb (is_space a && is_space b) && single_spaced (b :: r' ++ [t]) = true).
    change (negb (is_space a && is_space b) && single_spaced (b :: r') = true) in Hs.
    apply andb_true_iff in Hs as [H1 H2].
    rewrite H1. exact (IH H2).
Qed.

Lemma collapse_trim_head (x : jsstring) :
  match collapse_spaces false (trim x) with
  | c :: _ => is_space c = false
  | [] => True
  end.
Proof.
  destruct (trim x) as [|c r] eqn:E; [exact I|].
  assert (Hc : is_space c = false).
  { unfold trim in E. destruct (DomFacts.trim_end_split (trim_start x)) as (trail & Hs & _).
    rewrite E in Hs.
    destruct (trim_start x) as [|d r'] eqn:Ed; [discriminate Hs|].
    injection Hs as <- _. exact (DomFacts.trim_start_head x d r' Ed). }
  cbn [collapse_spaces]. rewrite Hc. exact Hc.
Qed.

(** A cleaned line starts with a character that is not white space, and
    the white space in it is single spaces. *)
Lemma clean_line_spacing (line : jsstring) :
  single_spaced (clean_line line) = true
  /\ Forall (fun c => is_space c = true -> c = 32%N) (clean_line line)
  /\ exists (c : N) (r : jsstring), clean_line line = c :: r /\ is_space c = false.
Proof.
  unfold clean_line.
  match goal with
  | |- context [collapse_spaces false (trim ?x)] =>
      pose proof (collapse_single (trim x) false) as H1;
      pose proof (collapse_only_spaces (trim x) false) as H2;
      pose proof (collapse_trim_head x) as H3;
      generalize dependent (collapse_spaces false (trim x))
  end.
  intros y H1 H2 H3. unfold ensure_terminal.
  destruct (ends_with_terminal y) eqn:He.
  - split; [exact H1|]. split; [exact H2|].
    destruct y as [|c r]; [discriminate He|]. eauto.
  - split; [apply single_spaced_snoc; [exact H1 | reflexivity]|].
    split; [apply Forall_app; split; [exact H2 | repeat constructor; discriminate]|].
    destruct y as [|c r]; cbn [app]; eauto.
Qed.

(** ** analyzeSentiment *)

Lemma analyzeSentiment_reply (e : env) (text reply : jsstring) :
  replies_sentiment e text reply ->
  result (analyzeSentiment e text)
  = Ok {| sentiment := match capture_after (lit "Sentiment: ") reply with
                       | Some m => trim m
                       | None => lit "Neutral"
                       end;
          emoji := match capture_after (lit "Emoji: ") reply with
                   | Some m => trim m
                   | None => default_emoji
                   end |}.
Proof.
  intros (k & r & data & Hk & Hne & Hf & Hok & Hj & Hc).
  unfold analyzeSentiment, analyzeSentiment_body.
  rewrite ApiFacts.result_try_catch.
  destruct k as [|c k]; [congruence|].
  repeat (rewrite ApiFacts.result_bind;
          rewrite ?Hk, ?ApiFacts.result_post, ?Hf, ?Hok, ?Hj, ?Hc;
          cbn [result snd console_log console_warn console_error emit lift ret
               throw is_empty negb as_string]).
  reflexivity.
Qed.

Lemma take_line_whole (m : jsstring) : one_line m -> take_line m = m.
Proof.
  unfold one_line. induction m as [|c m IH]; cbn [forallb take_line].
  - reflexivity.
  - intros H. apply andb_true_iff in H as [Hc Hm].
    apply negb_true_iff in Hc. rewrite Hc, (IH Hm). reflexivity.
Qed.

Lemma capture_after_skip (pre rest : jsstring) :
  forallb (fun c => negb (c =? 69)%N) pre = true ->
  capture_after (lit "Emoji: ") (pre ++ rest) = capture_after (lit "Emoji: ") rest.
Proof.
  induction pre as [|c pre IH]; cbn [forallb app]; [reflexivity|].
  intros H. apply andb_true_iff in H as [Hc Hpre].
  apply negb_true_iff in Hc. rewrite <- (IH Hpre).
  cbn [capture_after]. change (lit "Emoji: ") with (69%N :: lit "moji: ").
  cbn [strip_prefix]. rewrite N.eqb_sym, Hc. reflexivity.
Qed.

Lemma capture_formatted (s m : jsstring) :
  In s sentiment_options -> one_line m ->
  capture_after (lit "Sentiment: ") (sentiment_reply s m) = Some s
  /\ capture_after (lit "Emoji: ") (sentiment_reply s m) = Some m
  /\ trim s = s.
Proof.
  intros Hin Hm. unfold sentiment_options in Hin.
  assert (Hemoji : capture_after (lit "Emoji: ") (lit "Emoji: " ++ m) = Some m).
  { change (capture_after (lit "Emoji: ") (lit "Emoji: " ++ m))
      with (Some (take_line m)).
    rewrite (take_line_whole m Hm). reflexivity. }
  repeat (destruct Hin as [<-|Hin];
          [split; [reflexivity|]; split; [|reflexivity];
           match goal with
           | |- capture_after _ (sentiment_reply ?s m) = _ =>
               change (sentiment_reply s m)
                 with ((lit "Sentiment: " ++ s ++ [10%N]) ++ lit "Emoji: " ++ m)
           end;
           rewrite capture_after_skip by reflexivity; exact Hemoji|]).
  destruct Hin.
Qed.

Lemma strip_prefix_in (p : jsstring) :
  forall (s r : jsstring) (x : N),
    strip_prefix p s = Some r -> In x p -> In x s.
Proof.
  induction p as [|a p IH]; intros s r x; cbn [strip_prefix]; [intros _ []|].
  destruct s as [|b s]; [discriminate|].
  destruct (N.eqb_spec a b) as [->|]; [|discriminate].
  intros H [->|Hin]; [left; reflexivity | right; exact (IH s r x H Hin)].
Qed.

Lemma capture_after_none (label s : jsstring) :
  In 58%N label -> Forall (fun c => c <> 58%N) s -> capture_after label s = None.
Proof.
  intros Hl Hs.
  assert (Hno : forall u, Forall (fun c => c <> 58%N) u -> strip_prefix label u = None).
  { intros u Hu. destruct (strip_prefix label u) as [r|] eqn:E; [|reflexivity].
    exfalso. pose proof (strip_prefix_in label u r 58%N E Hl) as Hin.
    exact (proj1 (List.Forall_forall _ _) Hu _ Hin eq_refl). }
  induction Hs as [|c s Hc Hs IH]; cbn [capture_after].
  - rewrite (Hno [] (List.Forall_nil _)). reflexivity.
  - rewrite (Hno (c :: s) (List.Forall_cons _ c s Hc Hs)). exact IH.
Qed.

(** ** checkGrammarWithDetails on a reply it can parse *)

Lemma checkGrammarWithDetails_parsed (e : env) (text reply block : jsstring)
    (fields : list (jsstring * value)) (mistakes fixed : list value) :
  replies e (details_prompt text) 30000 reply ->
  json_block reply = Some block ->
  JSON_parse e block = Ok (Obj fields) ->
  lookup_field (lit "words_with_mistakes") fields = Arr mistakes ->
  map_outcome (fix_indices e text) mistakes = Ok fixed ->
  result (checkGrammarWithDetails e text)
  = Ok (Obj (set_field (lit "words_with_mistakes") (Arr fixed) fields)).
Proof.
  intros H Hb Hp Hw Hfix. unfold checkGrammarWithDetails, checkGrammarWithDetails_body.
  rewrite ApiFacts.result_try_catch.
  destruct H as (k & r & data & Hk & Hne & Hf & Hok & Hj & Hc).
  destruct k as [|c k]; [congruence|].
  repeat (rewrite ApiFacts.result_bind;
          rewrite ?Hk, ?ApiFacts.result_post, ?Hf, ?Hok, ?Hj, ?Hc;
          cbn [result snd console_log console_warn console_error emit lift ret
               throw is_empty negb as_string]).
  rewrite Hb. rewrite ApiFacts.result_bind. cbn [lift result snd]. rewrite Hp.
  rewrite ApiFacts.result_bind. cbn [lift result snd get].
  change (lit "words_with_mistakes") with (lit "words_with_mistakes") in Hw.
  rewrite Hw. rewrite ApiFacts.result_bind. cbn [lift result snd]. rewrite Hfix.
  reflexivity.
Qed.

(** ** The claim and its amendment *)


Lemma answering_replies_sentiment (reply text : jsstring)
    (parse : jsstring -> outcome value) :
  replies_sentiment (answering reply parse) text reply.
Proof.
  exists (lit "k"), {| ok := true; status := 200%N;
                       text_body := Ok []; json_body := Ok (candidates_of reply) |},
    (candidates_of reply).
  repeat split; try reflexivity. discriminate.
Qed.



End ParsingFacts.
